(** * encoder-project: job store, scanner, dispatch engine and window scheduler

    A shallow embedding of the four services of the repository and the
    properties of the specification checked against them.  The services are
    named as [main.js] requires them:
    - database.js   (src/unnamed/part_004)
    - scanner.js    (src/unnamed/part_002, from its line 100)
    - encoder.js    (src/src/pages/Dashboard.jsx, from its line 268)
    - scheduler.js  (src/unnamed/part_000)

    Conventions of the embedding.
    - SQLite tables are lists of rows in rowid order; AUTOINCREMENT is the
      table's sequence counter; CURRENT_TIMESTAMP is the [now] argument.
    - JavaScript exceptions are the [Throw] case of [res]; state written before
      a throw stays written.
    - Asynchronous code is cut at its [await]s: every suspended continuation
      is a [task], resumed by an event that carries what the awaited call
      produced (the outcome of fs, ffprobe, spawn or the encoder process).
    - Notifications to the window (webContents.send) and console output change
      no state and are left out. *)

From Stdlib Require Import ZArith List String Ascii Lia Bool Sorted.
From stdpp Require Import base decidable option list gmap strings pretty.
Import ListNotations.

(** ** JavaScript values used by the services *)

Module JS.

(** Errors thrown by the services and by the libraries they call. *)
Inductive error :=
| MediaNotFound (mediaId : Z)        (* createEncodingJob *)
| JobNotFound (jobId : Z)            (* restartJob *)
| JobNotFailed (jobId : Z)           (* restartJob *)
| EncodedFileEmpty                   (* replaceOriginalFile *)
| EncodingFailed (code : option Z) (stderrData : string)
| SqliteSyntaxError (near : string)  (* db.prepare on malformed SQL *)
| TypeError (what : string)          (* property access on undefined *)
| External (msg : string).           (* fs, ffprobe, spawn *)

(** [error.message] *)
Definition message (e : error) : string :=
  match e with
  | MediaNotFound i => "Media with id " +:+ pretty i +:+ " not found"
  | JobNotFound i => "Job with id " +:+ pretty i +:+ " not found"
  | JobNotFailed i => "Job with id " +:+ pretty i +:+ " is not in failed status"
  | EncodedFileEmpty => "Encoded file is empty"
  | EncodingFailed c s =>
      "FFmpeg encoding failed with code " +:+ from_option pretty "null" c
      +:+ ": " +:+ s
  | SqliteSyntaxError n => "near " +:+ n +:+ ": syntax error"
  | TypeError w => w
  | External m => m
  end.

(** The result of running code that may throw. *)
Inductive res (A : Type) :=
| Ret (a : A)
| Throw (e : error).
Arguments Ret {A} a.
Arguments Throw {A} e.

(** [String.prototype.toLowerCase].  Strings are taken to be ASCII, as codec
    tags, file extensions and times of day are: the letters A to Z are
    lower-cased, every other character is left as it is. *)
Definition lower_ascii (c : ascii) : ascii :=
  let n := nat_of_ascii c in
  if (65 <=? n)%nat && (n <=? 90)%nat then ascii_of_nat (n + 32) else c.

Fixpoint toLowerCase (s : string) : string :=
  match s with
  | EmptyString => EmptyString
  | String c s' => String (lower_ascii c) (toLowerCase s')
  end.

(** [Array.prototype.includes] on strings. *)
Definition includes (l : list string) (s : string) : bool :=
  existsb (fun x => bool_decide (x = s)) l.

(** [a <= b] and [a >= b] on strings: code units compared left to right, a
    proper prefix is smaller. *)
Definition str_le (a b : string) : bool := String.leb a b.
Definition str_ge (a b : string) : bool := String.leb b a.

(** [Number.prototype.toString] for a non-negative integer, and
    [padStart(2, '0')] of it. *)
Definition toString (n : nat) : string := pretty n.

Definition padStart2 (s : string) : string :=
  match s with
  | EmptyString => "00"
  | String c EmptyString => String "0" (String c EmptyString)
  | _ => s
  end.

(** [String.prototype.split(',')] *)
Fixpoint split_comma_aux (cur : string) (s : string) : list string :=
  match s with
  | EmptyString => [cur]
  | String c s' =>
      if bool_decide (c = ","%char) then cur :: split_comma_aux "" s'
      else split_comma_aux (cur +:+ String c EmptyString) s'
  end.

Definition split_comma (s : string) : list string := split_comma_aux "" s.

End JS.

(** ** The job store: database.js *)

Module Database.
Import JS.
Local Open Scope Z_scope.

Inductive job_status := queued | processing | replacing_file | completed | failed.

#[export] Instance job_status_eq_dec : EqDecision job_status.
Proof. solve_decision. Defined.

(** A row of [media].  [file_path] is UNIQUE, [id] the AUTOINCREMENT key. *)
Record media := mkMedia {
  m_id : Z;
  title : string;
  episode_name : option string;
  directory : string;
  file_path : string;
  file_size_bytes : Z;
  encoding_type : string;
  media_type : string;
  last_updated : Z;
  needs_encoding : bool;
  encoded_previously : bool;
  m_created_at : Z
}.

(** [size_reduction_percent] is the double
    [((source - new) / source) * 100]; the two sizes are kept, the floating
    point value is not computed. *)
Record percent := mkPercent { pct_source : Z; pct_new : Z }.

(** A row of [encoding_jobs]; [media_id] REFERENCES media (id) ON DELETE
    CASCADE. *)
Record job := mkJob {
  j_id : Z;
  media_id : Z;
  status : job_status;
  priority : Z;
  temp_file_path : option string;
  original_size_bytes : Z;
  new_size_bytes : option Z;
  size_reduction_percent : option percent;
  started_at : option Z;
  completed_at : option Z;
  error_message : option string;
  retries : Z;
  j_created_at : Z
}.

(** The connection's state: both tables and their sqlite_sequence entries
    (foreign_keys = ON). *)
Record db := mkDb {
  tbl_media : list media;
  seq_media : Z;
  tbl_encoding_jobs : list job;
  seq_encoding_jobs : Z
}.

Definition empty_db : db := mkDb [] 0 [] 0.

(** The argument of [addMedia]. *)
Record mediaInfo := mkMediaInfo {
  mi_title : string;
  mi_episode_name : option string;
  mi_directory : string;
  mi_file_path : string;
  mi_file_size_bytes : Z;
  mi_encoding_type : string;
  mi_media_type : string
}.

Definition acceptedCodecs : list string := ["hevc"; "h265"; "av1"].

(** [!['hevc', 'h265', 'av1'].includes(encoding_type.toLowerCase())] *)
Definition needsEncoding_of (encoding_type : string) : bool :=
  negb (includes acceptedCodecs (toLowerCase encoding_type)).

(** [x || null] on an optional string: the empty string is falsy. *)
Definition or_null (x : option string) : option string :=
  match x with
  | Some EmptyString => None
  | _ => x
  end.

Definition has_path (p : string) (m : media) : bool := bool_decide (file_path m = p).

Definition refers_to (ids : list Z) (j : job) : bool :=
  existsb (fun i => bool_decide (media_id j = i)) ids.

(** [addMedia]: INSERT OR REPLACE INTO media.  A row with the same
    [file_path] is deleted first, and with it (ON DELETE CASCADE) every job
    that refers to it; the inserted row takes the next id and the column
    defaults for [encoded_previously] and [created_at].  Returns
    [lastInsertRowid]. *)
Definition addMedia (now : Z) (mediaInfo : mediaInfo) (d : db) : Z * db :=
  let needsEncoding := needsEncoding_of (mi_encoding_type mediaInfo) in
  let replaced := List.filter (has_path (mi_file_path mediaInfo)) (tbl_media d) in
  let id := seq_media d + 1 in
  let row :=
    {| m_id := id;
       title := mi_title mediaInfo;
       episode_name := or_null (mi_episode_name mediaInfo);
       directory := mi_directory mediaInfo;
       file_path := mi_file_path mediaInfo;
       file_size_bytes := mi_file_size_bytes mediaInfo;
       encoding_type := mi_encoding_type mediaInfo;
       media_type := mi_media_type mediaInfo;
       last_updated := now;
       needs_encoding := needsEncoding;
       encoded_previously := false;
       m_created_at := now |} in
  (id,
   {| tbl_media :=
        List.filter (fun m => negb (has_path (mi_file_path mediaInfo) m)) (tbl_media d)
        ++ [row];
      seq_media := id;
      tbl_encoding_jobs :=
        List.filter (fun j => negb (refers_to (List.map m_id replaced) j))
                    (tbl_encoding_jobs d);
      seq_encoding_jobs := seq_encoding_jobs d |}).

(** ORDER BY: a stable insertion sort; [before y x] says that [y] must come
    first although [x] has the smaller rowid.  Rows that tie keep rowid
    order. *)
Fixpoint insert_by {A} (before : A -> A -> bool) (x : A) (l : list A) : list A :=
  match l with
  | [] => [x]
  | y :: l' => if before y x then y :: insert_by before x l' else x :: l
  end.

Definition order_by {A} (before : A -> A -> bool) (l : list A) : list A :=
  fold_right (insert_by before) [] l.

(** LIMIT ? OFFSET ?: a negative limit is no limit, a negative offset none. *)
Definition limit_offset {A} (limit offset : Z) (l : list A) : list A :=
  let l' := skipn (Z.to_nat offset) l in
  if limit <? 0 then l' else firstn (Z.to_nat limit) l'.

(** [getMediaNeedingEncoding]: WHERE needs_encoding = 1 ORDER BY
    file_size_bytes DESC LIMIT ? OFFSET ?. *)
Definition getMediaNeedingEncoding (limit offset : Z) (d : db) : list media :=
  limit_offset limit offset
    (order_by (fun y x => file_size_bytes x <? file_size_bytes y)
              (List.filter needs_encoding (tbl_media d))).

Definition find_media (mediaId : Z) (d : db) : option media :=
  List.find (fun m => bool_decide (m_id m = mediaId)) (tbl_media d).

(** [createEncodingJob] *)
Definition createEncodingJob (now : Z) (mediaId priority : Z) (d : db) : res Z * db :=
  match find_media mediaId d with
  | None => (Throw (MediaNotFound mediaId), d)
  | Some media =>
      let id := seq_encoding_jobs d + 1 in
      let row :=
        {| j_id := id;
           media_id := mediaId;
           status := queued;
           priority := priority;
           temp_file_path := None;
           original_size_bytes := file_size_bytes media;
           new_size_bytes := None;
           size_reduction_percent := None;
           started_at := None;
           completed_at := None;
           error_message := None;
           retries := 0;
           j_created_at := now |} in
      (Ret id,
       {| tbl_media := tbl_media d;
          seq_media := seq_media d;
          tbl_encoding_jobs := tbl_encoding_jobs d ++ [row];
          seq_encoding_jobs := id |})
  end.

(** The [data] object of [updateJobStatus]: one entry per column written by
    the callers. *)
Inductive field :=
| F_temp_file_path (v : string)
| F_error_message (v : option string)
| F_new_size_bytes (v : Z)
| F_size_reduction_percent (v : percent)
| F_retries (v : Z).

Definition column (f : field) : string :=
  match f with
  | F_temp_file_path _ => "temp_file_path"
  | F_error_message _ => "error_message"
  | F_new_size_bytes _ => "new_size_bytes"
  | F_size_reduction_percent _ => "size_reduction_percent"
  | F_retries _ => "retries"
  end.

(** The text [updateJobStatus] builds between SET and WHERE, cut at its
    commas.  The template writes a comma after [status = ?] and after the
    [data] entries, and then the timestamp assignment, which is the empty
    string unless the status is [completed] or [processing]. *)
Definition stamp_clause (s : job_status) : string :=
  match s with
  | completed => "completed_at = CURRENT_TIMESTAMP"
  | processing => "started_at = CURRENT_TIMESTAMP"
  | _ => ""
  end.

Definition set_items (s : job_status) (data : list field) : list string :=
  "status = ?" :: List.map (fun f => column f +:+ " = ?") data ++ [stamp_clause s].

(** The statement itself, white space apart: the template joins exactly
    these items with commas. *)
Fixpoint join (sep : string) (l : list string) : string :=
  match l with
  | [] => ""
  | [x] => x
  | x :: l' => x +:+ sep +:+ join sep l'
  end.

Definition update_sql (s : job_status) (data : list field) : string :=
  "UPDATE encoding_jobs SET " +:+ join ", " (set_items s data) +:+ " WHERE id = ?".

(** [db.prepare(sql)]: SQLite takes a SET list only when every item of it is
    an assignment; an empty item before WHERE is [near "WHERE": syntax
    error]. *)
Definition prepare_update (items : list string) : res unit :=
  if forallb (fun i => negb (bool_decide (i = ""))) items then Ret tt
  else Throw (SqliteSyntaxError "WHERE").

Definition set_field (f : field) (j : job) : job :=
  match f with
  | F_temp_file_path v =>
      mkJob (j_id j) (media_id j) (status j) (priority j) (Some v)
            (original_size_bytes j) (new_size_bytes j) (size_reduction_percent j)
            (started_at j) (completed_at j) (error_message j) (retries j) (j_created_at j)
  | F_error_message v =>
      mkJob (j_id j) (media_id j) (status j) (priority j) (temp_file_path j)
            (original_size_bytes j) (new_size_bytes j) (size_reduction_percent j)
            (started_at j) (completed_at j) v (retries j) (j_created_at j)
  | F_new_size_bytes v =>
      mkJob (j_id j) (media_id j) (status j) (priority j) (temp_file_path j)
            (original_size_bytes j) (Some v) (size_reduction_percent j)
            (started_at j) (completed_at j) (error_message j) (retries j) (j_created_at j)
  | F_size_reduction_percent v =>
      mkJob (j_id j) (media_id j) (status j) (priority j) (temp_file_path j)
            (original_size_bytes j) (new_size_bytes j) (Some v)
            (started_at j) (completed_at j) (error_message j) (retries j) (j_created_at j)
  | F_retries v =>
      mkJob (j_id j) (media_id j) (status j) (priority j) (temp_file_path j)
            (original_size_bytes j) (new_size_bytes j) (size_reduction_percent j)
            (started_at j) (completed_at j) (error_message j) v (j_created_at j)
  end.

Definition set_status (now : Z) (s : job_status) (j : job) : job :=
  mkJob (j_id j) (media_id j) s (priority j) (temp_file_path j)
        (original_size_bytes j) (new_size_bytes j) (size_reduction_percent j)
        (match s with processing => Some now | _ => started_at j end)
        (match s with completed => Some now | _ => completed_at j end)
        (error_message j) (retries j) (j_created_at j).

Definition update_job (now : Z) (s : job_status) (data : list field) (j : job) : job :=
  set_status now s (fold_left (fun j f => set_field f j) data j).

(** [updateJobStatus]: the statement is prepared, then run on the rows with
    that id. *)
Definition updateJobStatus (now : Z) (jobId : Z) (s : job_status) (data : list field)
    (d : db) : res unit * db :=
  match prepare_update (set_items s data) with
  | Throw e => (Throw e, d)
  | Ret _ =>
      (Ret tt,
       {| tbl_media := tbl_media d;
          seq_media := seq_media d;
          tbl_encoding_jobs :=
            List.map (fun j => if bool_decide (j_id j = jobId)
                               then update_job now s data j else j)
                     (tbl_encoding_jobs d);
          seq_encoding_jobs := seq_encoding_jobs d |})
  end.

(** [markMediaAsEncoded] *)
Definition mark_encoded (now : Z) (newEncodingType : string) (newSizeBytes : Z)
    (m : media) : media :=
  {| m_id := m_id m;
     title := title m;
     episode_name := episode_name m;
     directory := directory m;
     file_path := file_path m;
     file_size_bytes := newSizeBytes;
     encoding_type := newEncodingType;
     media_type := media_type m;
     last_updated := now;
     needs_encoding := false;
     encoded_previously := true;
     m_created_at := m_created_at m |}.

Definition markMediaAsEncoded (now : Z) (mediaId : Z) (newEncodingType : string)
    (newSizeBytes : Z) (d : db) : db :=
  {| tbl_media :=
       List.map (fun m => if bool_decide (m_id m = mediaId)
                          then mark_encoded now newEncodingType newSizeBytes m else m)
                (tbl_media d);
     seq_media := seq_media d;
     tbl_encoding_jobs := tbl_encoding_jobs d;
     seq_encoding_jobs := seq_encoding_jobs d |}.

(** A row of [SELECT j.*, m.title, m.episode_name, m.file_path,
    m.encoding_type FROM encoding_jobs j JOIN media m ON j.media_id = m.id]. *)
Record job_view := mkJobView {
  v_job : job;
  v_title : string;
  v_episode_name : option string;
  v_file_path : string;
  v_encoding_type : string
}.

Definition join_media (d : db) (j : job) : list job_view :=
  List.map (fun m => mkJobView j (title m) (episode_name m) (file_path m) (encoding_type m))
           (List.filter (fun m => bool_decide (m_id m = media_id j)) (tbl_media d)).

Definition joined (d : db) : list job_view :=
  List.flat_map (join_media d) (tbl_encoding_jobs d).

(** [getJobsByStatus]: ORDER BY j.priority DESC, j.created_at ASC LIMIT ?. *)
Definition job_before (y x : job_view) : bool :=
  (priority (v_job x) <? priority (v_job y))
  || ((priority (v_job x) =? priority (v_job y))
      && (j_created_at (v_job y) <? j_created_at (v_job x))).

Definition getJobsByStatus (s : job_status) (limit : Z) (d : db) : list job_view :=
  limit_offset limit 0
    (order_by job_before
       (List.filter (fun v => bool_decide (status (v_job v) = s)) (joined d))).

(** [getJobById] *)
Definition getJobById (jobId : Z) (d : db) : option job_view :=
  List.find (fun v => bool_decide (j_id (v_job v) = jobId)) (joined d).

(** [getPendingJobsCount] *)
Definition getPendingJobsCount (d : db) : Z :=
  Z.of_nat (length (List.filter
    (fun j => bool_decide (status j = queued) || bool_decide (status j = processing))
    (tbl_encoding_jobs d))).

(** The text of the [status] column. *)
Definition status_text (s : job_status) : string :=
  match s with
  | queued => "queued"
  | processing => "processing"
  | replacing_file => "replacing_file"
  | completed => "completed"
  | failed => "failed"
  end.

(** [s LIKE pattern] of SQLite: [%] stands for any run of characters, [_]
    for any one character, every other character for itself, the ASCII
    letters without regard to case. *)
Fixpoint like (pattern : string) : string -> bool :=
  match pattern with
  | EmptyString => fun s => bool_decide (s = "")
  | String p pattern' =>
      if bool_decide (p = "%"%char) then
        fix any (s : string) : bool :=
          like pattern' s
          || match s with
             | String _ s' => any s'
             | EmptyString => false
             end
      else if bool_decide (p = "_"%char) then
        fun s => match s with
                 | String _ s' => like pattern' s'
                 | EmptyString => false
                 end
      else
        fun s => match s with
                 | String c s' =>
                     bool_decide (lower_ascii c = lower_ascii p) && like pattern' s'
                 | EmptyString => false
                 end
  end.

(** [x LIKE ?] as a condition, for a column that may be NULL. *)
Definition like_null (pattern : string) (x : option string) : bool :=
  match x with
  | Some s => like pattern s
  | None => false
  end.

(** [searchJobs]: WHERE m.title LIKE ? OR m.episode_name LIKE ? OR
    m.file_path LIKE ? OR j.status LIKE ? ORDER BY j.created_at DESC
    LIMIT ?, each LIKE with the search term [%query%]. *)
Definition search_where (searchTerm : string) (v : job_view) : bool :=
  like searchTerm (v_title v)
  || like_null searchTerm (v_episode_name v)
  || like searchTerm (v_file_path v)
  || like searchTerm (status_text (status (v_job v))).

Definition searchJobs (query : string) (limit : Z) (d : db) : list job_view :=
  let searchTerm := "%" +:+ query +:+ "%" in
  limit_offset limit 0
    (order_by (fun y x => j_created_at (v_job x) <? j_created_at (v_job y))
       (List.filter (search_where searchTerm) (joined d))).

End Database.

(** ** What the Node.js runtime provides *)

(** The functions of the [path] and [os] modules the services call, the
    platform test of [getGpuInfo], and the [Number] conversion applied to the
    pieces of [days_of_week] ([None] stands for a result that is no integer,
    NaN included). *)
Class runtime := {
  path_join : string -> string -> string;
  path_extname : string -> string;
  path_basename : string -> string;
  path_basename_ext : string -> string -> string;
  path_dirname : string -> string;
  os_tmpdir : string;
  platform_win32 : bool;
  Number : string -> option Z
}.

(** ** The discovery engine: scanner.js *)

Module Scanner.
Import JS Database.
Local Open Scope Z_scope.

(** A stream of the metadata ffprobe returns. *)
Record stream := mkStream { codec_type : string; codec_name : option string }.

(** [scanLibrary]'s counters. *)
Record results := mkResults { scanned : Z; added : Z; errors : Z; needsEncoding : Z }.

(** What the file system and ffprobe answer during one walk: [fs.stat] of an
    entry fails, or it is a file (its size, what ffprobe returns for it, and
    the time at which it is recorded), or a directory; [fs.readdir] of a
    directory fails or lists entries by name. *)
Inductive node :=
| StatFails (e : error)
| File (size : Z) (probe : res (list stream)) (now : Z)
| Directory (l : listing)
with listing :=
| ReaddirFails (e : error)
| Entries (es : entries)
with entries :=
| ENil
| ECons (file : string) (n : node) (rest : entries).

Definition mediaExtensions : list string :=
  [".mp4"; ".mkv"; ".avi"; ".mov"; ".wmv"; ".m4v"; ".mpg"; ".mpeg"; ".flv"].

Definition is_digit (c : ascii) : bool :=
  let n := nat_of_ascii c in (48 <=? n)%nat && (n <=? 57)%nat.

Definition is_letter (l : ascii) (c : ascii) : bool :=
  bool_decide (lower_ascii c = l).

Fixpoint skip_digits (s : string) : string :=
  match s with
  | String c s' => if is_digit c then skip_digits s' else s
  | EmptyString => s
  end.

(** [S(\d+)E(\d+)] at the start of [s], case-insensitive. *)
Definition starts_SE (s : string) : bool :=
  match s with
  | String c (String d r) =>
      is_letter "s" c && is_digit d &&
      match skip_digits r with
      | String e (String d2 _) => is_letter "e" e && is_digit d2
      | _ => false
      end
  | _ => false
  end.

(** [(\d+)x(\d+)] around the start of [s]: one digit, the x, one digit. *)
Definition starts_NxN (s : string) : bool :=
  match s with
  | String d (String x (String d2 _)) => is_digit d && is_letter "x" x && is_digit d2
  | _ => false
  end.

(** [fileName.match(/S(\d+)E(\d+)|(\d+)x(\d+)/i)] as a truth value. *)
Fixpoint episodeMatch (s : string) : bool :=
  starts_SE s || starts_NxN s ||
  match s with
  | String _ s' => episodeMatch s'
  | EmptyString => false
  end.

Section WithRuntime.
Context {R : runtime}.

(** [isMediaFile] *)
Definition isMediaFile (filename : string) : bool :=
  includes mediaExtensions (toLowerCase (path_extname filename)).

(** [extractMediaInfo]: title, episode name, media type. *)
Definition extractMediaInfo (filePath : string) : string * option string * string :=
  let fileName := path_basename_ext filePath (path_extname filePath) in
  let dirName := path_basename (path_dirname filePath) in
  if episodeMatch fileName then (dirName, Some fileName, "tv")
  else (fileName, None, "movie").

(** [processMediaFile]: [null] when the file has no video stream, else the
    media id and whether it needs encoding.  The catch block logs and
    rethrows.  A video stream without [codec_name] makes [addMedia] throw
    on [encoding_type.toLowerCase()] before it writes. *)
Definition processMediaFile (now : Z) (filePath : string) (fileSize : Z)
    (probe : res (list stream)) (d : db) : res (option (Z * bool)) * db :=
  match probe with
  | Throw e => (Throw e, d)
  | Ret streams =>
      match List.find (fun s => bool_decide (codec_type s = "video")) streams with
      | None => (Ret None, d)
      | Some videoStream =>
          let '(title, episodeName, mediaType) := extractMediaInfo filePath in
          match codec_name videoStream with
          | None =>
              (Throw (TypeError "Cannot read properties of undefined (reading 'toLowerCase')"), d)
          | Some codec =>
              let mediaInfo :=
                {| mi_title := title;
                   mi_episode_name := episodeName;
                   mi_directory := path_dirname filePath;
                   mi_file_path := filePath;
                   mi_file_size_bytes := fileSize;
                   mi_encoding_type := codec;
                   mi_media_type := mediaType |} in
              let '(mediaId, d') := addMedia now mediaInfo d in
              (Ret (Some (mediaId, needsEncoding_of codec)), d')
          end
      end
  end.

Definition count_scanned (r : results) : results :=
  mkResults (scanned r + 1) (added r) (errors r) (needsEncoding r).

Definition count_error (r : results) : results :=
  mkResults (scanned r) (added r) (errors r + 1) (needsEncoding r).

Definition count_added (needs : bool) (r : results) : results :=
  mkResults (scanned r) (added r + 1) (errors r)
            (if needs then needsEncoding r + 1 else needsEncoding r).

(** [scanDirectory]: [scan_entries] is the body of the [for] loop, inside the
    function's [try]; [scanDirectory] adds its [catch], which counts one
    error and returns.  [fs.stat] is awaited in the loop body outside the
    inner [try], so its failure leaves the loop. *)
Fixpoint scanDirectory (dirPath : string) (l : listing) (st : results * db)
    {struct l} : results * db :=
  match l with
  | ReaddirFails _ => (count_error (fst st), snd st)
  | Entries es =>
      match scan_entries dirPath es st with
      | (Ret _, st') => st'
      | (Throw _, st') => (count_error (fst st'), snd st')
      end
  end
with scan_entries (dirPath : string) (es : entries) (st : results * db)
    {struct es} : res unit * (results * db) :=
  match es with
  | ENil => (Ret tt, st)
  | ECons file n rest =>
      let fullPath := path_join dirPath file in
      match n with
      | StatFails e => (Throw e, st)
      | Directory sub => scan_entries dirPath rest (scanDirectory fullPath sub st)
      | File size probe now =>
          if isMediaFile file then
            let r := count_scanned (fst st) in
            match processMediaFile now fullPath size probe (snd st) with
            | (Ret (Some (_, needs)), d') =>
                scan_entries dirPath rest (count_added needs r, d')
            | (Ret None, d') => scan_entries dirPath rest (r, d')
            | (Throw _, d') => scan_entries dirPath rest (count_error r, d')
            end
          else scan_entries dirPath rest st
      end
  end.

(** [queueEncodingJobs]: one job per media row that needs encoding, largest
    first, at most 100; nothing else is looked at. *)
Fixpoint create_jobs (now : Z) (mediaToEncode : list media) (d : db) : res unit * db :=
  match mediaToEncode with
  | [] => (Ret tt, d)
  | media :: rest =>
      let priority := file_size_bytes media / (1024 * 1024 * 100) in
      match createEncodingJob now (m_id media) priority d with
      | (Ret _, d') => create_jobs now rest d'
      | (Throw e, d') => (Throw e, d')
      end
  end.

Definition queueEncodingJobs (now : Z) (d : db) : res Z * db :=
  let mediaToEncode := getMediaNeedingEncoding 100 0 d in
  match create_jobs now mediaToEncode d with
  | (Ret _, d') => (Ret (Z.of_nat (length mediaToEncode)), d')
  | (Throw e, d') => (Throw e, d')
  end.

Definition no_results : results := mkResults 0 0 0 0.

(** [scanLibrary]: the walk, then admission at time [now]. *)
Definition scanLibrary (now : Z) (libraryPath : string) (root : listing) (d : db)
    : res results * db :=
  let '(results, d1) := scanDirectory libraryPath root (no_results, d) in
  match queueEncodingJobs now d1 with
  | (Ret _, d2) => (Ret results, d2)
  | (Throw e, d2) => (Throw e, d2)
  end.

(** The watcher's [add] and [change] handlers, given the outcome of
    [fs.stat] and of ffprobe; their catch blocks swallow every error. *)
Definition watch_add (now : Z) (filePath : string) (stat : res Z)
    (probe : res (list stream)) (d : db) : db :=
  if isMediaFile filePath then
    match stat with
    | Throw _ => d
    | Ret size =>
        match processMediaFile now filePath size probe d with
        | (Ret _, d1) => snd (queueEncodingJobs now d1)
        | (Throw _, d1) => d1
        end
    end
  else d.

Definition watch_change (now : Z) (filePath : string) (stat : res Z)
    (probe : res (list stream)) (d : db) : db :=
  if isMediaFile filePath then
    match stat with
    | Throw _ => d
    | Ret size => snd (processMediaFile now filePath size probe d)
    end
  else d.

End WithRuntime.
End Scanner.

(** ** The dispatch engine: encoder.js *)

Module Encoder.
Import JS Database.
Local Open Scope Z_scope.

(** The bytes of a file. *)
Definition content : Type := list Byte.byte.

(** A suspended continuation of the engine: the function it belongs to, the
    [await] (or the process whose events it listens to) it waits on, and the
    variables it closes over.  [job] is the row [processEncodingQueue]
    fetched, not the row as it is now. *)
Inductive task :=
| AwaitEnsureTempDir (job : job_view)
    (* startEncodingJob: await fs.ensureDir(tempDir) *)
| AwaitGpuInfo (job : job_view) (tempFilePath : string)
    (* startEncodingJob: await getGpuInfo() *)
| Encoding (job : job_view) (inputPath outputPath : string)
    (* startFFmpegEncoding: the listeners on the ffmpeg process *)
| AwaitTempStat (job : job_view) (inputPath outputPath : string)
    (* close listener: await fs.stat(outputPath) *)
| AwaitEnsureOriginalDir (job : job_view) (originalPath tempPath : string) (jobId : Z)
    (* replaceOriginalFile: await fs.ensureDir(path.dirname(originalPath)) *)
| AwaitReplaceStat (job : job_view) (originalPath tempPath : string) (jobId : Z)
    (* replaceOriginalFile: await fs.stat(tempPath) *)
| AwaitReplaceProbe (job : job_view) (originalPath tempPath : string) (jobId : Z)
    (size : Z)
    (* replaceOriginalFile: await ffprobeAsync(tempPath) *)
| AwaitMove (job : job_view) (originalPath tempPath : string) (jobId : Z)
    (size : Z) (newEncodingType : option string).
    (* replaceOriginalFile: await fs.move(tempPath, originalPath, overwrite) *)

(** What a rejected [fs.move(tempPath, originalPath, { overwrite: true })]
    has done to its destination.  fs-extra checks the two paths, removes the
    destination, then renames; when the rename crosses devices it copies the
    source to the destination and removes the source afterwards.  A move can
    therefore reject with nothing touched, with the destination removed, or
    with a copy at the destination, whole or in part; the source is there
    as long as the move has not resolved. *)
Inductive destination :=
| Untouched
| Removed
| Copied (bytes : content).

(** How [fs.move] settles: resolved, with the bytes now at the destination,
    or rejected. *)
Inductive move_result :=
| Resolved (bytes : content)
| Rejected (e : error) (dest : destination).

(** What resumes a task. *)
Inductive outcome :=
| Settled (r : res unit)              (* fs.ensureDir *)
| Spawn (r : res unit)                (* getGpuInfo resolved; spawn('ffmpeg') returns or throws *)
| ProcessError (e : error)            (* the process emits error *)
| ProcessClose (code : option Z) (stderrData : string)   (* the process emits close *)
| Stat (r : res Z)                    (* fs.stat: the size *)
| Probe (r : res (list (string * option string)))
                                      (* ffprobe: codec_type and codec_name of each stream *)
| Moved (r : move_result).            (* fs.move *)

(** The module's variables, the job store, the bytes of the files as far as
    the process itself writes them, the wall clock read by CURRENT_TIMESTAMP,
    the suspended continuations, and the errors that left a handler uncaught.
    What ffmpeg writes to its scratch path is not recorded in [files]: it
    arrives as the outcome of [fs.stat] and [fs.move].  (ffmpeg is spawned
    without [-y] and overwrites no file that exists.) *)
Record state := mkState {
  store : db;
  files : gmap string content;
  clock : Z;
  maxParallelJobs : Z;
  activeJobs : Z;
  isQueuePaused : bool;
  activeJobsMap : gmap Z (list string);
  tasks : list task;
  uncaught : list error
}.

(** The state when the module is loaded. *)
Definition initial (d : db) (fs : gmap string content) (now : Z) : state :=
  mkState d fs now 2 0 false ∅ [] [].

Definition set_store (d : db) (s : state) : state :=
  mkState d (files s) (clock s) (maxParallelJobs s) (activeJobs s) (isQueuePaused s)
          (activeJobsMap s) (tasks s) (uncaught s).
Definition set_files (f : gmap string content) (s : state) : state :=
  mkState (store s) f (clock s) (maxParallelJobs s) (activeJobs s) (isQueuePaused s)
          (activeJobsMap s) (tasks s) (uncaught s).
Definition set_clock (now : Z) (s : state) : state :=
  mkState (store s) (files s) now (maxParallelJobs s) (activeJobs s) (isQueuePaused s)
          (activeJobsMap s) (tasks s) (uncaught s).
Definition set_maxParallelJobs (n : Z) (s : state) : state :=
  mkState (store s) (files s) (clock s) n (activeJobs s) (isQueuePaused s)
          (activeJobsMap s) (tasks s) (uncaught s).
Definition set_activeJobs (n : Z) (s : state) : state :=
  mkState (store s) (files s) (clock s) (maxParallelJobs s) n (isQueuePaused s)
          (activeJobsMap s) (tasks s) (uncaught s).
Definition set_isQueuePaused (b : bool) (s : state) : state :=
  mkState (store s) (files s) (clock s) (maxParallelJobs s) (activeJobs s) b
          (activeJobsMap s) (tasks s) (uncaught s).
Definition set_activeJobsMap (m : gmap Z (list string)) (s : state) : state :=
  mkState (store s) (files s) (clock s) (maxParallelJobs s) (activeJobs s) (isQueuePaused s)
          m (tasks s) (uncaught s).
Definition set_tasks (t : list task) (s : state) : state :=
  mkState (store s) (files s) (clock s) (maxParallelJobs s) (activeJobs s) (isQueuePaused s)
          (activeJobsMap s) t (uncaught s).
Definition set_uncaught (u : list error) (s : state) : state :=
  mkState (store s) (files s) (clock s) (maxParallelJobs s) (activeJobs s) (isQueuePaused s)
          (activeJobsMap s) (tasks s) u.

(** *** Code that reads and writes the state and may throw *)

Definition M (A : Type) : Type := state -> res A * state.

Definition ret {A} (a : A) : M A := fun s => (Ret a, s).
Definition throw {A} (e : error) : M A := fun s => (Throw e, s).
Definition bind {A B} (m : M A) (k : A -> M B) : M B :=
  fun s => match m s with
           | (Ret a, s') => k a s'
           | (Throw e, s') => (Throw e, s')
           end.
(** [try { body } catch (error) { handler }] *)
Definition try_catch {A} (body : M A) (handler : error -> M A) : M A :=
  fun s => match body s with
           | (Throw e, s') => handler e s'
           | r => r
           end.
(** A call whose error nobody catches: an async function called without
    [await], or a listener run by the event loop. *)
Definition detached {A} (m : M A) : M unit :=
  fun s => match m s with
           | (Ret _, s') => (Ret tt, s')
           | (Throw e, s') => (Ret tt, set_uncaught (uncaught s' ++ [e]) s')
           end.
Definition modify (f : state -> state) : M unit := fun s => (Ret tt, f s).
Definition gets {A} (f : state -> A) : M A := fun s => (Ret (f s), s).

Declare Scope js_scope.
Delimit Scope js_scope with js.
Bind Scope js_scope with M.
Notation "x <- m ;; k" := (bind m (fun x => k))
  (at level 100, m at next level, k at level 200, right associativity) : js_scope.
Notation "m ;; k" := (bind m (fun _ => k))
  (at level 100, k at level 200, right associativity) : js_scope.
Local Open Scope js_scope.

Fixpoint for_each {A} (l : list A) (body : A -> M unit) : M unit :=
  match l with
  | [] => ret tt
  | x :: l' => body x ;; for_each l' body
  end.

Definition updateStatus (jobId : Z) (st : job_status) (data : list field) : M unit :=
  fun s => let '(r, d) := updateJobStatus (clock s) jobId st data (store s) in
           (r, set_store d s).
Definition incr_activeJobs : M unit := modify (fun s => set_activeJobs (activeJobs s + 1) s).
Definition decr_activeJobs : M unit := modify (fun s => set_activeJobs (activeJobs s - 1) s).
Definition map_set (jobId : Z) (p : list string) : M unit :=
  modify (fun s => set_activeJobsMap (<[jobId := p]> (activeJobsMap s)) s).
Definition map_delete (jobId : Z) : M unit :=
  modify (fun s => set_activeJobsMap (delete jobId (activeJobsMap s)) s).
Definition suspend (t : task) : M unit := modify (fun s => set_tasks (tasks s ++ [t]) s).

(** [error.message || 'Unknown error'] *)
Definition or_unknown (msg : string) : string :=
  if bool_decide (msg = "") then "Unknown error" else msg.

(** The argument list [startFFmpegEncoding] builds; it stands for the spawned
    process in [activeJobsMap]. *)
Definition ffmpegArgs (inputPath outputPath : string) (useHardwareAcceleration : bool)
    : list string :=
  let args :=
    ["-i"; inputPath;
     "-c:v"; if useHardwareAcceleration then "hevc_qsv" else "libx265";
     "-preset"; if useHardwareAcceleration then "veryfast" else "medium";
     "-crf"; "28"; "-pix_fmt"; "p010le"; "-tag:v"; "hvc1";
     "-c:a"; "copy"; "-c:s"; "copy"; outputPath] in
  if useHardwareAcceleration
  then ["-hwaccel"; "qsv"; "-hwaccel_device"; "0"] ++ args
       ++ ["-load_plugin"; "hevc_hw"; "-profile:v"; "main10"]
  else args.

Section WithRuntime.
Context {R : runtime}.

(** *** startEncodingJob *)

Definition startEncodingJob_catch (job : job_view) (error : error) : M unit :=
  updateStatus (j_id (v_job job)) failed
    [F_error_message (Some (or_unknown (message error)))] ;;
  decr_activeJobs.

(** Up to [await fs.ensureDir(tempDir)]. *)
Definition startEncodingJob (job : job_view) : M unit :=
  try_catch
    (incr_activeJobs ;;
     updateStatus (j_id (v_job job)) processing [] ;;
     suspend (AwaitEnsureTempDir job))
    (startEncodingJob_catch job).

Definition tempFilePath_of (file_path : string) : string :=
  let tempDir := path_join os_tmpdir "plex-encoder" in
  let inputExt := path_extname file_path in
  let tempFileName := path_basename_ext file_path inputExt +:+ "_hevc_temp" +:+ inputExt in
  path_join tempDir tempFileName.

(** From there to [await getGpuInfo()]. *)
Definition startEncodingJob_1 (job : job_view) (ensured : res unit) : M unit :=
  try_catch
    (match ensured with
     | Throw e => throw e
     | Ret _ =>
         let tempFilePath := tempFilePath_of (v_file_path job) in
         updateStatus (j_id (v_job job)) processing [F_temp_file_path tempFilePath] ;;
         suspend (AwaitGpuInfo job tempFilePath)
     end)
    (startEncodingJob_catch job).

(** [getGpuInfo().hasIntelArc] *)
Definition hasIntelArc : bool := platform_win32.

(** [startFFmpegEncoding]: the promise executor.  It registers the listeners
    on the spawned process; when [spawn] throws, its catch block frees the
    slot and rejects the promise, which nobody observes. *)
Definition startFFmpegEncoding (inputPath outputPath : string) (job : job_view)
    (spawned : res unit) : M unit :=
  match spawned with
  | Ret _ => suspend (Encoding job inputPath outputPath)
  | Throw _ => decr_activeJobs ;; map_delete (j_id (v_job job))
  end.

(** From [getGpuInfo] to the end of [startEncodingJob]. *)
Definition startEncodingJob_2 (job : job_view) (tempFilePath : string)
    (spawned : res unit) : M unit :=
  try_catch
    (startFFmpegEncoding (v_file_path job) tempFilePath job spawned ;;
     map_set (j_id (v_job job)) (ffmpegArgs (v_file_path job) tempFilePath hasIntelArc))
    (startEncodingJob_catch job).

(** *** The listeners of startFFmpegEncoding *)

(** [ffmpegProcess.on('error', ...)]; the listeners stay registered. *)
Definition on_error (job : job_view) (inputPath outputPath : string) (error : error)
    : M unit :=
  suspend (Encoding job inputPath outputPath) ;;
  updateStatus (j_id (v_job job)) failed
    [F_error_message (Some ("Process error: " +:+ message error))] ;;
  decr_activeJobs ;;
  map_delete (j_id (v_job job)).

(** The catch block of the close listener. *)
Definition close_catch (job : job_view) (error : error) : M unit :=
  updateStatus (j_id (v_job job)) failed
    [F_error_message (Some ("Error finalizing: " +:+ message error))] ;;
  decr_activeJobs ;;
  map_delete (j_id (v_job job)).

(** [ffmpegProcess.on('close', ...)], up to [await fs.stat(outputPath)]. *)
Definition on_close (job : job_view) (inputPath outputPath : string)
    (code : option Z) (stderrData : string) : M unit :=
  if bool_decide (code = Some 0) then
    try_catch (suspend (AwaitTempStat job inputPath outputPath)) (close_catch job)
  else
    let errorMsg := message (EncodingFailed code stderrData) in
    updateStatus (j_id (v_job job)) failed [F_error_message (Some errorMsg)] ;;
    decr_activeJobs ;;
    map_delete (j_id (v_job job)).

(** *** replaceOriginalFile *)

Definition replace_catch (jobId : Z) (error : error) : M bool :=
  updateStatus jobId failed
    [F_error_message (Some ("Error replacing original file: " +:+ message error))] ;;
  decr_activeJobs ;;
  map_delete jobId ;;
  throw error.

(** The two enclosing [try] blocks of every part of [replaceOriginalFile]:
    its own, and the close listener's around the awaited call. *)
Definition in_replace (job : job_view) (jobId : Z) (body : M bool) : M unit :=
  try_catch (try_catch body (replace_catch jobId) ;; ret tt) (close_catch job).

(** Up to [await fs.ensureDir(path.dirname(originalPath))]. *)
Definition replaceOriginalFile (job : job_view) (originalPath tempPath : string)
    (jobId : Z) : M unit :=
  in_replace job jobId
    (suspend (AwaitEnsureOriginalDir job originalPath tempPath jobId) ;; ret true).

(** The close listener from [fs.stat] to the call of [replaceOriginalFile]. *)
Definition on_close_1 (job : job_view) (inputPath outputPath : string)
    (stat : res Z) : M unit :=
  try_catch
    (match stat with
     | Throw e => throw e
     | Ret newSizeBytes =>
         let sourceFileSize := original_size_bytes (v_job job) in
         updateStatus (j_id (v_job job)) replacing_file
           [F_new_size_bytes newSizeBytes;
            F_size_reduction_percent (mkPercent sourceFileSize newSizeBytes)] ;;
         replaceOriginalFile job inputPath outputPath (j_id (v_job job))
     end)
    (close_catch job).

(** To [await fs.stat(tempPath)]. *)
Definition replaceOriginalFile_1 (job : job_view) (originalPath tempPath : string)
    (jobId : Z) (ensured : res unit) : M unit :=
  in_replace job jobId
    (match ensured with
     | Throw e => throw e
     | Ret _ => suspend (AwaitReplaceStat job originalPath tempPath jobId) ;; ret true
     end).

(** To [await ffprobeAsync(tempPath)]. *)
Definition replaceOriginalFile_2 (job : job_view) (originalPath tempPath : string)
    (jobId : Z) (tempStat : res Z) : M unit :=
  in_replace job jobId
    (match tempStat with
     | Throw e => throw e
     | Ret size =>
         if size =? 0 then throw EncodedFileEmpty
         else suspend (AwaitReplaceProbe job originalPath tempPath jobId size) ;; ret true
     end).

(** [videoStream ? videoStream.codec_name : 'unknown'] *)
Definition newEncodingType_of (streams : list (string * option string)) : option string :=
  match List.find (fun s => bool_decide (fst s = "video")) streams with
  | Some videoStream => snd videoStream
  | None => Some "unknown"
  end.

(** To [await fs.move(tempPath, originalPath, { overwrite: true })]. *)
Definition replaceOriginalFile_3 (job : job_view) (originalPath tempPath : string)
    (jobId : Z) (size : Z) (metadata : res (list (string * option string))) : M unit :=
  in_replace job jobId
    (match metadata with
     | Throw e => throw e
     | Ret streams =>
         suspend (AwaitMove job originalPath tempPath jobId size (newEncodingType_of streams)) ;;
         ret true
     end).

(** The statements after the move, up to [return true].  A job that is no
    longer in the store makes [job.media_id] throw; an undefined codec name
    cannot be bound. *)
Definition after_move (jobId : Z) (size : Z) (newEncodingType : option string) : M bool :=
  row <- gets (fun s => getJobById jobId (store s)) ;;
  match row with
  | None => throw (TypeError "Cannot read properties of undefined (reading 'media_id')")
  | Some job =>
      match newEncodingType with
      | None =>
          throw (TypeError "SQLite3 can only bind numbers, strings, bigints, buffers, and null")
      | Some codec =>
          modify (fun s => set_store
            (markMediaAsEncoded (clock s) (media_id (v_job job)) codec size (store s)) s) ;;
          updateStatus jobId completed [] ;;
          decr_activeJobs ;;
          map_delete jobId ;;
          ret true
      end
  end.

(** The files once a rejected move has left its destination [path] as
    [dest] says. *)
Definition left_at (dest : destination) (path : string) (fs : gmap string content)
    : gmap string content :=
  match dest with
  | Untouched => fs
  | Removed => delete path fs
  | Copied bytes => <[path := bytes]> fs
  end.

(** The rest, once [fs.move] has settled: after a move that resolved the
    destination holds the encoded bytes and the scratch file is gone; after
    a move that rejected the destination is as the move has left it, and the
    error goes to the catch block. *)
Definition replaceOriginalFile_4 (job : job_view) (originalPath tempPath : string)
    (jobId : Z) (size : Z) (newEncodingType : option string) (moved : move_result)
    : M unit :=
  in_replace job jobId
    (match moved with
     | Rejected e dest =>
         modify (fun s => set_files (left_at dest originalPath (files s)) s) ;;
         throw e
     | Resolved bytes =>
         modify (fun s => set_files (<[originalPath := bytes]> (delete tempPath (files s))) s) ;;
         after_move jobId size newEncodingType
     end).

(** *** The polling pass and the control surface *)

(** [processEncodingQueue], one pass; the timers that schedule the next one
    are outside the state.  The jobs it starts are returned for the
    statements about a pass (the function itself returns nothing). *)
Definition processEncodingQueue : M (list job_view) :=
  try_catch
    (paused <- gets isQueuePaused ;;
     if paused then ret []
     else
       availableSlots <- gets (fun s => maxParallelJobs s - activeJobs s) ;;
       if availableSlots <=? 0 then ret []
       else
         queuedJobs <- gets (fun s => getJobsByStatus queued availableSlots (store s)) ;;
         match queuedJobs with
         | [] => ret []
         | _ =>
             for_each queuedJobs (fun job => detached (startEncodingJob job)) ;;
             ret queuedJobs
         end)
    (fun _ => ret []).

(** [restartJob]; its catch block logs and rethrows. *)
Definition restartJob (jobId : Z) : M bool :=
  row <- gets (fun s => getJobById jobId (store s)) ;;
  match row with
  | None => throw (JobNotFound jobId)
  | Some job =>
      if bool_decide (status (v_job job) = failed) then
        updateStatus jobId queued
          [F_retries (retries (v_job job) + 1); F_error_message None] ;;
        ret true
      else throw (JobNotFailed jobId)
  end.

Definition pauseQueue : M unit := modify (set_isQueuePaused true).

Definition resumeQueue : M unit :=
  modify (set_isQueuePaused false) ;;
  processEncodingQueue ;;
  ret tt.

Definition setMaxParallelJobs (count : Z) : M Z :=
  modify (set_maxParallelJobs (Z.max 1 count)) ;;
  gets maxParallelJobs.

(** [getEncodingQueue] *)
Record queue_info := mkQueueInfo {
  q_processing : list job_view;
  q_queued : list job_view;
  q_completed : list job_view;
  q_failed : list job_view;
  q_paused : bool;
  q_maxParallelJobs : Z
}.

Definition getEncodingQueue (s : state) : queue_info :=
  mkQueueInfo (getJobsByStatus processing 20 (store s))
              (getJobsByStatus queued 20 (store s))
              (getJobsByStatus completed 10 (store s))
              (getJobsByStatus failed 20 (store s))
              (isQueuePaused s) (maxParallelJobs s).

(** *** Resuming a task *)

Definition continuation (t : task) (o : outcome) : option (M unit) :=
  match t, o with
  | AwaitEnsureTempDir job, Settled r => Some (startEncodingJob_1 job r)
  | AwaitGpuInfo job tempFilePath, Spawn r => Some (startEncodingJob_2 job tempFilePath r)
  | Encoding job i o, ProcessError e => Some (on_error job i o e)
  | Encoding job i o, ProcessClose code stderrData => Some (on_close job i o code stderrData)
  | AwaitTempStat job i o, Stat r => Some (on_close_1 job i o r)
  | AwaitEnsureOriginalDir job p t j, Settled r => Some (replaceOriginalFile_1 job p t j r)
  | AwaitReplaceStat job p t j, Stat r => Some (replaceOriginalFile_2 job p t j r)
  | AwaitReplaceProbe job p t j size, Probe r => Some (replaceOriginalFile_3 job p t j size r)
  | AwaitMove job p t j size codec, Moved r => Some (replaceOriginalFile_4 job p t j size codec r)
  | _, _ => None
  end.

(** Task number [i] resumes with [o]: it leaves the list and its
    continuation runs; an outcome that is not the one the task waits for
    resumes nothing. *)
Definition resume (i : nat) (o : outcome) (s : state) : state :=
  match tasks s !! i with
  | None => s
  | Some t =>
      match continuation t o with
      | None => s
      | Some k => snd (detached k (set_tasks (delete i (tasks s)) s))
      end
  end.

End WithRuntime.
End Encoder.

(** ** The window scheduler: scheduler.js *)

Module Scheduler.
Import JS Database Encoder.
Local Open Scope Z_scope.
Local Open Scope js_scope.

(** A row of [schedule]. *)
Record scheduleItem := mkScheduleItem {
  s_id : Z;
  days_of_week : string;
  start_time : string;
  end_time : string;
  max_parallel_jobs : Z;
  active : bool
}.

(** What [new Date()] answers: [getDay()], [getHours()], [getMinutes()]. *)
Record date := mkDate { getDay : Z; getHours : nat; getMinutes : nat }.

(** The zero-padded [HH:MM] of [now]. *)
Definition currentTime (now : date) : string :=
  padStart2 (toString (getHours now)) +:+ ":" +:+ padStart2 (toString (getMinutes now)).

Section WithRuntime.
Context {R : runtime}.

(** [days_of_week.split(',').map(Number)] *)
Definition daysArray (item : scheduleItem) : list (option Z) :=
  List.map Number (split_comma (days_of_week item)).

(** [daysArray.includes(day)] *)
Definition includes_day (days : list (option Z)) (day : Z) : bool :=
  existsb (fun d => bool_decide (d = Some day)) days.

(** [currentTime >= start_time && currentTime <= end_time] *)
Definition in_window (item : scheduleItem) (now : date) : bool :=
  str_ge (currentTime now) (start_time item) && str_le (currentTime now) (end_time item).

(** [checkIfScheduleShouldBeActive] *)
Definition checkIfScheduleShouldBeActive (item : scheduleItem) (now : date) : M unit :=
  if includes_day (daysArray item) (getDay now) then
    if in_window item now then
      resumeQueue ;;
      setMaxParallelJobs (max_parallel_jobs item) ;;
      ret tt
    else pauseQueue
  else pauseQueue.

(** The two recurring jobs [setUpSchedule] registers, at the start and at
    the end of the window. *)
Definition startJob (item : scheduleItem) : M unit :=
  resumeQueue ;;
  setMaxParallelJobs (max_parallel_jobs item) ;;
  ret tt.

Definition endJob (item : scheduleItem) : M unit := pauseQueue.

End WithRuntime.
(** *** The schedule table and the recurring jobs *)

(** [time.split(':')] *)
Fixpoint split_colon_aux (cur : string) (s : string) : list string :=
  match s with
  | EmptyString => [cur]
  | String c s' =>
      if bool_decide (c = ":"%char) then cur :: split_colon_aux "" s'
      else split_colon_aux (cur +:+ String c EmptyString) s'
  end.

Definition split_colon (s : string) : list string := split_colon_aux "" s.

(** A [schedule.RecurrenceRule] with [dayOfWeek], [hour] and [minute] set.
    The numbers are what [Number] makes of the pieces of the strings; a
    piece that is not there leaves [undefined], the outer [None]. *)
Record RecurrenceRule := mkRule {
  dayOfWeek : list (option Z);
  hour : option (option Z);
  minute : option (option Z)
}.

(** The functions [setUpSchedule] passes to [schedule.scheduleJob]: they
    close over the row that was set up. *)
Inductive callback :=
| AtStart (item : scheduleItem)
| AtEnd (item : scheduleItem).

(** A job of node-schedule: its rule and its function. *)
Record scheduledJob := mkScheduledJob { rule : RecurrenceRule; callback_of : callback }.

(** What node-schedule decides: whether [schedule.scheduleJob] returns a job
    for a rule, or [null] because it cannot schedule it. *)
Class node_schedule := { schedulable : RecurrenceRule -> bool }.

(** The argument of [setSchedule].  The fields are taken to have the types
    of the columns: strings, a number, and for [active] the number 0 or 1 as
    a truth value; [id] may be missing. *)
Record scheduleData := mkScheduleData {
  sd_id : option Z;
  sd_days_of_week : string;
  sd_start_time : string;
  sd_end_time : string;
  sd_max_parallel_jobs : Z;
  sd_active : bool
}.

(** The [schedule] table with its sequence, the module's [scheduleJobs]
    object (each entry the two jobs, or [null] where [scheduleJob] returned
    it), and the jobs node-schedule holds: those scheduled and not
    cancelled. *)
Record scheduler := mkScheduler {
  tbl_schedule : list scheduleItem;
  seq_schedule : Z;
  scheduleJobs : gmap Z (option nat * option nat);
  pending : gmap nat scheduledJob;
  next_job : nat
}.

(** The engine and the scheduler together. *)
Record world := mkWorld { engine : state; sched : scheduler }.

Definition set_engine (s : state) (w : world) : world := mkWorld s (sched w).
Definition set_sched (c : scheduler) (w : world) : world := mkWorld (engine w) c.
Definition set_tbl_schedule (t : list scheduleItem) (c : scheduler) : scheduler :=
  mkScheduler t (seq_schedule c) (scheduleJobs c) (pending c) (next_job c).
Definition set_scheduleJobs (m : gmap Z (option nat * option nat)) (c : scheduler)
    : scheduler :=
  mkScheduler (tbl_schedule c) (seq_schedule c) m (pending c) (next_job c).
Definition set_pending (p : gmap nat scheduledJob) (c : scheduler) : scheduler :=
  mkScheduler (tbl_schedule c) (seq_schedule c) (scheduleJobs c) p (next_job c).

(** Code of the scheduler: it reads and writes the world and may throw. *)
Definition W (A : Type) : Type := world -> res A * world.

Definition wret {A} (a : A) : W A := fun w => (Ret a, w).
Definition wthrow {A} (e : error) : W A := fun w => (Throw e, w).
Definition wbind {A B} (m : W A) (k : A -> W B) : W B :=
  fun w => match m w with
           | (Ret a, w') => k a w'
           | (Throw e, w') => (Throw e, w')
           end.
Definition wgets {A} (f : scheduler -> A) : W A := fun w => (Ret (f (sched w)), w).
Definition wmodify (f : scheduler -> scheduler) : W unit :=
  fun w => (Ret tt, set_sched (f (sched w)) w).
(** A call into the engine. *)
Definition lift {A} (m : M A) : W A :=
  fun w => let '(r, s) := m (engine w) in (r, set_engine s w).

Declare Scope sched_scope.
Delimit Scope sched_scope with sched.
Bind Scope sched_scope with W.
Notation "x <- m ;; k" := (wbind m (fun x => k))
  (at level 100, m at next level, k at level 200, right associativity) : sched_scope.
Notation "m ;; k" := (wbind m (fun _ => k))
  (at level 100, k at level 200, right associativity) : sched_scope.
Local Open Scope sched_scope.

Fixpoint wfor_each {A} (l : list A) (body : A -> W unit) : W unit :=
  match l with
  | [] => wret tt
  | x :: l' => body x ;; wfor_each l' body
  end.

(** [createScheduleTable] of database.js: the default rule is inserted when
    the table is empty. *)
Definition createScheduleTable (c : scheduler) : scheduler :=
  if bool_decide (length (tbl_schedule c) = 0%nat) then
    mkScheduler
      (tbl_schedule c
       ++ [mkScheduleItem (seq_schedule c + 1) "0,1,2,3,4,5,6" "00:00" "23:59" 2 true])
      (seq_schedule c + 1) (scheduleJobs c) (pending c) (next_job c)
  else c.

(** [SELECT * FROM schedule WHERE id = ?] *)
Definition find_schedule (id : Z) (c : scheduler) : option scheduleItem :=
  List.find (fun item => bool_decide (s_id item = id)) (tbl_schedule c).

Section Registry.
Context {R : runtime} {NS : node_schedule}.

(** [job.cancel()]; on [null] the call throws. *)
Definition cancel (job : option nat) : W unit :=
  match job with
  | None => wthrow (TypeError "Cannot read properties of null (reading 'cancel')")
  | Some n => wmodify (fun c => set_pending (delete n (pending c)) c)
  end.

(** [if (scheduleJobs[id]) { start.cancel(); end.cancel(); delete
    scheduleJobs[id]; }] *)
Definition cancelJobs (id : Z) : W unit :=
  entry <- wgets (fun c => scheduleJobs c !! id) ;;
  match entry with
  | Some (start, end_) =>
      cancel start ;;
      cancel end_ ;;
      wmodify (fun c => set_scheduleJobs (delete id (scheduleJobs c)) c)
  | None => wret tt
  end.

(** [schedule.scheduleJob(rule, fn)] *)
Definition scheduleJob (r : RecurrenceRule) (fn : callback) : W (option nat) :=
  if schedulable r then
    n <- wgets next_job ;;
    wmodify (fun c => mkScheduler (tbl_schedule c) (seq_schedule c) (scheduleJobs c)
                        (<[n := mkScheduledJob r fn]> (pending c)) (S n)) ;;
    wret (Some n)
  else wret None.

(** [const [hour, minute] = time.split(':').map(Number)] *)
Definition time_pieces (time : string) : option (option Z) * option (option Z) :=
  let pieces := List.map Number (split_colon time) in
  (pieces !! 0%nat, pieces !! 1%nat).

Definition startRule (item : scheduleItem) : RecurrenceRule :=
  let '(startHour, startMinute) := time_pieces (start_time item) in
  mkRule (daysArray item) startHour startMinute.

Definition endRule (item : scheduleItem) : RecurrenceRule :=
  let '(endHour, endMinute) := time_pieces (end_time item) in
  mkRule (daysArray item) endHour endMinute.

(** [setUpSchedule].  Its catch block logs and rethrows; for a row that is
    [undefined] the catch block itself throws on [scheduleItem.id]. *)
Definition setUpSchedule (scheduleItem : option scheduleItem) (now : date) : W bool :=
  match scheduleItem with
  | None => wthrow (TypeError "Cannot read properties of undefined (reading 'id')")
  | Some item =>
      cancelJobs (s_id item) ;;
      jobStart <- scheduleJob (startRule item) (AtStart item) ;;
      jobEnd <- scheduleJob (endRule item) (AtEnd item) ;;
      wmodify (fun c => set_scheduleJobs (<[s_id item := (jobStart, jobEnd)]> (scheduleJobs c)) c) ;;
      lift (checkIfScheduleShouldBeActive item now) ;;
      wret true
  end.

(** [loadSchedules]: the rows with [active = 1], each set up in turn. *)
Definition loadSchedules (now : date) : W (list scheduleItem) :=
  schedules <- wgets (fun c => List.filter active (tbl_schedule c)) ;;
  wfor_each schedules (fun item => setUpSchedule (Some item) now ;; wret tt) ;;
  wret schedules.

(** [initializeScheduler] *)
Definition initializeScheduler (now : date) : W bool :=
  loadSchedules now ;;
  wret true.

(** [getSchedules] *)
Definition getSchedules : W (list scheduleItem) := wgets tbl_schedule.

(** [createSchedule]: [max_parallel_jobs || 2], and [active] is 1. *)
Definition createSchedule (scheduleData : scheduleData) (now : date)
    : W (option scheduleItem) :=
  id <- wgets (fun c => (seq_schedule c + 1)%Z) ;;
  let max_parallel_jobs :=
    if bool_decide (sd_max_parallel_jobs scheduleData = 0%Z) then 2%Z
    else sd_max_parallel_jobs scheduleData in
  wmodify (fun c =>
    mkScheduler
      (tbl_schedule c
       ++ [mkScheduleItem id (sd_days_of_week scheduleData) (sd_start_time scheduleData)
                          (sd_end_time scheduleData) max_parallel_jobs true])
      id (scheduleJobs c) (pending c) (next_job c)) ;;
  newSchedule <- wgets (find_schedule id) ;;
  setUpSchedule newSchedule now ;;
  wret newSchedule.

(** [updateSchedule]: the UPDATE, then the row is read back;
    [updatedSchedule.active] throws when no row has the id. *)
Definition updateSchedule (id : Z) (scheduleData : scheduleData) (now : date)
    : W (option scheduleItem) :=
  wmodify (fun c =>
    set_tbl_schedule
      (List.map (fun item =>
         if bool_decide (s_id item = id)
         then mkScheduleItem (s_id item) (sd_days_of_week scheduleData)
                (sd_start_time scheduleData) (sd_end_time scheduleData)
                (sd_max_parallel_jobs scheduleData) (sd_active scheduleData)
         else item) (tbl_schedule c)) c) ;;
  updatedSchedule <- wgets (find_schedule id) ;;
  match updatedSchedule with
  | None => wthrow (TypeError "Cannot read properties of undefined (reading 'active')")
  | Some item =>
      (if active item then setUpSchedule updatedSchedule now ;; wret tt
       else cancelJobs id) ;;
      wret updatedSchedule
  end.

(** [deleteSchedule] *)
Definition deleteSchedule (id : Z) : W Z :=
  cancelJobs id ;;
  wmodify (fun c =>
    set_tbl_schedule
      (List.filter (fun item => negb (bool_decide (s_id item = id))) (tbl_schedule c)) c) ;;
  wret id.

(** [setScheduleStatus] *)
Definition setScheduleStatus (id : Z) (active : bool) (now : date)
    : W (option scheduleItem) :=
  wmodify (fun c =>
    set_tbl_schedule
      (List.map (fun item =>
         if bool_decide (s_id item = id)
         then mkScheduleItem (s_id item) (days_of_week item) (start_time item)
                (end_time item) (max_parallel_jobs item) active
         else item) (tbl_schedule c)) c) ;;
  schedule <- wgets (find_schedule id) ;;
  (if active then setUpSchedule schedule now ;; wret tt else cancelJobs id) ;;
  wret schedule.

(** [setSchedule]: [if (scheduleData.id)], so a missing id and the id 0
    create a row. *)
Definition setSchedule (scheduleData : scheduleData) (now : date) : W (option scheduleItem) :=
  match sd_id scheduleData with
  | Some id =>
      if bool_decide (id = 0%Z) then createSchedule scheduleData now
      else updateSchedule id scheduleData now
  | None => createSchedule scheduleData now
  end.

(** A job of node-schedule fires: its function runs in the engine. *)
Definition fire (n : nat) : W unit :=
  job <- wgets (fun c => pending c !! n) ;;
  match job with
  | Some (mkScheduledJob _ (AtStart item)) => lift (startJob item)
  | Some (mkScheduledJob _ (AtEnd item)) => lift (endJob item)
  | None => wret tt
  end.

End Registry.

(** The requests the scheduler serves, each with the time at which it
    arrives where the code reads the clock, and a job of node-schedule
    that fires. *)
Inductive request :=
| SetSchedule (scheduleData : scheduleData) (now : date)
| DeleteSchedule (id : Z)
| SetScheduleStatus (id : Z) (active : bool) (now : date)
| Fire (n : nat).

Section Serving.
Context {R : runtime} {NS : node_schedule}.

(** The world after a request, whether it was answered or threw. *)
Definition serve (r : request) (w : world) : world :=
  match r with
  | SetSchedule scheduleData now => snd (setSchedule scheduleData now w)
  | DeleteSchedule id => snd (deleteSchedule id w)
  | SetScheduleStatus id active now => snd (setScheduleStatus id active now w)
  | Fire n => snd (fire n w)
  end.

Definition serve_all (rs : list request) (w : world) : world :=
  fold_left (fun w r => serve r w) rs w.

End Serving.

End Scheduler.

(** ** The process as a whole *)

Module System.
Import JS Database Scanner Encoder Scheduler.
Local Open Scope Z_scope.

(** What can happen next: the clock moves, a timer or a request of the
    window runs one of the entry points, the scanner or the watcher has a
    file to record, or a suspended task of the engine resumes. *)
Inductive event :=
| Tick (now : Z)
| ProcessQueue
| Resume (i : nat) (o : outcome)
| RestartJob (jobId : Z)
| PauseQueue
| ResumeQueue
| SetMaxParallelJobs (count : Z)
| CheckSchedule (item : scheduleItem) (now : date)
| ScheduleStart (item : scheduleItem)
| ScheduleEnd (item : scheduleItem)
| ProcessMediaFile (filePath : string) (fileSize : Z) (probe : res (list stream))
| QueueEncodingJobs.

Section WithRuntime.
Context {R : runtime}.

Definition step (e : event) (s : state) : state :=
  match e with
  | Tick now => set_clock now s
  | ProcessQueue => snd (processEncodingQueue s)
  | Resume i o => resume i o s
  | RestartJob jobId => snd (restartJob jobId s)
  | PauseQueue => snd (pauseQueue s)
  | ResumeQueue => snd (resumeQueue s)
  | SetMaxParallelJobs count => snd (setMaxParallelJobs count s)
  | CheckSchedule item now => snd (checkIfScheduleShouldBeActive item now s)
  | ScheduleStart item => snd (startJob item s)
  | ScheduleEnd item => snd (endJob item s)
  | ProcessMediaFile filePath fileSize probe =>
      set_store (snd (processMediaFile (clock s) filePath fileSize probe (store s))) s
  | QueueEncodingJobs => set_store (snd (queueEncodingJobs (clock s) (store s))) s
  end.

Definition run (es : list event) (s : state) : state :=
  fold_left (fun s e => step e s) es s.

End WithRuntime.
End System.

(** A runtime for the examples: POSIX paths without [.] and [..] segments,
    file names with at most one dot, and [Number] on strings of decimal
    digits (the empty string converts to 0). *)
Module Posix.
Import JS.

Fixpoint last_index (c : ascii) (s : string) (i : nat) (found : option nat) : option nat :=
  match s with
  | EmptyString => found
  | String x s' => last_index c s' (S i) (if bool_decide (x = c) then Some i else found)
  end.

Definition basename (p : string) : string :=
  match last_index "/" p 0 None with
  | Some i => String.substring (S i) (String.length p - S i) p
  | None => p
  end.

Definition dirname (p : string) : string :=
  match last_index "/" p 0 None with
  | Some O => "/"
  | Some i => String.substring 0 i p
  | None => "."
  end.

Definition extname (p : string) : string :=
  let b := basename p in
  match last_index "." b 0 None with
  | Some O => ""
  | Some i => String.substring i (String.length b - i) b
  | None => ""
  end.

Definition basename_ext (p ext : string) : string :=
  let b := basename p in
  let n := (String.length b - String.length ext)%nat in
  if bool_decide (String.substring n (String.length ext) b = ext)
     && negb (bool_decide (b = ext))
  then String.substring 0 n b else b.

Fixpoint digits (s : string) (acc : Z) : option Z :=
  match s with
  | EmptyString => Some acc
  | String c s' =>
      let n := nat_of_ascii c in
      if (48 <=? n)%nat && (n <=? 57)%nat
      then digits s' (10 * acc + Z.of_nat (n - 48))%Z
      else None
  end.

Definition posix : runtime :=
  {| path_join := fun d f => d +:+ "/" +:+ f;
     path_extname := extname;
     path_basename := basename;
     path_basename_ext := basename_ext;
     path_dirname := dirname;
     os_tmpdir := "/tmp";
     platform_win32 := false;
     Number := fun s => digits s 0 |}.

End Posix.

(** ** The properties, as predicates on the model *)

Module Properties.
Import JS Database Scanner Encoder Scheduler System.

(** The row [addMedia] writes. *)
Definition upserted (now : Z) (mi : mediaInfo) (d : db) : media :=
  {| m_id := (seq_media d + 1)%Z;
     title := mi_title mi;
     episode_name := or_null (mi_episode_name mi);
     directory := mi_directory mi;
     file_path := mi_file_path mi;
     file_size_bytes := mi_file_size_bytes mi;
     encoding_type := mi_encoding_type mi;
     media_type := mi_media_type mi;
     last_updated := now;
     needs_encoding := needsEncoding_of (mi_encoding_type mi);
     encoded_previously := false;
     m_created_at := now |}.

(** The stored codec tag, lower-cased, is one of hevc, h265, av1. *)
Definition accepted (m : media) : bool :=
  includes acceptedCodecs (toLowerCase (encoding_type m)).

(** The flag of a media row agrees with its codec tag. *)
Definition flag_matches (m : media) : Prop :=
  needs_encoding m = false <-> accepted m = true.

(** Statuses a job can still leave. *)
Definition nonterminal (s : job_status) : bool :=
  match s with
  | queued | processing | replacing_file => true
  | completed | failed => false
  end.

(** The number of non-terminal jobs of a media id. *)
Definition open_jobs_of (mediaId : Z) (d : db) : nat :=
  length (List.filter
            (fun j => bool_decide (media_id j = mediaId) && nonterminal (status j))
            (tbl_encoding_jobs d)).

(** The number of rows of [l] with the given id. *)
Definition count_id (mediaId : Z) (l : list media) : nat :=
  length (List.filter (fun m => bool_decide (m_id m = mediaId)) l).

(** The job ids of the store. *)
Definition job_ids (d : db) : list Z := List.map j_id (tbl_encoding_jobs d).

(** The media ids a job of the store may refer to are pairwise different. *)
Definition media_ids_unique (d : db) : Prop := NoDup (List.map m_id (tbl_media d)).

(** Tasks of the engine that are not inside [replaceOriginalFile]. *)
Definition before_replace (t : task) : bool :=
  match t with
  | AwaitEnsureTempDir _ | AwaitGpuInfo _ _ | Encoding _ _ _ | AwaitTempStat _ _ _ => true
  | _ => false
  end.

(** No task of the state is inside [replaceOriginalFile]. *)
Definition no_replace_pending (s : state) : Prop :=
  forallb before_replace (tasks s) = true.

(** A relation between the state before and after that a piece of code
    keeps: reflexive, transitive, and blind to the log of uncaught errors. *)
Class Kept (P : state -> state -> Prop) : Prop := {
  kept_refl : forall s, P s s;
  kept_trans : forall a b c, P a b -> P b c -> P a c;
  kept_uncaught : forall s u, P s (set_uncaught u s)
}.

Definition preserves (P : state -> state -> Prop) {A} (m : M A) : Prop :=
  forall s, P s (snd (m s)).

(** The files are the same, and every task is one there was before or one
    that is not inside [replaceOriginalFile]. *)
Definition keeps_files (s s' : state) : Prop :=
  files s' = files s
  /\ forall t, In t (tasks s') -> In t (tasks s) \/ before_replace t = true.

(** The files are the same. *)
Definition same_files (s s' : state) : Prop := files s' = files s.

(** The statuses the engine records when a job ends or is about to. *)
Definition outcome_status (st : job_status) : bool :=
  match st with
  | replacing_file | completed | failed => true
  | queued | processing => false
  end.

(** No job has entered one of those statuses: a job that has one had it
    before, under the same id. *)
Definition no_new_outcome (s s' : state) : Prop :=
  forall j', In j' (tbl_encoding_jobs (store s')) -> outcome_status (status j') = true ->
  exists j, In j (tbl_encoding_jobs (store s)) /\ j_id j = j_id j' /\ status j = status j'.

(** The pause flag and the limit are the same. *)
Definition keeps_control (s s' : state) : Prop :=
  isQueuePaused s' = isQueuePaused s /\ maxParallelJobs s' = maxParallelJobs s.

(** The events that upsert a media row. *)
Definition is_upsert (e : event) : bool :=
  match e with
  | ProcessMediaFile _ _ _ => true
  | _ => false
  end.

(** Every job row is still there, under its id and for its media id. *)
Definition jobs_kept (d d' : db) : Prop :=
  forall j, In j (tbl_encoding_jobs d) ->
  exists j', In j' (tbl_encoding_jobs d') /\ j_id j' = j_id j /\ media_id j' = media_id j.

Definition keeps_jobs (s s' : state) : Prop := jobs_kept (store s) (store s').

Local Open Scope Z_scope.

(** *** The store *)

(** The store as SQLite keeps it: ids are unique and not above the sequence
    of their table, file paths are unique, and every job refers to a media
    row (the foreign key). *)
Definition well_formed (d : db) : Prop :=
  NoDup (List.map m_id (tbl_media d))
  /\ NoDup (List.map file_path (tbl_media d))
  /\ (forall m, In m (tbl_media d) -> m_id m <= seq_media d)
  /\ NoDup (List.map j_id (tbl_encoding_jobs d))
  /\ (forall j, In j (tbl_encoding_jobs d) -> j_id j <= seq_encoding_jobs d)
  /\ (forall j, In j (tbl_encoding_jobs d) ->
        exists m, In m (tbl_media d) /\ m_id m = media_id j).

(** A well-formed store stays well formed. *)
Definition keeps_well_formed (s s' : state) : Prop :=
  well_formed (store s) -> well_formed (store s').

(** The job [j] seen through the join with the media row [m]. *)
Definition view_of (j : job) (m : media) : job_view :=
  mkJobView j (title m) (episode_name m) (file_path m) (encoding_type m).

(** Every file path that has a media row still has one. *)
Definition paths_kept (d d' : db) : Prop :=
  forall m, In m (tbl_media d) -> exists m', In m' (tbl_media d') /\ file_path m' = file_path m.

Definition keeps_paths (s s' : state) : Prop := paths_kept (store s) (store s').

(** *** The order of the queries *)

(** In [ORDER BY], [x] may stand before [y]: [y] need not come first. *)
Definition may_precede {A} (before : A -> A -> bool) (x y : A) : Prop :=
  before y x = false.

(** [x] may stand before [y] in the order of [getMediaNeedingEncoding]: it
    is not smaller. *)
Definition size_order (x y : media) : Prop := file_size_bytes y <= file_size_bytes x.

(** [x] may stand before [y] in the order of [getJobsByStatus]: it has the
    higher priority, or the same priority and was not created later. *)
Definition job_order (x y : job_view) : Prop :=
  priority (v_job y) < priority (v_job x)
  \/ (priority (v_job y) = priority (v_job x)
      /\ j_created_at (v_job x) <= j_created_at (v_job y)).

(** [x] may stand before [y] in the order of [searchJobs]: it was not
    created earlier. *)
Definition newest_first (x y : job_view) : Prop :=
  j_created_at (v_job y) <= j_created_at (v_job x).

(** *** Admission and dispatch *)

(** The job [createEncodingJob] inserts for a media row when the sequence of
    the job table stands at [seq]. *)
Definition admitted (now : Z) (seq : Z) (m : media) : job :=
  mkJob (seq + 1) (m_id m) queued (file_size_bytes m / (1024 * 1024 * 100)) None
        (file_size_bytes m) None None None None None 0 now.

(** The jobs a run of admission inserts for the rows it selected. *)
Fixpoint admitted_jobs (now : Z) (seq : Z) (l : list media) : list job :=
  match l with
  | [] => []
  | m :: l' => admitted now seq m :: admitted_jobs now (seq + 1) l'
  end.

(** The jobs a polling pass starts in the state [s]. *)
Definition to_start (s : state) : list job_view :=
  if isQueuePaused s then []
  else if maxParallelJobs s - activeJobs s <=? 0 then []
       else getJobsByStatus queued (maxParallelJobs s - activeJobs s) (store s).

(** The job rows after a polling pass that started [started]: the rows with
    the id of a started job are [processing] since [now]. *)
Definition is_started (started : list job_view) (j : job) : bool :=
  existsb (fun v => bool_decide (j_id (v_job v) = j_id j)) started.

Definition mark_started (now : Z) (started : list job_view) (j : job) : job :=
  if is_started started j then set_status now processing j else j.

(** *** The scan *)

(** The counters of a scan are consistent: nothing is negative, no more
    files were added than scanned, no more need encoding than were added. *)
Definition counts_ok (r : results) : Prop :=
  0 <= needsEncoding r <= added r /\ added r <= scanned r /\ 0 <= errors r.

(** *** The search *)

(** [q] occurs in [s], the ASCII letters compared without regard to case. *)
Definition contains_nocase (q s : string) : Prop :=
  exists pre mid post, s = pre +:+ mid +:+ post /\ toLowerCase mid = toLowerCase q.

(** The query holds none of the characters [%] and [_]. *)
Fixpoint no_wildcard (q : string) : bool :=
  match q with
  | EmptyString => true
  | String c q' =>
      negb (bool_decide (c = "%"%char)) && negb (bool_decide (c = "_"%char)) && no_wildcard q'
  end.

(** One of the four columns [searchJobs] looks at contains the query. *)
Definition found_in (q : string) (v : job_view) : Prop :=
  contains_nocase q (v_title v)
  \/ (exists e, v_episode_name v = Some e /\ contains_nocase q e)
  \/ contains_nocase q (v_file_path v)
  \/ contains_nocase q (status_text (status (v_job v))).

(** *** Times of day *)

(** The time of day [h]:[m] as [checkIfScheduleShouldBeActive] writes it. *)
Definition hhmm (h m : nat) : string := currentTime (mkDate 0 h m).

(** Minutes since midnight. *)
Definition minutes (h m : nat) : nat := (60 * h + m)%nat.

(** The number [n] is written with two digits, tens first. *)
Definition two_digits (n : nat) : bool :=
  match padStart2 (toString n) with
  | String c1 (String c2 EmptyString) =>
      N.eqb (N_of_ascii c1) (48 + N.of_nat (n / 10))
      && N.eqb (N_of_ascii c2) (48 + N.of_nat (n mod 10))
  | _ => false
  end.

(** *** The names of files *)

(** A run of digits that is not empty: what [\d+] matches. *)
Fixpoint all_digits (s : string) : bool :=
  match s with
  | EmptyString => true
  | String c s' => is_digit c && all_digits s'
  end.

Definition digit_run (s : string) : Prop := s <> "" /\ all_digits s = true.

(** The string has a piece that [/S(\d+)E(\d+)|(\d+)x(\d+)/i] matches: the
    letter s, digits, the letter e, digits; or digits, the letter x,
    digits; the letters in either case. *)
Definition episode_marker (s : string) : Prop :=
  (exists pre a n1 b n2 post,
     s = pre +:+ String a n1 +:+ String b n2 +:+ post
     /\ is_letter "s" a = true /\ digit_run n1 /\ is_letter "e" b = true /\ digit_run n2)
  \/ (exists pre n1 x n2 post,
        s = pre +:+ n1 +:+ String x n2 +:+ post
        /\ digit_run n1 /\ is_letter "x" x = true /\ digit_run n2).

(** *** The slots *)

(** No slot was released and no entry of [activeJobsMap] removed. *)
Definition nothing_released (s s' : state) : Prop :=
  activeJobs s <= activeJobs s'
  /\ forall jobId, is_Some (activeJobsMap s !! jobId) -> is_Some (activeJobsMap s' !! jobId).

(** *** The schedule table and the jobs of node-schedule *)

Section Schedules.
Context {R : runtime} {NS : node_schedule}.

(** The schedule a job of node-schedule was set up for. *)
Definition owner (j : scheduledJob) : Z :=
  match callback_of j with
  | AtStart item | AtEnd item => s_id item
  end.

(** The two jobs [setUpSchedule] schedules for a row. *)
Definition startJob_of (item : scheduleItem) : scheduledJob :=
  mkScheduledJob (startRule item) (AtStart item).

Definition endJob_of (item : scheduleItem) : scheduledJob :=
  mkScheduledJob (endRule item) (AtEnd item).

(** The scheduler with another table. *)
Definition with_table (tbl : list scheduleItem) (seq : Z) (c : scheduler) : scheduler :=
  mkScheduler tbl seq (scheduleJobs c) (pending c) (next_job c).

(** The scheduler once [cancelJobs id] has run without throwing. *)
Definition unregister (id : Z) (c : scheduler) : scheduler :=
  match scheduleJobs c !! id with
  | Some (Some x, Some y) =>
      mkScheduler (tbl_schedule c) (seq_schedule c) (delete id (scheduleJobs c))
                  (delete y (delete x (pending c))) (next_job c)
  | _ => c
  end.

(** The scheduler once the two jobs of a row are scheduled and stored. *)
Definition register (item : scheduleItem) (c : scheduler) : scheduler :=
  let n := next_job c in
  mkScheduler (tbl_schedule c) (seq_schedule c)
              (<[s_id item := (Some n, Some (S n))]> (scheduleJobs c))
              (<[S n := endJob_of item]> (<[n := startJob_of item]> (pending c)))
              (S (S n)).

(** The scheduler once [setUpSchedule] has scheduled what node-schedule
    accepts of the two rules of a row, and stored the outcome. *)
Definition scheduled (item : scheduleItem) (c : scheduler) : scheduler :=
  let n := next_job c in
  let a := if schedulable (startRule item) then Some n else None in
  let p1 := if schedulable (startRule item) then <[n := startJob_of item]> (pending c)
            else pending c in
  let n1 := if schedulable (startRule item) then S n else n in
  let b := if schedulable (endRule item) then Some n1 else None in
  let p2 := if schedulable (endRule item) then <[n1 := endJob_of item]> p1 else p1 in
  let n2 := if schedulable (endRule item) then S n1 else n1 in
  mkScheduler (tbl_schedule c) (seq_schedule c)
              (<[s_id item := (a, b)]> (scheduleJobs c)) p2 n2.

(** The row [createSchedule] inserts. *)
Definition created_row (scheduleData : scheduleData) (c : scheduler) : scheduleItem :=
  mkScheduleItem (seq_schedule c + 1) (sd_days_of_week scheduleData)
    (sd_start_time scheduleData) (sd_end_time scheduleData)
    (if bool_decide (sd_max_parallel_jobs scheduleData = 0) then 2
     else sd_max_parallel_jobs scheduleData) true.

(** The row the UPDATE of [updateSchedule] writes in place of a row. *)
Definition updated_row (scheduleData : scheduleData) (item : scheduleItem) : scheduleItem :=
  mkScheduleItem (s_id item) (sd_days_of_week scheduleData) (sd_start_time scheduleData)
    (sd_end_time scheduleData) (sd_max_parallel_jobs scheduleData) (sd_active scheduleData).

(** The row the UPDATE of [setScheduleStatus] writes in place of a row. *)
Definition switched_row (on : bool) (item : scheduleItem) : scheduleItem :=
  mkScheduleItem (s_id item) (days_of_week item) (start_time item) (end_time item)
    (max_parallel_jobs item) on.

(** [UPDATE schedule SET ... WHERE id = ?] *)
Definition rewrite_row (f : scheduleItem -> scheduleItem) (id : Z) (tbl : list scheduleItem)
    : list scheduleItem :=
  List.map (fun item => if bool_decide (s_id item = id) then f item else item) tbl.

(** The jobs of node-schedule and the table agree, but for the rows whose
    id is in [todo], which may still have to be set up:
    - the ids of the table are unique and not above its sequence;
    - every entry of [scheduleJobs] holds two jobs that are pending, the
      start job and the end job of an active row of the table with that id,
      as the row is now;
    - every pending job is held by the entry of the schedule it was set up
      for;
    - every active row whose id is not in [todo] has an entry. *)
Record synced_but (todo : Z -> Prop) (c : scheduler) : Prop := mkSynced {
  ids_unique : NoDup (List.map s_id (tbl_schedule c));
  ids_below : forall item, In item (tbl_schedule c) -> s_id item <= seq_schedule c;
  entry_jobs : forall id a b,
    scheduleJobs c !! id = Some (a, b) ->
    exists x y item,
      a = Some x /\ b = Some y /\ In item (tbl_schedule c) /\ s_id item = id
      /\ active item = true
      /\ pending c !! x = Some (startJob_of item)
      /\ pending c !! y = Some (endJob_of item);
  pending_owned : forall n j,
    pending c !! n = Some j ->
    (n < next_job c)%nat
    /\ exists a b, scheduleJobs c !! owner j = Some (a, b) /\ (a = Some n \/ b = Some n);
  active_entries : forall item,
    In item (tbl_schedule c) -> active item = true -> ~ todo (s_id item) ->
    is_Some (scheduleJobs c !! s_id item)
}.

Definition synced (c : scheduler) : Prop := synced_but (fun _ => False) c.

(** What a user of the scheduler sees of it: every pending job is the start
    job or the end job of an active row of the table as the row is now, each
    active row has both its jobs pending, and no job is pending twice. *)
Definition mirrors (c : scheduler) : Prop :=
  (forall n j, pending c !! n = Some j ->
     exists item, In item (tbl_schedule c) /\ active item = true
                  /\ (j = startJob_of item \/ j = endJob_of item))
  /\ (forall item, In item (tbl_schedule c) -> active item = true ->
        exists x y, pending c !! x = Some (startJob_of item)
                    /\ pending c !! y = Some (endJob_of item))
  /\ (forall n m j, pending c !! n = Some j -> pending c !! m = Some j -> n = m).

(** A row whose entry of [scheduleJobs] holds [null] for its start job. *)
Definition stuck (id : Z) (c : scheduler) : Prop :=
  (exists b, scheduleJobs c !! id = Some (None, b))
  /\ exists item, In item (tbl_schedule c) /\ s_id item = id.

(** Code of the scheduler that leaves a stuck row stuck. *)
Definition keeps_stuck {A} (id : Z) (m : W A) : Prop :=
  forall w, stuck id (sched w) -> stuck id (sched (snd (m w))).

End Schedules.

End Properties.

(** ** Concrete stores and files for the examples *)

Module Examples.
Import JS Database Scanner Encoder Scheduler System.
Local Open Scope Z_scope.

(** A 1 GB H.264 film and the record the scanner makes of it. *)
Definition movie : mediaInfo :=
  mkMediaInfo "Movie" None "/lib" "/lib/Movie.mkv" 1000000000 "h264" "movie".

(** The same file after it was replaced by a smaller one. *)
Definition movie_rescanned : mediaInfo :=
  mkMediaInfo "Movie" None "/lib" "/lib/Movie.mkv" 400000000 "hevc" "movie".

(** The store after the first scan of the film at time 10. *)
Definition db_movie : db := snd (addMedia 10 movie empty_db).

(** A library directory that holds the film, as a walk finds it at time 10. *)
Definition lib : listing :=
  Entries (ECons "Movie.mkv" (File 1000000000 (Ret [mkStream "video" (Some "h264")]) 10) ENil).

(** The store after [scanLibrary] of that directory, admission at time 11. *)
Definition db_scanned : db := snd (scanLibrary (R := Posix.posix) 11 "/lib" lib empty_db).

(** The bytes of the film before any encoding. *)
Definition movie_bytes : content := [Byte.x00; Byte.x00; Byte.x01; Byte.xb3].

(** The process once the library is scanned: job 1 is queued, at time 20. *)
Definition scanned : state :=
  initial db_scanned {[ "/lib/Movie.mkv" := movie_bytes ]} 20.

(** A polling pass starts job 1, the scratch directory is there, ffmpeg is
    spawned. *)
Definition start_job_1 : list event :=
  [ProcessQueue; Resume 0 (Settled (Ret tt)); Resume 0 (Spawn (Ret tt))].

(** A store whose job 1 is in [failed]. *)
Definition db_failed : db :=
  mkDb (tbl_media db_movie) 1
       [mkJob 1 1 failed 9 (Some "/tmp/plex-encoder/Movie_hevc_temp.mkv") 1000000000
              None None (Some 20) None (Some "FFmpeg encoding failed with code 1: ") 0 11]
       1.

(** The default rule of [createScheduleTable] with a limit of 3, and the same
    rule with a limit of 0. *)
Definition every_day : scheduleItem := mkScheduleItem 1 "0,1,2,3,4,5,6" "00:00" "23:59" 3 true.
Definition every_day_0 : scheduleItem := mkScheduleItem 1 "0,1,2,3,4,5,6" "00:00" "23:59" 0 true.

(** Monday, 09:05. *)
Definition monday_morning : date := mkDate 1 9 5.

(** A directory whose first file cannot be read by [fs.stat] and whose
    second file is a readable H.264 film. *)
Definition locked_then_fine : listing :=
  Entries (ECons "Locked.mkv" (StatFails (External "EACCES: permission denied"))
          (ECons "Movie.mkv" (File 1000000000 (Ret [mkStream "video" (Some "h264")]) 10)
           ENil)).

(** The bytes ffmpeg wrote for the film. *)
Definition encoded_bytes : content := [Byte.x00; Byte.x00; Byte.x01; Byte.x40].

(** A state the process does not reach: job 1 is recorded as
    [replacing_file] and [replaceOriginalFile] waits for [fs.move]. *)
Definition moving : state :=
  let job := mkJob 1 1 replacing_file 9 (Some "/tmp/plex-encoder/Movie_hevc_temp.mkv")
                   1000000000 (Some 400000000) (Some (mkPercent 1000000000 400000000))
                   (Some 20) None None 0 11 in
  let view := mkJobView job "Movie" None "/lib/Movie.mkv" "h264" in
  mkState (mkDb (tbl_media db_movie) 1 [job] 1)
          {[ "/lib/Movie.mkv" := movie_bytes ]} 40 2 1 false
          {[ 1%Z := ["-i"; "/lib/Movie.mkv"] ]}
          [AwaitMove view "/lib/Movie.mkv" "/tmp/plex-encoder/Movie_hevc_temp.mkv" 1
                     400000000 (Some "hevc")]
          [].

(** What ffprobe says of an H.264 file. *)
Definition h264 : res (list stream) := Ret [mkStream "video" (Some "h264")].

(** node-schedule when it schedules every rule it is given. *)
Definition accepts_all : node_schedule := {| schedulable := fun _ => true |}.

(** node-schedule when it refuses a rule whose hour is no number from 0 to
    23. *)
Definition checks_hour : node_schedule :=
  {| schedulable := fun r =>
       match hour r with
       | Some (Some h) => (0 <=? h) && (h <=? 23)
       | _ => false
       end |}.

(** A rule for the evenings of every day. *)
Definition evenings : scheduleItem := mkScheduleItem 2 "0,1,2,3,4,5,6" "22:00" "23:59" 1 true.

(** What the settings page may send: a schedule for the nights of the
    working days, with no limit given and not active; and one that starts at
    24:00. *)
Definition nights : scheduleData := mkScheduleData None "1,2,3,4,5" "22:00" "23:30" 0 false.
Definition late : scheduleData := mkScheduleData None "0,6" "24:00" "23:30" 2 true.

Definition requests : list request :=
  [SetSchedule nights monday_morning; DeleteSchedule 1; Fire 2;
   SetScheduleStatus 2 true monday_morning].

(** The default rule, a schedule that starts at 24:00 created with a
    node-schedule that refuses the hour, and a request to switch it off. *)
Definition refused_world : world :=
  serve_all (R := Posix.posix) (NS := checks_hour)
    [SetScheduleStatus 2 false monday_morning]
    (snd (createSchedule (R := Posix.posix) (NS := checks_hour) late monday_morning
            (mkWorld scanned (mkScheduler [every_day] 1 ∅ ∅ 0)))).

End Examples.

(** ** Facts about the job store *)

Section DatabaseFacts.
Import JS Database Properties.
Local Open Scope Z_scope.

Lemma filter_negb_filter {A} (f : A -> bool) (l : list A) :
  List.filter f (List.filter (fun x => negb (f x)) l) = [].
Proof.
  induction l as [|x l IH]; simpl; [reflexivity|].
  destruct (f x) eqn:E; simpl; [assumption|].
  rewrite E. assumption.
Qed.

Lemma has_path_true p m : has_path p m = true <-> file_path m = p.
Proof. unfold has_path. apply bool_decide_eq_true. Qed.

Lemma addMedia_media now mi d :
  tbl_media (snd (addMedia now mi d)) =
  List.filter (fun m => negb (has_path (mi_file_path mi) m)) (tbl_media d)
  ++ [upserted now mi d].
Proof. reflexivity. Qed.

Lemma addMedia_id now mi d : fst (addMedia now mi d) = seq_media d + 1.
Proof. reflexivity. Qed.

Lemma addMedia_seq now mi d : seq_media (snd (addMedia now mi d)) = seq_media d + 1.
Proof. reflexivity. Qed.

(** After an upsert exactly one row has the path: the one just written. *)
Lemma addMedia_one_row now mi d :
  List.filter (has_path (mi_file_path mi)) (tbl_media (snd (addMedia now mi d)))
  = [upserted now mi d].
Proof.
  rewrite addMedia_media, List.filter_app, filter_negb_filter. simpl.
  replace (has_path (mi_file_path mi) (upserted now mi d)) with true; [reflexivity|].
  symmetry. apply has_path_true. reflexivity.
Qed.

Lemma upserted_flag_matches now mi d : flag_matches (upserted now mi d).
Proof.
  unfold flag_matches, accepted, upserted, needsEncoding_of.
  cbn [needs_encoding encoding_type].
  destruct (includes acceptedCodecs (toLowerCase (mi_encoding_type mi)));
    cbn [negb]; split; congruence.
Qed.

Lemma addMedia_rows now mi d m :
  In m (tbl_media (snd (addMedia now mi d))) ->
  (In m (tbl_media d) /\ file_path m <> mi_file_path mi) \/ m = upserted now mi d.
Proof.
  rewrite addMedia_media, in_app_iff, filter_In. simpl.
  intros [[Hin Hp] | [<- | []]]; [left | right; reflexivity].
  split; [assumption|]. intros E. apply has_path_true in E. rewrite E in Hp. discriminate.
Qed.

Lemma markMediaAsEncoded_rows now id codec size d m :
  In m (tbl_media (markMediaAsEncoded now id codec size d)) ->
  exists m0, In m0 (tbl_media d) /\
    m = (if bool_decide (m_id m0 = id) then mark_encoded now codec size m0 else m0).
Proof.
  unfold markMediaAsEncoded; simpl. rewrite in_map_iff.
  intros (m0 & <- & Hin). exists m0. split; [assumption | reflexivity].
Qed.

End DatabaseFacts.

(** ** The media table: upserts and the [needs_encoding] flag *)

Section MediaClaims.
Import JS Database Properties.
Local Open Scope Z_scope.

(** C6, as the code has it.  [addMedia] writes one record, the only one of
    its file path afterwards, with the codec tag it was given and the flag
    recomputed from that tag (false exactly when the lower-cased tag is
    hevc, h265 or av1); the records of every other file path are the same
    before and after, in the same order.  [markMediaAsEncoded] does not
    recompute: it deletes and adds no record, leaves the records of every
    other id as they were, and gives each record with the id the flag false
    and the new codec tag, whatever that tag is. *)
Theorem needs_encoding_recomputed_by_addMedia_only now mi d :
  let d' := snd (addMedia now mi d) in
  let written := upserted now mi d in
  (In written (tbl_media d')
   /\ List.filter (has_path (mi_file_path mi)) (tbl_media d') = [written]
   /\ file_path written = mi_file_path mi
   /\ encoding_type written = mi_encoding_type mi
   /\ (needs_encoding written = false
       <-> includes acceptedCodecs (toLowerCase (encoding_type written)) = true)
   /\ List.filter (fun m => negb (has_path (mi_file_path mi) m)) (tbl_media d')
      = List.filter (fun m => negb (has_path (mi_file_path mi) m)) (tbl_media d)
   /\ (forall m, file_path m <> mi_file_path mi ->
         (In m (tbl_media d') <-> In m (tbl_media d))))
  /\ (forall id codec size,
        let d'' := markMediaAsEncoded now id codec size d in
        List.map m_id (tbl_media d'') = List.map m_id (tbl_media d)
        /\ List.map file_path (tbl_media d'') = List.map file_path (tbl_media d)
        /\ List.filter (fun m => negb (bool_decide (m_id m = id))) (tbl_media d'')
           = List.filter (fun m => negb (bool_decide (m_id m = id))) (tbl_media d)
        /\ (forall m, In m (tbl_media d'') -> m_id m = id ->
              needs_encoding m = false /\ encoding_type m = codec)
        /\ (forall m0, In m0 (tbl_media d) -> m_id m0 = id ->
              exists m, In m (tbl_media d'') /\ m_id m = id
                        /\ file_path m = file_path m0
                        /\ needs_encoding m = false /\ encoding_type m = codec)).
Proof.
  cbv zeta. split.
  - assert (Hp : has_path (mi_file_path mi) (upserted now mi d) = true)
      by (apply has_path_true; reflexivity).
    split; [rewrite addMedia_media; apply in_or_app; right; left; reflexivity|].
    split; [apply addMedia_one_row|].
    split; [reflexivity|]. split; [reflexivity|].
    split; [exact (upserted_flag_matches now mi d)|].
    split.
    + rewrite addMedia_media, List.filter_app. cbn [List.filter]. rewrite Hp. cbn [negb].
      rewrite app_nil_r. clear. induction (tbl_media d) as [|m l IH]; [reflexivity|].
      cbn [List.filter]. destruct (negb (has_path (mi_file_path mi) m)) eqn:E.
      * cbn [List.filter]. rewrite E, IH. reflexivity.
      * exact IH.
    + intros m Hm. rewrite addMedia_media, in_app_iff, filter_In. split.
      * intros [[H _] | [<- | []]]; [exact H | contradiction Hm; reflexivity].
      * intros H. left. split; [exact H|].
        unfold has_path. rewrite bool_decide_eq_false_2 by exact Hm. reflexivity.
  - intros id codec size.
    assert (Hrows : tbl_media (markMediaAsEncoded now id codec size d)
                    = List.map (fun m => if bool_decide (m_id m = id)
                                         then mark_encoded now codec size m else m)
                               (tbl_media d)) by reflexivity.
    rewrite Hrows. clear Hrows.
    split; [|split; [|split; [|split]]].
    + induction (tbl_media d) as [|m l IH]; [reflexivity|]. cbn [List.map].
      rewrite IH. destruct (bool_decide (m_id m = id)); reflexivity.
    + induction (tbl_media d) as [|m l IH]; [reflexivity|]. cbn [List.map].
      rewrite IH. destruct (bool_decide (m_id m = id)); reflexivity.
    + induction (tbl_media d) as [|m l IH]; [reflexivity|]. cbn [List.map List.filter].
      destruct (bool_decide (m_id m = id)) eqn:E.
      * cbn [mark_encoded m_id]. rewrite E. cbn [negb]. exact IH.
      * rewrite E. cbn [negb]. rewrite IH. reflexivity.
    + intros m H Hid. apply in_map_iff in H as (m0 & <- & _).
      destruct (bool_decide (m_id m0 = id)) eqn:E.
      * split; reflexivity.
      * apply bool_decide_eq_false in E. contradiction.
    + intros m0 H Hid. exists (mark_encoded now codec size m0). split.
      * apply in_map_iff. exists m0. split; [|exact H].
        rewrite bool_decide_eq_true_2 by exact Hid. reflexivity.
      * repeat split. exact Hid.
Qed.

(** The film scanned at time 10 is recorded and flagged, its tag being
    h264; marked encoded with the tag "hevc" its record is still there, with
    the flag cleared. *)
Lemma needs_encoding_recomputed_witness :
  (In (upserted 10 Examples.movie empty_db) (tbl_media Examples.db_movie)
   /\ needs_encoding (upserted 10 Examples.movie empty_db) = true)
  /\ exists m, In m (tbl_media (markMediaAsEncoded 20 1 "hevc" 500 Examples.db_movie))
               /\ m_id m = 1 /\ file_path m = "/lib/Movie.mkv"
               /\ needs_encoding m = false /\ encoding_type m = "hevc".
Proof.
  split.
  - destruct (needs_encoding_recomputed_by_addMedia_only 10 Examples.movie empty_db)
      as [(Hin & _ & _ & _ & Hflag & _) _].
    split; [exact Hin|]. cbv zeta in Hflag.
    destruct (needs_encoding (upserted 10 Examples.movie empty_db)); [reflexivity|].
    destruct Hflag as [Hflag _]. specialize (Hflag eq_refl). vm_compute in Hflag.
    discriminate Hflag.
  - destruct (needs_encoding_recomputed_by_addMedia_only 20 Examples.movie Examples.db_movie)
      as [_ H].
    destruct (H 1 "hevc" 500) as (_ & _ & _ & _ & Hex).
    apply (Hex (upserted 10 Examples.movie empty_db)); [left; reflexivity | reflexivity].
Defined.

(** C6 fails as stated: after [markMediaAsEncoded] with the tag "unknown"
    (what [replaceOriginalFile] passes when the output has no video stream)
    the row's flag is false although its tag is not an accepted one. *)
Lemma markMediaAsEncoded_ignores_codec :
  exists m, In m (tbl_media (markMediaAsEncoded 20 1 "unknown" 500 Examples.db_movie))
            /\ needs_encoding m = false /\ accepted m = false.
Proof. eexists. split; [left; reflexivity | split; reflexivity]. Qed.

(** C4, as the code has it: after two upserts of one path exactly one row
    has that path, and it is not the row of the first upsert updated in
    place: that row is deleted, and the row of the second upsert is a new
    one, with the next id and the column defaults ([encoded_previously]
    false, [created_at] the time of the second upsert). *)
Theorem second_upsert_replaces_the_row now1 now2 mi1 mi2 d :
  mi_file_path mi1 = mi_file_path mi2 ->
  let d1 := snd (addMedia now1 mi1 d) in
  let d2 := snd (addMedia now2 mi2 d1) in
  List.filter (has_path (mi_file_path mi1)) (tbl_media d1) = [upserted now1 mi1 d]
  /\ List.filter (has_path (mi_file_path mi1)) (tbl_media d2) = [upserted now2 mi2 d1]
  /\ fst (addMedia now2 mi2 d1) = fst (addMedia now1 mi1 d) + 1
  /\ m_id (upserted now2 mi2 d1) = m_id (upserted now1 mi1 d) + 1
  /\ ~ In (upserted now1 mi1 d) (tbl_media d2)
  /\ encoded_previously (upserted now2 mi2 d1) = false
  /\ m_created_at (upserted now2 mi2 d1) = now2.
Proof.
  intros Hp d1 d2. subst d1 d2.
  split; [apply addMedia_one_row|].
  split; [rewrite Hp; apply addMedia_one_row|].
  split; [reflexivity|]. split; [reflexivity|].
  split; [|split; reflexivity].
  intros H. apply addMedia_rows in H as [[_ H] | H].
  - apply H. exact Hp.
  - apply (f_equal m_id) in H. cbn in H. lia.
Qed.

(** The film scanned at time 10 and again at time 30. *)
Lemma second_upsert_witness :
  List.filter (has_path "/lib/Movie.mkv")
    (tbl_media (snd (addMedia 30 Examples.movie_rescanned Examples.db_movie)))
  = [upserted 30 Examples.movie_rescanned Examples.db_movie].
Proof.
  apply (second_upsert_replaces_the_row 10 30 Examples.movie Examples.movie_rescanned empty_db).
  reflexivity.
Defined.

(** C4 fails as stated: the film is given id 1 by the first upsert; after it
    was marked encoded, the second upsert of the same path returns id 2, no
    row has id 1 any more, and the row that is there has lost
    [encoded_previously]. *)
Lemma second_upsert_makes_a_new_record :
  let d1 := markMediaAsEncoded 20 1 "hevc" 400000000 Examples.db_movie in
  let r := addMedia 30 Examples.movie_rescanned d1 in
  List.map m_id (tbl_media Examples.db_movie) = [1]
  /\ List.map encoded_previously (tbl_media d1) = [true]
  /\ fst r = 2
  /\ List.map m_id (tbl_media (snd r)) = [2]
  /\ find_media 1 (snd r) = None
  /\ List.map encoded_previously (tbl_media (snd r)) = [false].
Proof. repeat split; reflexivity. Qed.

End MediaClaims.

(** ** Admission *)

Section AdmissionFacts.
Import JS Database Scanner Properties.
Local Open Scope Z_scope.

Lemma insert_by_perm {A} (before : A -> A -> bool) x l :
  Permutation (insert_by before x l) (x :: l).
Proof.
  induction l as [|y l IH]; simpl; [reflexivity|].
  destruct (before y x); [|reflexivity].
  rewrite IH. apply perm_swap.
Qed.

Lemma order_by_perm {A} (before : A -> A -> bool) l :
  Permutation (order_by before l) l.
Proof.
  induction l as [|x l IH]; simpl; [reflexivity|].
  rewrite insert_by_perm. constructor. exact IH.
Qed.

Lemma filter_sublist {A} (f : A -> bool) l : sublist (List.filter f l) l.
Proof.
  induction l as [|x l IH]; simpl; [constructor|].
  destruct (f x); [apply sublist_skip | apply sublist_cons]; exact IH.
Qed.

Lemma limit_offset_sublist {A} limit offset (l : list A) :
  sublist (limit_offset limit offset l) l.
Proof.
  unfold limit_offset. destruct (limit <? 0).
  - apply sublist_drop.
  - etransitivity; [apply sublist_take | apply sublist_drop].
Qed.

Lemma limit_offset_length {A} limit (l : list A) :
  0 <= limit -> (Z.of_nat (length (limit_offset limit 0 l)) <= limit).
Proof.
  intros H. unfold limit_offset. destruct (limit <? 0) eqn:E; [lia|].
  simpl. rewrite length_take. lia.
Qed.

Lemma filter_none {A} (f : A -> bool) l :
  (forall x, In x l -> f x = false) -> List.filter f l = [].
Proof.
  induction l as [|x l IH]; simpl; intros H; [reflexivity|].
  rewrite (H x) by (left; reflexivity). apply IH. intros y Hy. apply H. right. exact Hy.
Qed.

Lemma map_is_fmap {A B} (f : A -> B) (l : list A) : List.map f l = f <$> l.
Proof. reflexivity. Qed.

(** The media selected for admission are rows of the table, and their ids
    are pairwise different when those of the table are. *)
Lemma selected_in_table limit offset d m :
  In m (getMediaNeedingEncoding limit offset d) ->
  In m (tbl_media d) /\ needs_encoding m = true.
Proof.
  unfold getMediaNeedingEncoding. intros H.
  apply list_elem_of_In in H.
  eapply elem_of_sublist in H; [|apply limit_offset_sublist].
  rewrite order_by_perm in H. apply list_elem_of_In in H.
  apply filter_In in H. exact H.
Qed.

Lemma selected_ids_unique limit offset d :
  media_ids_unique d ->
  NoDup (List.map m_id (getMediaNeedingEncoding limit offset d)).
Proof.
  unfold media_ids_unique, getMediaNeedingEncoding. rewrite !map_is_fmap. intros H.
  eapply sublist_NoDup; [|apply fmap_sublist, limit_offset_sublist].
  rewrite order_by_perm.
  eapply sublist_NoDup; [exact H | apply fmap_sublist, filter_sublist].
Qed.

Lemma find_media_some d m :
  In m (tbl_media d) -> exists m', find_media (m_id m) d = Some m'.
Proof.
  unfold find_media. intros H.
  destruct (List.find _ (tbl_media d)) eqn:E; [eauto|].
  eapply find_none in E; [|exact H]. apply bool_decide_eq_false in E. contradiction.
Qed.

Lemma count_id_unique l m :
  NoDup (List.map m_id l) -> In m l -> count_id (m_id m) l = 1%nat.
Proof.
  unfold count_id. induction l as [|x l IH]; simpl; [contradiction|].
  intros Hnd Hin. apply NoDup_cons in Hnd as [Hx Hnd].
  destruct (bool_decide (m_id x = m_id m)) eqn:E.
  - apply bool_decide_eq_true in E. simpl. f_equal.
    rewrite filter_none; [reflexivity|].
    intros y Hy. apply bool_decide_eq_false. intros E'.
    apply Hx. rewrite E, <- E'. apply list_elem_of_In, in_map, Hy.
  - apply bool_decide_eq_false in E.
    destruct Hin as [-> | Hin]; [contradiction E; reflexivity|].
    apply IH; assumption.
Qed.

Lemma createEncodingJob_found now mediaId priority d media :
  find_media mediaId d = Some media ->
  createEncodingJob now mediaId priority d =
  (Ret (seq_encoding_jobs d + 1),
   mkDb (tbl_media d) (seq_media d)
        (tbl_encoding_jobs d ++
         [mkJob (seq_encoding_jobs d + 1) mediaId queued priority None
                (file_size_bytes media) None None None None None 0 now])
        (seq_encoding_jobs d + 1)).
Proof. unfold createEncodingJob. intros ->. reflexivity. Qed.

Lemma open_jobs_of_app mediaId d l :
  open_jobs_of mediaId (mkDb (tbl_media d) (seq_media d) (tbl_encoding_jobs d ++ l)
                             (seq_encoding_jobs d + 1))
  = (open_jobs_of mediaId d
     + length (List.filter (fun j => bool_decide (media_id j = mediaId) && nonterminal (status j)) l))%nat.
Proof. unfold open_jobs_of. simpl. rewrite List.filter_app, length_app. reflexivity. Qed.

(** [create_jobs] succeeds on rows of the table, leaves the media table as it
    is and adds one queued job per row. *)
Lemma create_jobs_spec now l : forall d,
  (forall m, In m l -> In m (tbl_media d)) ->
  fst (create_jobs now l d) = Ret tt
  /\ tbl_media (snd (create_jobs now l d)) = tbl_media d
  /\ forall mediaId,
       open_jobs_of mediaId (snd (create_jobs now l d))
       = (open_jobs_of mediaId d + count_id mediaId l)%nat.
Proof.
  induction l as [|m l IH]; intros d Hin.
  - simpl. repeat split. intros. unfold count_id. simpl. lia.
  - destruct (find_media_some d m) as [m' Hm']; [apply Hin; left; reflexivity|].
    cbn [create_jobs].
    rewrite (createEncodingJob_found _ _ _ _ _ Hm').
    set (d1 := mkDb _ _ _ _).
    destruct (IH d1) as (H1 & H2 & H3); [intros x Hx; apply Hin; right; exact Hx|].
    split; [exact H1|]. split; [rewrite H2; reflexivity|].
    intros mediaId. rewrite H3. subst d1. rewrite open_jobs_of_app.
    unfold count_id. cbn [List.filter media_id status nonterminal].
    destruct (bool_decide (m_id m = mediaId)); simpl; lia.
Qed.

Lemma queueEncodingJobs_spec now d :
  fst (queueEncodingJobs now d) = Ret (Z.of_nat (length (getMediaNeedingEncoding 100 0 d)))
  /\ tbl_media (snd (queueEncodingJobs now d)) = tbl_media d
  /\ forall mediaId,
       open_jobs_of mediaId (snd (queueEncodingJobs now d))
       = (open_jobs_of mediaId d + count_id mediaId (getMediaNeedingEncoding 100 0 d))%nat.
Proof.
  unfold queueEncodingJobs.
  destruct (create_jobs_spec now (getMediaNeedingEncoding 100 0 d) d) as (H1 & H2 & H3).
  { intros m Hm. apply selected_in_table in Hm. tauto. }
  destruct (create_jobs now (getMediaNeedingEncoding 100 0 d) d) as [[[]|e] d'];
    simpl in *; [auto | discriminate].
Qed.

Lemma getMediaNeedingEncoding_media limit offset d d' :
  tbl_media d' = tbl_media d ->
  getMediaNeedingEncoding limit offset d' = getMediaNeedingEncoding limit offset d.
Proof. unfold getMediaNeedingEncoding. intros ->. reflexivity. Qed.

End AdmissionFacts.

Section AdmissionClaims.
Import JS Database Scanner Properties.
Local Open Scope Z_scope.

(** C2, as the code has it: [queueEncodingJobs] looks at no job before it
    calls [createEncodingJob].  Every run succeeds, returns the number of
    media rows it selected (those that need encoding, largest first, at most
    100) and adds one queued job for each, so a selected media id has one
    more non-terminal job after the run than before, whatever it had; a
    second run adds one more. *)
Theorem admission_adds_a_job_on_every_run now now' d m :
  media_ids_unique d ->
  In m (getMediaNeedingEncoding 100 0 d) ->
  let d1 := snd (queueEncodingJobs now d) in
  let d2 := snd (queueEncodingJobs now' d1) in
  fst (queueEncodingJobs now d) = Ret (Z.of_nat (length (getMediaNeedingEncoding 100 0 d)))
  /\ open_jobs_of (m_id m) d1 = S (open_jobs_of (m_id m) d)
  /\ open_jobs_of (m_id m) d2 = S (S (open_jobs_of (m_id m) d)).
Proof.
  intros Hu Hm d1 d2.
  destruct (queueEncodingJobs_spec now d) as (H1 & H2 & H3).
  destruct (queueEncodingJobs_spec now' d1) as (_ & _ & H3').
  assert (Hc : count_id (m_id m) (getMediaNeedingEncoding 100 0 d) = 1%nat).
  { apply count_id_unique; [apply selected_ids_unique, Hu | exact Hm]. }
  split; [exact H1|].
  assert (E1 : open_jobs_of (m_id m) d1 = S (open_jobs_of (m_id m) d)).
  { subst d1. rewrite H3, Hc. lia. }
  split; [exact E1|].
  subst d2. rewrite H3', E1.
  rewrite (getMediaNeedingEncoding_media _ _ d d1) by exact H2.
  rewrite Hc. lia.
Qed.

(** The film, scanned once, has two queued jobs after two runs. *)
Lemma admission_witness :
  open_jobs_of 1 (snd (queueEncodingJobs 12 (snd (queueEncodingJobs 11 Examples.db_movie))))
  = 2%nat.
Proof.
  refine (proj2 (proj2 (admission_adds_a_job_on_every_run 11 12 Examples.db_movie
                          (upserted 10 Examples.movie empty_db) _ _))).
  - unfold media_ids_unique. apply NoDup_singleton.
  - left. reflexivity.
Defined.

(** C2 fails as stated: the library is scanned (the film gets job 1), then
    the watcher sees another file arrive and runs admission again; the film,
    media id 1, now has two jobs in [queued] at once. *)
Lemma admission_twice_two_queued_jobs :
  let d := watch_add (R := Posix.posix) 12 "/lib/Other.mkv" (Ret 5000) Examples.h264
             Examples.db_scanned in
  open_jobs_of 1 Examples.db_scanned = 1%nat
  /\ open_jobs_of 1 d = 2%nat
  /\ List.map (fun j => (j_id j, media_id j, status j)) (tbl_encoding_jobs d)
     = [(1, 1, queued); (2, 1, queued); (3, 2, queued)].
Proof. repeat split; vm_compute; reflexivity. Qed.

End AdmissionClaims.

(** ** Reasoning about the engine's code *)

Section Preserving.
Import JS Database Encoder Properties.
Local Open Scope js_scope.

Context (P : state -> state -> Prop) `{!Kept P}.

Lemma preserves_ret {A} (a : A) : preserves P (ret a).
Proof. intros s. apply kept_refl. Qed.

Lemma preserves_throw {A} e : preserves P (@throw A e).
Proof. intros s. apply kept_refl. Qed.

Lemma preserves_gets {A} (f : state -> A) : preserves P (gets f).
Proof. intros s. apply kept_refl. Qed.

Lemma preserves_modify (f : state -> state) :
  (forall s, P s (f s)) -> preserves P (modify f).
Proof. intros H s. apply H. Qed.

Lemma preserves_bind {A B} (m : M A) (k : A -> M B) :
  preserves P m -> (forall a, preserves P (k a)) -> preserves P (bind m k).
Proof.
  intros Hm Hk s. unfold bind. specialize (Hm s).
  destruct (m s) as [[a|e] s']; simpl in *; [|exact Hm].
  eapply kept_trans; [exact Hm | apply Hk].
Qed.

Lemma preserves_try_catch {A} (m : M A) (h : error -> M A) :
  preserves P m -> (forall e, preserves P (h e)) -> preserves P (try_catch m h).
Proof.
  intros Hm Hh s. unfold try_catch. specialize (Hm s).
  destruct (m s) as [[a|e] s']; simpl in *; [exact Hm|].
  eapply kept_trans; [exact Hm | apply Hh].
Qed.

Lemma preserves_detached {A} (m : M A) : preserves P m -> preserves P (detached m).
Proof.
  intros Hm s. unfold detached. specialize (Hm s).
  destruct (m s) as [[a|e] s']; simpl in *; [exact Hm|].
  eapply kept_trans; [exact Hm | apply kept_uncaught].
Qed.

Lemma preserves_for_each {A} (l : list A) (body : A -> M unit) :
  (forall x, preserves P (body x)) -> preserves P (for_each l body).
Proof.
  intros H. induction l as [|x l IH]; simpl; [apply preserves_ret|].
  apply preserves_bind; [apply H | intros _; exact IH].
Qed.

(** Code after a call that always throws is never run. *)
Lemma preserves_bind_throws {A B} (m : M A) (k : A -> M B) :
  preserves P m -> (forall s, exists e, fst (m s) = Throw e) -> preserves P (bind m k).
Proof.
  intros Hm Ht s. unfold bind. specialize (Hm s). destruct (Ht s) as [e He].
  destruct (m s) as [[a|e'] s']; simpl in *; [discriminate | exact Hm].
Qed.

End Preserving.

Section EngineFacts.
Import JS Database Encoder Properties.
Local Open Scope Z_scope.
Local Open Scope js_scope.

(** The statement [updateJobStatus] builds is well formed exactly for the
    two statuses that come with a timestamp. *)
Lemma prepare_update_stamp st data :
  prepare_update (set_items st data) =
  if bool_decide (stamp_clause st = "") then Throw (SqliteSyntaxError "WHERE") else Ret tt.
Proof.
  unfold prepare_update, set_items.
  cbn [forallb]. rewrite forallb_app. cbn [forallb].
  assert (H : forallb (fun i => negb (bool_decide (i = "")))
                (List.map (fun f => column f +:+ " = ?") data) = true).
  { apply forallb_forall. intros x Hx. apply in_map_iff in Hx as (f & <- & _).
    destruct f; reflexivity. }
  rewrite H. destruct st; reflexivity.
Qed.

Lemma updateJobStatus_throws now jobId st data d :
  stamp_clause st = "" ->
  updateJobStatus now jobId st data d = (Throw (SqliteSyntaxError "WHERE"), d).
Proof.
  intros H. unfold updateJobStatus. rewrite prepare_update_stamp, H. reflexivity.
Qed.

Lemma updateStatus_throws jobId st data s :
  stamp_clause st = "" ->
  updateStatus jobId st data s = (Throw (SqliteSyntaxError "WHERE"), s).
Proof.
  intros H. unfold updateStatus. rewrite updateJobStatus_throws by exact H.
  destruct s; reflexivity.
Qed.

Lemma updateStatus_returns jobId st data s :
  stamp_clause st <> "" ->
  updateStatus jobId st data s =
  (Ret tt,
   set_store (mkDb (tbl_media (store s)) (seq_media (store s))
                (List.map (fun j => if bool_decide (j_id j = jobId)
                                    then update_job (clock s) st data j else j)
                          (tbl_encoding_jobs (store s)))
                (seq_encoding_jobs (store s))) s).
Proof.
  intros H. unfold updateStatus, updateJobStatus. rewrite prepare_update_stamp.
  rewrite bool_decide_eq_false_2 by exact H. reflexivity.
Qed.

End EngineFacts.

Section Relations.
Import JS Database Encoder Properties.
Local Open Scope Z_scope.

Lemma keeps_files_same s s' :
  files s' = files s -> tasks s' = tasks s -> keeps_files s s'.
Proof. intros F T. split; [exact F|]. rewrite T. auto. Qed.

Lemma jobs_kept_refl d : jobs_kept d d.
Proof. intros j Hj. exists j. auto. Qed.

Lemma jobs_kept_trans a b c : jobs_kept a b -> jobs_kept b c -> jobs_kept a c.
Proof.
  intros H1 H2 j Hj. destruct (H1 j Hj) as (j1 & Hj1 & I1 & M1).
  destruct (H2 j1 Hj1) as (j2 & Hj2 & I2 & M2).
  exists j2. repeat split; [assumption | congruence | congruence].
Qed.

Lemma keeps_jobs_same s s' : store s' = store s -> keeps_jobs s s'.
Proof. unfold keeps_jobs. intros ->. apply jobs_kept_refl. Qed.

Lemma update_job_ids now st data j :
  j_id (update_job now st data j) = j_id j
  /\ media_id (update_job now st data j) = media_id j.
Proof.
  unfold update_job. unfold set_status at 1 2. cbn [j_id media_id].
  revert j. induction data as [|f data IH]; intros j; simpl; [auto|].
  destruct (IH (set_field f j)) as [-> ->]. destruct f; auto.
Qed.

Lemma updateJobStatus_jobs_kept now jobId st data d :
  jobs_kept d (snd (updateJobStatus now jobId st data d)).
Proof.
  unfold updateJobStatus. destruct (prepare_update _); [|apply jobs_kept_refl].
  intros j Hj. cbn [snd tbl_encoding_jobs].
  exists (if bool_decide (j_id j = jobId) then update_job now st data j else j).
  split; [apply in_map_iff; exists j; auto|].
  destruct (bool_decide _); [apply update_job_ids | auto].
Qed.

Lemma updateJobStatus_media now jobId st data d :
  tbl_media (snd (updateJobStatus now jobId st data d)) = tbl_media d.
Proof. unfold updateJobStatus. destruct (prepare_update _); reflexivity. Qed.

End Relations.

#[export] Instance keeps_files_kept : Properties.Kept Properties.keeps_files.
Proof.
  split.
  - intros s. apply keeps_files_same; reflexivity.
  - intros a b c [F1 T1] [F2 T2]. split; [congruence|].
    intros t Ht. destruct (T2 t Ht) as [H|H]; auto.
  - intros s u. apply keeps_files_same; reflexivity.
Qed.

#[export] Instance keeps_jobs_kept : Properties.Kept Properties.keeps_jobs.
Proof.
  split.
  - intros s. apply jobs_kept_refl.
  - intros a b c. apply jobs_kept_trans.
  - intros s u. apply keeps_jobs_same. reflexivity.
Qed.

(** One step through the combinators of a handler; [leaf] closes what is
    left. *)
Ltac preserving leaf :=
  repeat
    lazymatch goal with
    | |- Properties.preserves ?P (Encoder.ret _) => apply (preserves_ret P)
    | |- Properties.preserves ?P (Encoder.throw _) => apply (preserves_throw P)
    | |- Properties.preserves ?P (Encoder.gets _) => apply (preserves_gets P)
    | |- Properties.preserves ?P (Encoder.bind _ _) =>
        apply (preserves_bind P); [| intros ?]
    | |- Properties.preserves ?P (Encoder.try_catch _ _) =>
        apply (preserves_try_catch P); [| intros ?]
    | |- Properties.preserves ?P (Encoder.detached _) => apply (preserves_detached P)
    | |- Properties.preserves ?P (Encoder.for_each _ _) =>
        apply (preserves_for_each P); intros ?
    | |- Properties.preserves _ (let _ := _ in _) => cbv zeta
    | |- Properties.preserves _ (match ?x with _ => _ end) => destruct x
    | |- Properties.preserves _ _ => leaf
    end.

Section EngineFiles.
Import JS Database Encoder Properties.
Context {R : runtime}.
Local Open Scope Z_scope.
Local Open Scope js_scope.

Lemma updateStatus_files jobId st data : preserves keeps_files (updateStatus jobId st data).
Proof.
  intros s. unfold updateStatus. destruct (updateJobStatus _ _ _ _ _).
  apply keeps_files_same; reflexivity.
Qed.

Lemma suspend_files t : before_replace t = true -> preserves keeps_files (suspend t).
Proof.
  intros H s. split; [reflexivity|]. cbn. intros t' Ht'.
  apply in_app_iff in Ht' as [Ht' | [<- | []]]; auto.
Qed.

Lemma modify_files f :
  (forall s, files (f s) = files s) -> (forall s, tasks (f s) = tasks s) ->
  preserves keeps_files (modify f).
Proof. intros F T s. apply keeps_files_same; [apply F | apply T]. Qed.

End EngineFiles.

Ltac files_leaf :=
  first
    [ apply updateStatus_files
    | apply suspend_files; reflexivity
    | apply modify_files; intros ?; reflexivity ].

Section EngineFilesHandlers.
Import JS Database Encoder Properties.
Context {R : runtime}.
Local Open Scope Z_scope.
Local Open Scope js_scope.

Lemma startEncodingJob_files job : preserves keeps_files (startEncodingJob job).
Proof. unfold startEncodingJob, startEncodingJob_catch. preserving files_leaf. Qed.

Lemma startEncodingJob_1_files job r : preserves keeps_files (startEncodingJob_1 job r).
Proof. unfold startEncodingJob_1, startEncodingJob_catch. preserving files_leaf. Qed.

Lemma startEncodingJob_2_files job t r : preserves keeps_files (startEncodingJob_2 job t r).
Proof.
  unfold startEncodingJob_2, startFFmpegEncoding, startEncodingJob_catch.
  preserving files_leaf.
Qed.

Lemma on_error_files job i o e : preserves keeps_files (on_error job i o e).
Proof. unfold on_error. preserving files_leaf. Qed.

Lemma on_close_files job i o code err : preserves keeps_files (on_close job i o code err).
Proof. unfold on_close, close_catch. preserving files_leaf. Qed.

End EngineFilesHandlers.

Section EngineFilesSteps.
Import JS Database Scanner Encoder Scheduler System Properties.
Context {R : runtime}.
Local Open Scope Z_scope.
Local Open Scope js_scope.

(** The close listener never reaches [replaceOriginalFile]: the statement
    that would record [replacing_file] is refused. *)
Lemma on_close_1_files job i o stat : preserves keeps_files (on_close_1 job i o stat).
Proof.
  unfold on_close_1, close_catch.
  apply (preserves_try_catch keeps_files); [|intros ?; preserving files_leaf].
  destruct stat; [|preserving files_leaf]. cbv zeta.
  apply (preserves_bind_throws keeps_files); [apply updateStatus_files|].
  intros s. eexists. rewrite updateStatus_throws by reflexivity. reflexivity.
Qed.

Lemma processEncodingQueue_files : preserves keeps_files processEncodingQueue.
Proof.
  unfold processEncodingQueue.
  preserving ltac:(first [apply startEncodingJob_files | files_leaf]).
Qed.

Lemma restartJob_files jobId : preserves keeps_files (restartJob jobId).
Proof. unfold restartJob. preserving files_leaf. Qed.

Lemma pauseQueue_files : preserves keeps_files pauseQueue.
Proof. unfold pauseQueue. preserving files_leaf. Qed.

Lemma resumeQueue_files : preserves keeps_files resumeQueue.
Proof.
  unfold resumeQueue.
  preserving ltac:(first [apply processEncodingQueue_files | files_leaf]).
Qed.

Lemma setMaxParallelJobs_files n : preserves keeps_files (setMaxParallelJobs n).
Proof. unfold setMaxParallelJobs. preserving files_leaf. Qed.

Lemma checkIfScheduleShouldBeActive_files item now :
  preserves keeps_files (checkIfScheduleShouldBeActive item now).
Proof.
  unfold checkIfScheduleShouldBeActive.
  preserving ltac:(first [apply resumeQueue_files | apply pauseQueue_files
                         | apply setMaxParallelJobs_files]).
Qed.

Lemma startJob_files item : preserves keeps_files (startJob item).
Proof.
  unfold startJob.
  preserving ltac:(first [apply resumeQueue_files | apply setMaxParallelJobs_files]).
Qed.

Lemma no_replace_pending_tasks s t :
  no_replace_pending s -> In t (tasks s) -> before_replace t = true.
Proof. unfold no_replace_pending. rewrite forallb_forall. auto. Qed.

Lemma keeps_files_pending s s' :
  no_replace_pending s -> keeps_files s s' -> no_replace_pending s'.
Proof.
  intros H [_ T]. unfold no_replace_pending. apply forallb_forall. intros t Ht.
  destruct (T t Ht) as [Hin | Hb]; [eapply no_replace_pending_tasks; eauto | exact Hb].
Qed.

Lemma delete_task_files i s : keeps_files s (set_tasks (delete i (tasks s)) s).
Proof.
  split; [reflexivity|]. cbn. intros t Ht. left.
  apply list_elem_of_In. eapply elem_of_sublist; [apply list_elem_of_In, Ht|].
  apply sublist_delete.
Qed.

(** A task that is not inside [replaceOriginalFile] resumes without writing
    a file and without entering [replaceOriginalFile]. *)
Lemma continuation_files t o k :
  before_replace t = true -> continuation t o = Some k -> preserves keeps_files k.
Proof.
  intros Ht Hk. destruct t; try discriminate Ht; destruct o; try discriminate Hk;
    injection Hk as <-.
  - apply startEncodingJob_1_files.
  - apply startEncodingJob_2_files.
  - apply on_error_files.
  - apply on_close_files.
  - apply on_close_1_files.
Qed.

Lemma resume_files i o s : no_replace_pending s -> keeps_files s (resume i o s).
Proof.
  intros H. unfold resume.
  destruct (tasks s !! i) as [t|] eqn:Ei; [|apply kept_refl].
  destruct (continuation t o) as [k|] eqn:Ek; [|apply kept_refl].
  eapply kept_trans; [apply delete_task_files|].
  apply (preserves_detached keeps_files).
  eapply continuation_files; [|exact Ek].
  eapply no_replace_pending_tasks; [exact H|].
  apply list_elem_of_In. eapply list_elem_of_lookup_2. exact Ei.
Qed.

(** No event writes a file or enters [replaceOriginalFile], as long as no
    task is inside it already. *)
Lemma step_files e s : no_replace_pending s -> keeps_files s (step e s).
Proof.
  intros H. destruct e; cbn [step].
  - apply keeps_files_same; reflexivity.
  - apply processEncodingQueue_files.
  - apply resume_files, H.
  - apply restartJob_files.
  - apply pauseQueue_files.
  - apply resumeQueue_files.
  - apply setMaxParallelJobs_files.
  - apply checkIfScheduleShouldBeActive_files.
  - apply startJob_files.
  - apply pauseQueue_files.
  - apply keeps_files_same; reflexivity.
  - apply keeps_files_same; reflexivity.
Qed.

Lemma run_files es : forall s,
  no_replace_pending s -> keeps_files s (run es s) /\ no_replace_pending (run es s).
Proof.
  induction es as [|e es IH]; intros s H; cbn.
  - split; [apply kept_refl | exact H].
  - pose proof (step_files e s H) as Hs.
    destruct (IH (step e s)) as [H1 H2]; [eapply keeps_files_pending; eauto|].
    split; [eapply kept_trans; eauto | exact H2].
Qed.

End EngineFilesSteps.

(** ** The dispatch engine: the source file *)

Section SourceFileClaim.
Import JS Database Scanner Encoder Scheduler System Properties.
Local Open Scope Z_scope.
Local Open Scope js_scope.

(** C1: in every state the process reaches, the media file of every job
    that is not [completed] holds the bytes it held in any earlier state, so
    also those it held before the job began encoding; and no event changes
    them.  (No event of a reachable state writes a file at all:
    [replaceOriginalFile] is never entered.) *)
Theorem source_file_untouched_unless_completed
    {R : runtime} d fs now es1 es2 (v : job_view) :
  let s1 := run es1 (initial d fs now) in
  let s2 := run es2 s1 in
  In v (joined (store s2)) ->
  status (v_job v) <> completed ->
  files s2 !! v_file_path v = files s1 !! v_file_path v
  /\ forall e, files (step e s2) !! v_file_path v = files s2 !! v_file_path v.
Proof.
  intros s1 s2 _ _.
  destruct (run_files es1 (initial d fs now)) as [_ H1]; [reflexivity|].
  destruct (run_files es2 s1 H1) as [[F _] H2].
  split; [fold s2 in F; rewrite F; reflexivity|].
  intros e. destruct (step_files e s2 H2) as [F' _]. rewrite F'. reflexivity.
Qed.

(** Job 1 is started and its encoder exits with code 0; the job is still
    [processing] and the film holds its bytes. *)
Lemma source_file_untouched_witness :
  files (run (R := Posix.posix)
             [Resume 0 (ProcessClose (Some 0) ""); Resume 0 (Stat (Ret 400000000))]
             (run (R := Posix.posix) Examples.start_job_1 Examples.scanned))
    !! "/lib/Movie.mkv"
  = files (run (R := Posix.posix) Examples.start_job_1 Examples.scanned) !! "/lib/Movie.mkv".
Proof.
  refine (proj1 (source_file_untouched_unless_completed (R := Posix.posix)
            Examples.db_scanned {[ "/lib/Movie.mkv" := Examples.movie_bytes ]} 20
            Examples.start_job_1
            [Resume 0 (ProcessClose (Some 0) ""); Resume 0 (Stat (Ret 400000000))]
            (mkJobView
               (mkJob 1 1 processing 9 (Some "/tmp/plex-encoder/Movie_hevc_temp.mkv")
                      1000000000 None None (Some 20) None None 0 11)
               "Movie" None "/lib/Movie.mkv" "h264") _ _)).
  - vm_compute. left. reflexivity.
  - discriminate.
Defined.

End SourceFileClaim.

(** ** The dispatch engine: a polling pass and the limit *)

Section PollingClaim.
Import JS Database Scanner Encoder Scheduler System Properties.
Context {R : runtime}.
Local Open Scope Z_scope.
Local Open Scope js_scope.

Lemma getJobsByStatus_length st limit d :
  0 <= limit -> Z.of_nat (length (getJobsByStatus st limit d)) <= limit.
Proof. intros H. unfold getJobsByStatus. apply limit_offset_length, H. Qed.

(** The part of [startEncodingJob] that runs inside the pass never throws:
    it takes a slot, records [processing] and suspends. *)
Lemma startEncodingJob_runs job s :
  startEncodingJob job s =
  (Ret tt,
   set_tasks (tasks s ++ [AwaitEnsureTempDir job])
     (set_store (snd (updateJobStatus (clock s) (j_id (v_job job)) processing [] (store s)))
        (set_activeJobs (activeJobs s + 1) s))).
Proof.
  unfold startEncodingJob, try_catch, bind, incr_activeJobs, modify, suspend.
  cbn. rewrite updateStatus_returns by discriminate.
  unfold updateJobStatus. rewrite prepare_update_stamp. reflexivity.
Qed.

Lemma start_all jobs : forall s,
  exists s',
    for_each jobs (fun job => detached (startEncodingJob job)) s = (Ret tt, s')
    /\ activeJobs s' = activeJobs s + Z.of_nat (length jobs)
    /\ tasks s' = tasks s ++ List.map AwaitEnsureTempDir jobs
    /\ maxParallelJobs s' = maxParallelJobs s
    /\ isQueuePaused s' = isQueuePaused s.
Proof.
  induction jobs as [|job jobs IH]; intros s.
  - exists s. cbn. rewrite app_nil_r. repeat split; lia.
  - cbn [for_each]. unfold bind at 1. unfold detached at 1.
    rewrite startEncodingJob_runs. cbn [fst snd].
    destruct (IH (set_tasks (tasks s ++ [AwaitEnsureTempDir job])
       (set_store (snd (updateJobStatus (clock s) (j_id (v_job job)) processing [] (store s)))
          (set_activeJobs (activeJobs s + 1) s)))) as (s' & E & A & T & Mx & Pz).
    exists s'. split; [exact E|]. cbn in A, T, Mx, Pz.
    repeat split; [rewrite A; cbn [length]; lia | | exact Mx | exact Pz].
    rewrite T, <- app_assoc. reflexivity.
Qed.

(** C3: one pass of [processEncodingQueue] starts at most
    [maxParallelJobs - activeJobs] jobs, none when the queue is paused or
    when no slot is free; each job started takes one slot and leaves one
    suspended task.  [setMaxParallelJobs] sets the limit to the larger of 1
    and its argument and changes nothing else: no task, no slot, no entry of
    [activeJobsMap], no row and no file. *)
Theorem polling_pass_respects_the_limit s :
  (exists started s',
     processEncodingQueue s = (Ret started, s')
     /\ Z.of_nat (length started) <= Z.max 0 (maxParallelJobs s - activeJobs s)
     /\ (isQueuePaused s = true -> started = [])
     /\ (maxParallelJobs s <= activeJobs s -> started = [])
     /\ activeJobs s' = activeJobs s + Z.of_nat (length started)
     /\ tasks s' = tasks s ++ List.map AwaitEnsureTempDir started)
  /\ forall count,
       setMaxParallelJobs count s
       = (Ret (Z.max 1 count), set_maxParallelJobs (Z.max 1 count) s)
       /\ 1 <= maxParallelJobs (snd (setMaxParallelJobs count s))
       /\ tasks (snd (setMaxParallelJobs count s)) = tasks s
       /\ activeJobs (snd (setMaxParallelJobs count s)) = activeJobs s
       /\ activeJobsMap (snd (setMaxParallelJobs count s)) = activeJobsMap s
       /\ store (snd (setMaxParallelJobs count s)) = store s
       /\ files (snd (setMaxParallelJobs count s)) = files s.
Proof.
  split.
  - unfold processEncodingQueue, try_catch, bind at 1, gets at 1.
    cbn [fst snd]. destruct (isQueuePaused s) eqn:Ep.
    { exists [], s. cbn. rewrite app_nil_r. repeat split; auto; lia. }
    unfold bind at 1, gets at 1. cbn [fst snd].
    destruct (maxParallelJobs s - activeJobs s <=? 0) eqn:Es.
    { exists [], s. cbn. rewrite app_nil_r. apply Z.leb_le in Es. repeat split; auto; lia. }
    apply Z.leb_gt in Es.
    unfold bind at 1, gets at 1. cbn [fst snd].
    pose proof (getJobsByStatus_length queued (maxParallelJobs s - activeJobs s) (store s)) as Hl.
    destruct (getJobsByStatus queued (maxParallelJobs s - activeJobs s) (store s))
      as [|job jobs] eqn:Ej.
    { exists [], s. cbn. rewrite app_nil_r. repeat split; auto; lia. }
    destruct (start_all (job :: jobs) s) as (s' & E & A & T & _ & _).
    unfold bind at 1. rewrite E. cbn [ret].
    exists (job :: jobs), s'. split; [reflexivity|].
    split; [lia|]. split; [discriminate|]. split; [lia|]. split; [exact A | exact T].
  - intros count. repeat split. cbn. lia.
Qed.

End PollingClaim.

(** ** The dispatch engine: retry and the slot counter *)

Section RetryAndSlots.
Import JS Database Scanner Encoder Scheduler System Properties.
Local Open Scope Z_scope.
Local Open Scope js_scope.

(** The statements [updateJobStatus] prepares for the calls of
    [startEncodingJob] and of [restartJob]. *)
Example update_sql_processing :
  update_sql processing [F_temp_file_path "/tmp/plex-encoder/Movie_hevc_temp.mkv"]
  = "UPDATE encoding_jobs SET status = ?, temp_file_path = ?, started_at = CURRENT_TIMESTAMP WHERE id = ?".
Proof. reflexivity. Qed.

Example update_sql_queued :
  update_sql queued [F_retries 1; F_error_message None]
  = "UPDATE encoding_jobs SET status = ?, retries = ?, error_message = ?,  WHERE id = ?".
Proof. reflexivity. Qed.

(** What [restartJob] does, case by case: an unknown id and a job that is not
    [failed] are refused and nothing is written; for a [failed] job the
    statement that would set [queued], the retry count and the error text is
    malformed, so the call throws as well and the row stays as it is. *)
Lemma restartJob_outcome jobId s :
  restartJob jobId s =
  match getJobById jobId (store s) with
  | None => (Throw (JobNotFound jobId), s)
  | Some job =>
      if bool_decide (status (v_job job) = failed)
      then (Throw (SqliteSyntaxError "WHERE"), s)
      else (Throw (JobNotFailed jobId), s)
  end.
Proof.
  unfold restartJob, bind at 1, gets. cbn [fst snd].
  destruct (getJobById jobId (store s)) as [job|]; [|reflexivity].
  destruct (bool_decide (status (v_job job) = failed)); [|reflexivity].
  unfold bind. rewrite updateStatus_throws by reflexivity. reflexivity.
Qed.

(** C7 at a failed job: the store holds job 1 in [failed] with no retry yet;
    [restartJob 1] throws the syntax error of the UPDATE statement and the
    state, the job row included, is what it was: the job is not queued again,
    its retry count is not incremented, its error text is not cleared. *)
Theorem restartJob_of_a_failed_job_throws :
  let s := initial Examples.db_failed ∅ 30 in
  List.map (fun j => (j_id j, status j, retries j)) (tbl_encoding_jobs (store s))
  = [(1, failed, 0)]
  /\ restartJob 1 s = (Throw (SqliteSyntaxError "WHERE"), s).
Proof. split; reflexivity. Qed.

(** The close listener on a non-zero exit code: the UPDATE to [failed] is
    refused first, so the slot is not released, the entry of [activeJobsMap]
    stays and the row is not touched. *)
Lemma on_close_failure job i o code stderrData s :
  code <> Some 0 ->
  on_close job i o code stderrData s = (Throw (SqliteSyntaxError "WHERE"), s).
Proof.
  intros H. unfold on_close. rewrite bool_decide_eq_false_2 by exact H.
  unfold bind. rewrite updateStatus_throws by reflexivity. reflexivity.
Qed.

(** C10 at an encoder that exits with code 1: job 1 is started and its
    process closes with code 1.  Afterwards no task of the job is left, yet
    [activeJobs] is still 1, [activeJobsMap] still has the entry of job 1,
    the job is still [processing], and the syntax error of the UPDATE
    statement went uncaught. *)
Theorem encoder_exit_keeps_the_slot :
  let s := run (R := Posix.posix)
             (Examples.start_job_1 ++ [Resume 0 (ProcessClose (Some 1) "Conversion failed!")])
             Examples.scanned in
  tasks s = []
  /\ activeJobs s = 1
  /\ is_Some (activeJobsMap s !! 1)
  /\ List.map (fun j => (j_id j, status j, error_message j)) (tbl_encoding_jobs (store s))
     = [(1, processing, None)]
  /\ uncaught s = [SqliteSyntaxError "WHERE"].
Proof.
  vm_compute. repeat split; eauto.
Qed.

End RetryAndSlots.

(** ** The job ledger *)

Section JobsKept.
Import JS Database Scanner Encoder Scheduler System Properties.
Context {R : runtime}.
Local Open Scope Z_scope.
Local Open Scope js_scope.

Lemma jobs_kept_rows d d' :
  tbl_encoding_jobs d' = tbl_encoding_jobs d -> jobs_kept d d'.
Proof. intros E j Hj. exists j. rewrite E. auto. Qed.

Lemma updateStatus_jobs jobId st data : preserves keeps_jobs (updateStatus jobId st data).
Proof.
  intros s. unfold updateStatus, keeps_jobs.
  pose proof (updateJobStatus_jobs_kept (clock s) jobId st data (store s)) as H.
  destruct (updateJobStatus _ _ _ _ _). exact H.
Qed.

Lemma modify_jobs f : (forall s, store (f s) = store s) -> preserves keeps_jobs (modify f).
Proof. intros H s. apply keeps_jobs_same, H. Qed.

Lemma mark_jobs mediaId codec size :
  preserves keeps_jobs
    (modify (fun s => set_store (markMediaAsEncoded (clock s) mediaId codec size (store s)) s)).
Proof. intros s. apply jobs_kept_rows. reflexivity. Qed.

Lemma createEncodingJob_jobs_kept now mediaId priority d :
  jobs_kept d (snd (createEncodingJob now mediaId priority d)).
Proof.
  unfold createEncodingJob. destruct (find_media mediaId d); [|apply jobs_kept_refl].
  intros j Hj. exists j. cbn. rewrite in_app_iff. auto.
Qed.

Lemma create_jobs_jobs_kept now l : forall d, jobs_kept d (snd (create_jobs now l d)).
Proof.
  induction l as [|m l IH]; intros d; cbn [create_jobs]; [apply jobs_kept_refl|].
  pose proof (createEncodingJob_jobs_kept now (m_id m)
                (file_size_bytes m / (1024 * 1024 * 100)) d) as H.
  destruct (createEncodingJob _ _ _ _) as [[id|e] d']; cbn [snd] in *; [|exact H].
  eapply jobs_kept_trans; [exact H | apply IH].
Qed.

Lemma queueEncodingJobs_jobs_kept now d : jobs_kept d (snd (queueEncodingJobs now d)).
Proof.
  unfold queueEncodingJobs.
  pose proof (create_jobs_jobs_kept now (getMediaNeedingEncoding 100 0 d) d) as H.
  destruct (create_jobs _ _ _) as [[[]|e] d']; exact H.
Qed.

End JobsKept.

Ltac jobs_leaf :=
  first
    [ apply updateStatus_jobs
    | apply mark_jobs
    | apply modify_jobs; intros ?; reflexivity ].

Section JobsKeptHandlers.
Import JS Database Scanner Encoder Scheduler System Properties.
Context {R : runtime}.
Local Open Scope Z_scope.
Local Open Scope js_scope.

Lemma startEncodingJob_jobs job : preserves keeps_jobs (startEncodingJob job).
Proof. unfold startEncodingJob, startEncodingJob_catch. preserving jobs_leaf. Qed.

Lemma replace_catch_jobs jobId e : preserves keeps_jobs (replace_catch jobId e).
Proof. unfold replace_catch. preserving jobs_leaf. Qed.

Lemma close_catch_jobs job e : preserves keeps_jobs (close_catch job e).
Proof. unfold close_catch. preserving jobs_leaf. Qed.

Lemma in_replace_jobs job jobId body :
  preserves keeps_jobs body -> preserves keeps_jobs (in_replace job jobId body).
Proof.
  intros H. unfold in_replace.
  preserving ltac:(first [exact H | apply replace_catch_jobs | apply close_catch_jobs]).
Qed.

(** Whatever resumes, no job row is deleted. *)
Lemma continuation_jobs t o k : continuation t o = Some k -> preserves keeps_jobs k.
Proof.
  intros Hk. destruct t, o; try discriminate Hk; injection Hk as <-.
  - unfold startEncodingJob_1, startEncodingJob_catch. preserving jobs_leaf.
  - unfold startEncodingJob_2, startFFmpegEncoding, startEncodingJob_catch.
    preserving jobs_leaf.
  - unfold on_error. preserving jobs_leaf.
  - unfold on_close, close_catch. preserving jobs_leaf.
  - unfold on_close_1, replaceOriginalFile.
    preserving ltac:(first [apply in_replace_jobs | apply close_catch_jobs | jobs_leaf]).
  - unfold replaceOriginalFile_1. apply in_replace_jobs. preserving jobs_leaf.
  - unfold replaceOriginalFile_2. apply in_replace_jobs. preserving jobs_leaf.
  - unfold replaceOriginalFile_3. apply in_replace_jobs. preserving jobs_leaf.
  - unfold replaceOriginalFile_4, after_move. apply in_replace_jobs. preserving jobs_leaf.
Qed.

Lemma processEncodingQueue_jobs : preserves keeps_jobs processEncodingQueue.
Proof.
  unfold processEncodingQueue.
  preserving ltac:(first [apply startEncodingJob_jobs | jobs_leaf]).
Qed.

Lemma resumeQueue_jobs : preserves keeps_jobs resumeQueue.
Proof.
  unfold resumeQueue. preserving ltac:(first [apply processEncodingQueue_jobs | jobs_leaf]).
Qed.

Lemma setMaxParallelJobs_jobs n : preserves keeps_jobs (setMaxParallelJobs n).
Proof. unfold setMaxParallelJobs. preserving jobs_leaf. Qed.

Lemma pauseQueue_jobs : preserves keeps_jobs pauseQueue.
Proof. unfold pauseQueue. preserving jobs_leaf. Qed.

Lemma resume_jobs i o s : keeps_jobs s (resume i o s).
Proof.
  unfold resume.
  destruct (tasks s !! i) as [t|]; [|apply kept_refl].
  destruct (continuation t o) as [k|] eqn:Ek; [|apply kept_refl].
  exact (preserves_detached keeps_jobs k (continuation_jobs _ _ _ Ek)
           (set_tasks (delete i (tasks s)) s)).
Qed.

(** A job survives an upsert unless it refers to a row with the upserted
    path. *)
Lemma addMedia_job_kept now mi d j :
  In j (tbl_encoding_jobs d) ->
  (forall m, In m (tbl_media d) -> m_id m = media_id j -> file_path m <> mi_file_path mi) ->
  In j (tbl_encoding_jobs (snd (addMedia now mi d))).
Proof.
  intros Hj Hm. cbn. apply filter_In. split; [exact Hj|].
  apply negb_true_iff. unfold refers_to.
  destruct (existsb _ _) eqn:E; [|reflexivity]. exfalso.
  apply existsb_exists in E as (i & Hi & Ei). apply bool_decide_eq_true in Ei.
  apply in_map_iff in Hi as (m & <- & Hin). apply filter_In in Hin as [Hin Hp].
  apply has_path_true in Hp. apply (Hm m Hin); [symmetry; exact Ei | exact Hp].
Qed.

(** And a job that refers to such a row does not. *)
Lemma addMedia_cascade now mi d m j :
  In m (tbl_media d) -> file_path m = mi_file_path mi ->
  In j (tbl_encoding_jobs (snd (addMedia now mi d))) -> media_id j <> m_id m.
Proof.
  intros Hm Hp Hj E. cbn in Hj. apply filter_In in Hj as [_ Hj].
  apply negb_true_iff in Hj.
  assert (H : refers_to (List.map m_id (List.filter (has_path (mi_file_path mi)) (tbl_media d))) j
              = true); [|congruence].
  apply existsb_exists. exists (m_id m). split; [|apply bool_decide_eq_true; exact E].
  apply in_map. apply filter_In. split; [exact Hm | apply has_path_true, Hp].
Qed.

Lemma processMediaFile_job_kept now filePath fileSize probe d j :
  In j (tbl_encoding_jobs d) ->
  (forall m, In m (tbl_media d) -> m_id m = media_id j -> file_path m <> filePath) ->
  In j (tbl_encoding_jobs (snd (processMediaFile now filePath fileSize probe d))).
Proof.
  intros Hj Hm. unfold processMediaFile.
  destruct probe as [streams|e]; [|exact Hj].
  destruct (List.find _ streams) as [videoStream|]; [|exact Hj].
  destruct (extractMediaInfo filePath) as [[title episodeName] mediaType].
  destruct (codec_name videoStream) as [codec|]; [|exact Hj].
  match goal with
  | |- context [addMedia now ?mi d] =>
      pose proof (addMedia_job_kept now mi d j Hj Hm) as H;
      destruct (addMedia now mi d)
  end.
  exact H.
Qed.

End JobsKeptHandlers.

Section LedgerClaim.
Import JS Database Scanner Encoder Scheduler System Properties.
Local Open Scope Z_scope.
Local Open Scope js_scope.

Lemma step_jobs {R : runtime} e s : is_upsert e = false -> keeps_jobs s (step e s).
Proof.
  intros He. destruct e; try discriminate He; cbn [step].
  - apply keeps_jobs_same. reflexivity.
  - apply processEncodingQueue_jobs.
  - apply resume_jobs.
  - assert (preserves keeps_jobs (restartJob jobId)) as H
      by (unfold restartJob; preserving jobs_leaf).
    apply H.
  - apply pauseQueue_jobs.
  - apply resumeQueue_jobs.
  - apply setMaxParallelJobs_jobs.
  - assert (preserves keeps_jobs (checkIfScheduleShouldBeActive item now)) as H
      by (unfold checkIfScheduleShouldBeActive;
          preserving ltac:(first [apply resumeQueue_jobs | apply pauseQueue_jobs
                                 | apply setMaxParallelJobs_jobs])).
    apply H.
  - assert (preserves keeps_jobs (startJob item)) as H
      by (unfold startJob;
          preserving ltac:(first [apply resumeQueue_jobs | apply setMaxParallelJobs_jobs])).
    apply H.
  - apply pauseQueue_jobs.
  - apply (queueEncodingJobs_jobs_kept (clock s) (store s)).
Qed.

Lemma run_jobs {R : runtime} es : forall s,
  existsb is_upsert es = false -> keeps_jobs s (run es s).
Proof.
  induction es as [|e es IH]; intros s H; cbn [run fold_left].
  - apply kept_refl.
  - cbn [existsb] in H. apply orb_false_iff in H as [He Hes].
    eapply (kept_trans (P := keeps_jobs)); [apply step_jobs, He|].
    apply IH, Hes.
Qed.

(** C5, as the code has it: no sequence of admission, dispatch, retry and
    control events deletes a job row; every job of the store is there
    afterwards, under its id and for its media id.  The upsert of a media
    file is the exception: a job survives it when the row it refers to has
    another path, and the jobs that refer to a row with the upserted path are
    deleted with that row (ON DELETE CASCADE). *)
Theorem jobs_are_deleted_only_with_their_media {R : runtime} s :
  (forall es, existsb is_upsert es = false -> jobs_kept (store s) (store (run es s)))
  /\ (forall filePath fileSize probe j,
        In j (tbl_encoding_jobs (store s)) ->
        (forall m, In m (tbl_media (store s)) -> m_id m = media_id j ->
                   file_path m <> filePath) ->
        In j (tbl_encoding_jobs (store (step (ProcessMediaFile filePath fileSize probe) s))))
  /\ (forall now mi m j,
        In m (tbl_media (store s)) -> file_path m = mi_file_path mi ->
        In j (tbl_encoding_jobs (snd (addMedia now mi (store s)))) ->
        media_id j <> m_id m).
Proof.
  split; [|split].
  - intros es H. apply (run_jobs es s H).
  - intros filePath fileSize probe j Hj Hm. cbn.
    apply processMediaFile_job_kept; assumption.
  - intros now mi m j. apply addMedia_cascade.
Qed.

(** Job 1 of the film is still there after it was started and its encoder
    exited, and after another file arrived. *)
Lemma jobs_kept_witness :
  (exists j, In j (tbl_encoding_jobs (store
               (run (R := Posix.posix)
                    (Examples.start_job_1 ++ [Resume 0 (ProcessClose (Some 1) "")])
                    Examples.scanned)))
             /\ j_id j = 1 /\ media_id j = 1)
  /\ In (mkJob 1 1 queued 9 None 1000000000 None None None None None 0 11)
        (tbl_encoding_jobs (store
           (step (R := Posix.posix)
                 (ProcessMediaFile "/lib/Other.mkv" 5000 Examples.h264) Examples.scanned))).
Proof.
  destruct (jobs_are_deleted_only_with_their_media (R := Posix.posix) Examples.scanned)
    as (H1 & H2 & _).
  split.
  - exact (H1 (Examples.start_job_1 ++ [Resume 0 (ProcessClose (Some 1) "")]) eq_refl
              (mkJob 1 1 queued 9 None 1000000000 None None None None None 0 11)
              (or_introl eq_refl)).
  - apply H2; [left; reflexivity|].
    intros m [<- | []] _ Hp. discriminate Hp.
Defined.

(** C5 fails as stated: the library is scanned and the film gets job 1; the
    library is scanned again, the film's row is replaced, and job 1 is gone
    from the table (the job the second scan admits is job 2, for media 2). *)
Lemma rescan_deletes_the_job :
  let d := snd (scanLibrary (R := Posix.posix) 31 "/lib" Examples.lib Examples.db_scanned) in
  job_ids Examples.db_scanned = [1]
  /\ List.map (fun j => (j_id j, media_id j)) (tbl_encoding_jobs d) = [(2, 2)]
  /\ List.find (fun j => bool_decide (j_id j = 1)) (tbl_encoding_jobs d) = None.
Proof. repeat split; vm_compute; reflexivity. Qed.

End LedgerClaim.

(** ** The window scheduler *)

#[export] Instance keeps_control_kept : Properties.Kept Properties.keeps_control.
Proof.
  split.
  - intros s. split; reflexivity.
  - intros a b c [P1 M1] [P2 M2]. split; congruence.
  - intros s u. split; reflexivity.
Qed.

Section SchedulerClaim.
Import JS Database Scanner Encoder Scheduler System Properties.
Local Open Scope Z_scope.
Local Open Scope js_scope.

Lemma updateStatus_control jobId st data : preserves keeps_control (updateStatus jobId st data).
Proof.
  intros s. unfold updateStatus. destruct (updateJobStatus _ _ _ _ _). split; reflexivity.
Qed.

Lemma modify_control f :
  (forall s, isQueuePaused (f s) = isQueuePaused s) ->
  (forall s, maxParallelJobs (f s) = maxParallelJobs s) ->
  preserves keeps_control (modify f).
Proof. intros F T s. split; [apply F | apply T]. Qed.

(** A polling pass changes neither the pause flag nor the limit. *)
Lemma processEncodingQueue_control : preserves keeps_control processEncodingQueue.
Proof.
  unfold processEncodingQueue, startEncodingJob, startEncodingJob_catch.
  preserving ltac:(first [apply updateStatus_control
                         | apply modify_control; intros ?; reflexivity]).
Qed.

Lemma resumeQueue_control s :
  isQueuePaused (snd (resumeQueue s)) = false
  /\ maxParallelJobs (snd (resumeQueue s)) = maxParallelJobs s.
Proof.
  unfold resumeQueue, bind at 1, modify. cbn [fst snd].
  destruct (processEncodingQueue_control (set_isQueuePaused false s)) as [Hp Hm].
  unfold bind. destruct (processEncodingQueue _) as [[l|e] s']; exact (conj Hp Hm).
Qed.

Lemma processEncodingQueue_returns s : exists l, fst (processEncodingQueue s) = Ret l.
Proof.
  unfold processEncodingQueue, try_catch.
  match goal with |- context [match ?b s with _ => _ end] => destruct (b s) as [[l|e] s'] end;
    cbn; eauto.
Qed.

Lemma resumeQueue_returns s : fst (resumeQueue s) = Ret tt.
Proof.
  unfold resumeQueue, bind at 1, modify. cbn [fst snd]. unfold bind.
  destruct (processEncodingQueue_returns (set_isQueuePaused false s)) as [l Hl].
  destruct (processEncodingQueue _) as [[l'|e] s1]; [reflexivity | discriminate Hl].
Qed.

Lemma setMaxParallelJobs_after count s :
  snd (setMaxParallelJobs count s) = set_maxParallelJobs (Z.max 1 count) s.
Proof. reflexivity. Qed.

Lemma checkIfScheduleShouldBeActive_state {R : runtime} item now s :
  snd (checkIfScheduleShouldBeActive item now s)
  = if includes_day (daysArray item) (getDay now) && in_window item now
    then snd (setMaxParallelJobs (max_parallel_jobs item) (snd (resumeQueue s)))
    else snd (pauseQueue s).
Proof.
  unfold checkIfScheduleShouldBeActive.
  destruct (includes_day _ _); [|reflexivity].
  destruct (in_window item now); [|reflexivity]. cbn [andb].
  unfold bind at 1. pose proof (resumeQueue_returns s) as Hr.
  destruct (resumeQueue s) as [[[]|e] s1]; [reflexivity | discriminate Hr].
Qed.

(** C8, as the code has it: evaluated at [now], a rule pauses the queue when
    the weekday is not one of the numbers of its [days_of_week]; when it is,
    the rule resumes the queue and then calls [setMaxParallelJobs] with its
    [max_parallel_jobs], which leaves the limit at the larger of 1 and that
    value, exactly when [start_time <= currentTime <= end_time] as strings;
    otherwise it pauses the queue. *)
Theorem schedule_evaluated_now {R : runtime} item now s :
  let s' := snd (checkIfScheduleShouldBeActive item now s) in
  let today := includes_day (daysArray item) (getDay now) in
  let inside := String.leb (start_time item) (currentTime now)
                && String.leb (currentTime now) (end_time item) in
  (today = false -> s' = snd (pauseQueue s) /\ isQueuePaused s' = true)
  /\ (today = true -> inside = true ->
        s' = snd (setMaxParallelJobs (max_parallel_jobs item) (snd (resumeQueue s)))
        /\ isQueuePaused s' = false
        /\ maxParallelJobs s' = Z.max 1 (max_parallel_jobs item))
  /\ (today = true -> inside = false -> s' = snd (pauseQueue s) /\ isQueuePaused s' = true).
Proof.
  intros s' today inside. subst s' today inside.
  rewrite checkIfScheduleShouldBeActive_state.
  unfold in_window, str_ge, str_le.
  split; [|split].
  - intros ->. split; reflexivity.
  - intros -> ->. cbn [andb]. split; [reflexivity|].
    rewrite setMaxParallelJobs_after. cbn.
    split; [apply resumeQueue_control | reflexivity].
  - intros -> ->. split; reflexivity.
Qed.

(** The rule for every day from 00:00 to 23:59 with a limit of 3, on a
    Monday at 09:05: the queue runs with a limit of 3. *)
Lemma schedule_witness :
  isQueuePaused (snd (checkIfScheduleShouldBeActive (R := Posix.posix)
                        Examples.every_day Examples.monday_morning Examples.scanned)) = false
  /\ maxParallelJobs (snd (checkIfScheduleShouldBeActive (R := Posix.posix)
                        Examples.every_day Examples.monday_morning Examples.scanned)) = 3.
Proof.
  destruct (schedule_evaluated_now (R := Posix.posix)
              Examples.every_day Examples.monday_morning Examples.scanned) as (_ & H & _).
  destruct H as (_ & Hp & Hm); [reflexivity | reflexivity |].
  split; [exact Hp | exact Hm].
Defined.

(** C8 fails as stated: the same rule with a configured limit of 0, on a
    Monday at 09:05, resumes the queue, and the limit is 1, not 0. *)
Lemma limit_of_zero_becomes_one :
  let s := snd (checkIfScheduleShouldBeActive (R := Posix.posix)
                  Examples.every_day_0 Examples.monday_morning Examples.scanned) in
  max_parallel_jobs Examples.every_day_0 = 0
  /\ isQueuePaused s = false
  /\ maxParallelJobs s = 1.
Proof. repeat split. Qed.

End SchedulerClaim.

(** ** The scan *)

Section ScanClaim.
Import JS Database Scanner Encoder Scheduler System Properties.
Local Open Scope Z_scope.

(** A file whose [fs.stat] fails ends the loop over its directory: one error
    is counted for the directory and the entries after it are not looked
    at. *)
Lemma scan_stat_failure {R : runtime} dirPath file e rest st :
  scan_entries dirPath (ECons file (StatFails e) rest) st = (Throw e, st)
  /\ scanDirectory dirPath (Entries (ECons file (StatFails e) rest)) st
     = (count_error (fst st), snd st).
Proof. split; reflexivity. Qed.

(** A media file whose probe fails is counted as scanned and as an error,
    and the loop goes on with the next entry. *)
Lemma scan_probe_failure {R : runtime} dirPath file size e now rest st :
  isMediaFile file = true ->
  scan_entries dirPath (ECons file (File size (Throw e) now) rest) st
  = scan_entries dirPath rest (count_error (count_scanned (fst st)), snd st).
Proof. intros H. cbn [scan_entries]. rewrite H. reflexivity. Qed.

(** [scanLibrary] returns its counters, whatever the walk met. *)
Lemma scanLibrary_returns {R : runtime} now libraryPath root d :
  fst (scanLibrary now libraryPath root d)
  = Ret (fst (scanDirectory libraryPath root (no_results, d))).
Proof.
  unfold scanLibrary. destruct (scanDirectory _ _ _) as [r d1]. cbn [fst].
  pose proof (queueEncodingJobs_spec now d1) as (H & _).
  destruct (queueEncodingJobs now d1) as [[n|e] d2]; [reflexivity | discriminate H].
Qed.

(** C9 at a directory whose first file cannot be read by [fs.stat]: the scan
    returns with one error, and the readable film after it is neither
    counted as scanned nor recorded; without the unreadable file the same
    film is scanned, added and found to need encoding. *)
Theorem stat_failure_skips_the_rest_of_the_directory :
  scanDirectory (R := Posix.posix) "/lib" Examples.locked_then_fine (no_results, empty_db)
  = (mkResults 0 0 1 0, empty_db)
  /\ scanDirectory (R := Posix.posix) "/lib" Examples.lib (no_results, empty_db)
     = (mkResults 1 1 0 1,
        snd (addMedia 10 Examples.movie empty_db)).
Proof. split; vm_compute; reflexivity. Qed.

End ScanClaim.

(** ** Which code writes files *)

#[export] Instance same_files_kept : Properties.Kept Properties.same_files.
Proof.
  split.
  - intros s. reflexivity.
  - intros a b c H1 H2. unfold Properties.same_files in *. congruence.
  - intros s u. reflexivity.
Qed.

Section FileWrites.
Import JS Database Scanner Encoder Scheduler System Properties.
Local Open Scope Z_scope.
Local Open Scope js_scope.

Lemma updateStatus_same jobId st data : preserves same_files (updateStatus jobId st data).
Proof. intros s. unfold updateStatus. destruct (updateJobStatus _ _ _ _ _). reflexivity. Qed.

Lemma modify_same f : (forall s, files (f s) = files s) -> preserves same_files (modify f).
Proof. intros H s. apply H. Qed.

End FileWrites.

Ltac same_leaf :=
  first [ apply updateStatus_same | apply modify_same; intros ?; reflexivity ].

Section FileWritesSteps.
Import JS Database Scanner Encoder Scheduler System Properties.
Context {R : runtime}.
Local Open Scope Z_scope.
Local Open Scope js_scope.

Lemma in_replace_same job jobId body :
  preserves same_files body -> preserves same_files (in_replace job jobId body).
Proof.
  intros H. unfold in_replace, replace_catch, close_catch.
  preserving ltac:(first [exact H | same_leaf]).
Qed.

Lemma replaceOriginalFile_4_moved job p t jobId size codec bytes s :
  replaceOriginalFile_4 job p t jobId size codec (Resolved bytes) s
  = in_replace job jobId (after_move jobId size codec)
      (set_files (<[p := bytes]> (delete t (files s))) s).
Proof. reflexivity. Qed.

Lemma replaceOriginalFile_4_rejected job p t jobId size codec e dest s :
  replaceOriginalFile_4 job p t jobId size codec (Rejected e dest) s
  = in_replace job jobId (throw e) (set_files (left_at dest p (files s)) s).
Proof. reflexivity. Qed.

(** Every continuation but the one of a move that has settled leaves the
    files as they are. *)
Lemma continuation_same t o k :
  continuation t o = Some k ->
  preserves same_files k
  \/ exists job p tmp jobId size codec r,
       t = AwaitMove job p tmp jobId size codec /\ o = Moved r.
Proof.
  intros Hk. destruct t, o; try discriminate Hk; injection Hk as <-.
  - left. unfold startEncodingJob_1, startEncodingJob_catch. preserving same_leaf.
  - left. unfold startEncodingJob_2, startFFmpegEncoding, startEncodingJob_catch.
    preserving same_leaf.
  - left. unfold on_error. preserving same_leaf.
  - left. unfold on_close, close_catch. preserving same_leaf.
  - left. unfold on_close_1, replaceOriginalFile, close_catch.
    preserving ltac:(first [apply in_replace_same | same_leaf]).
  - left. unfold replaceOriginalFile_1. apply in_replace_same. preserving same_leaf.
  - left. unfold replaceOriginalFile_2. apply in_replace_same. preserving same_leaf.
  - left. unfold replaceOriginalFile_3. apply in_replace_same. preserving same_leaf.
  - right. repeat eexists.
Qed.

Lemma step_same_unless_resume e s :
  (forall i o, e <> Resume i o) -> files (step e s) = files s.
Proof.
  intros He. destruct e; cbn [step]; try reflexivity.
  - assert (preserves same_files processEncodingQueue) as H
      by (unfold processEncodingQueue, startEncodingJob, startEncodingJob_catch;
          preserving same_leaf).
    apply H.
  - contradiction (He i o). reflexivity.
  - assert (preserves same_files (restartJob jobId)) as H
      by (unfold restartJob; preserving same_leaf).
    apply H.
  - assert (preserves same_files resumeQueue) as H
      by (unfold resumeQueue, processEncodingQueue, startEncodingJob, startEncodingJob_catch;
          preserving same_leaf).
    apply H.
  - assert (preserves same_files (checkIfScheduleShouldBeActive item now)) as H
      by (unfold checkIfScheduleShouldBeActive, resumeQueue, pauseQueue, setMaxParallelJobs,
                 processEncodingQueue, startEncodingJob, startEncodingJob_catch;
          preserving same_leaf).
    apply H.
  - assert (preserves same_files (startJob item)) as H
      by (unfold startJob, resumeQueue, setMaxParallelJobs,
                 processEncodingQueue, startEncodingJob, startEncodingJob_catch;
          preserving same_leaf).
    apply H.
Qed.

(** The files after [replaceOriginalFile] has resumed from its [fs.move]:
    what the move has done to them, and nothing more. *)
Lemma files_after_the_move i job p tmp jobId size codec r s :
  tasks s !! i = Some (AwaitMove job p tmp jobId size codec) ->
  files (step (Resume i (Moved r)) s)
  = match r with
    | Resolved bytes => <[p := bytes]> (delete tmp (files s))
    | Rejected _ dest => left_at dest p (files s)
    end.
Proof.
  intros Ei. cbn [step]. unfold resume. rewrite Ei. cbn [continuation].
  destruct r as [bytes | e dest].
  - assert (preserves same_files
              (fun s0 => in_replace job jobId (after_move jobId size codec) s0)) as H.
    { apply in_replace_same. unfold after_move. preserving same_leaf. }
    pose proof (preserves_detached same_files _ H
      (set_files (<[p := bytes]> (delete tmp (files s))) (set_tasks (delete i (tasks s)) s)))
      as E.
    unfold same_files in E. cbn [files set_files] in E.
    unfold detached in *. rewrite replaceOriginalFile_4_moved. exact E.
  - assert (preserves same_files (fun s0 => in_replace job jobId (throw e) s0)) as H.
    { apply in_replace_same. preserving same_leaf. }
    pose proof (preserves_detached same_files _ H
      (set_files (left_at dest p (files s)) (set_tasks (delete i (tasks s)) s))) as E.
    unfold same_files in E. cbn [files set_files] in E.
    unfold detached in *. rewrite replaceOriginalFile_4_rejected. exact E.
Qed.

(** In any state, reachable or not, an event of the service that changes
    the bytes at a path is the resumption of [replaceOriginalFile] after its
    [fs.move] has settled.  After a move that resolved the path is the
    destination or the scratch file of the move; after a move that rejected
    it is the destination, which the move has removed or left with a copy.
    (The files are those the service finds and writes; what ffmpeg writes
    to its scratch path is not among them.) *)
Theorem only_the_move_writes_a_file e s path :
  files (step e s) !! path <> files s !! path ->
  exists i job originalPath tempPath jobId size codec r,
    e = Resume i (Moved r)
    /\ tasks s !! i = Some (AwaitMove job originalPath tempPath jobId size codec)
    /\ match r with
       | Resolved _ => path = originalPath \/ path = tempPath
       | Rejected _ dest => path = originalPath /\ dest <> Untouched
       end.
Proof.
  intros Hne.
  destruct e as [| |i o| | | | | | | | |];
    try (exfalso; apply Hne; rewrite step_same_unless_resume; [reflexivity | discriminate]).
  destruct (tasks s !! i) as [t|] eqn:Ei;
    [|contradiction Hne; cbn [step]; unfold resume; rewrite Ei; reflexivity].
  destruct (continuation t o) as [k|] eqn:Ek;
    [|contradiction Hne; cbn [step]; unfold resume; rewrite Ei, Ek; reflexivity].
  destruct (continuation_same t o k Ek)
    as [H | (job & p & tmp & jobId & size & codec & r & -> & ->)].
  - exfalso. apply Hne. cbn [step]. unfold resume. rewrite Ei, Ek.
    pose proof (preserves_detached same_files k H (set_tasks (delete i (tasks s)) s)) as E.
    unfold same_files in E. rewrite E. reflexivity.
  - exists i, job, p, tmp, jobId, size, codec, r.
    split; [reflexivity|]. split; [exact Ei|].
    rewrite (files_after_the_move i job p tmp jobId size codec r s Ei) in Hne.
    destruct r as [bytes | e dest].
    + destruct (decide (path = p)) as [|Hp]; [left; assumption|].
      destruct (decide (path = tmp)) as [|Ht]; [right; assumption|].
      exfalso. apply Hne. rewrite lookup_insert_ne by congruence.
      rewrite lookup_delete_ne by congruence. reflexivity.
    + destruct dest as [| |bytes]; cbn [left_at] in Hne.
      * contradiction Hne. reflexivity.
      * split; [|discriminate].
        destruct (decide (path = p)) as [|Hp]; [assumption|].
        exfalso. apply Hne. rewrite lookup_delete_ne by congruence. reflexivity.
      * split; [|discriminate].
        destruct (decide (path = p)) as [|Hp]; [assumption|].
        exfalso. apply Hne. rewrite lookup_insert_ne by congruence. reflexivity.
Qed.

End FileWritesSteps.

(** ** Further facts *)

Section FurtherFacts.
Import JS Database Scanner Encoder Scheduler System Properties.
Local Open Scope Z_scope.
Local Open Scope js_scope.

(** Were [replaceOriginalFile] waiting for [fs.move], a move that rejects
    after it has removed its destination would be a step that changes the
    film: the read of the destination changes, so the event is that
    resumption, at the destination. *)
Lemma only_the_move_witness :
  exists i job originalPath tempPath jobId size codec r,
    Resume 0 (Moved (Rejected (External "EIO: i/o error, rename") Removed)) = Resume i (Moved r)
    /\ tasks Examples.moving !! i
       = Some (AwaitMove job originalPath tempPath jobId size codec)
    /\ match r with
       | Resolved _ => "/lib/Movie.mkv" = originalPath \/ "/lib/Movie.mkv" = tempPath
       | Rejected _ dest => "/lib/Movie.mkv" = originalPath /\ dest <> Untouched
       end.
Proof.
  apply (only_the_move_writes_a_file (R := Posix.posix)
           (Resume 0 (Moved (Rejected (External "EIO: i/o error, rename") Removed)))
           Examples.moving "/lib/Movie.mkv").
  vm_compute. discriminate.
Defined.

(** In that state a move that rejects after the removal leaves no film at
    the path, and the job is still recorded as [replacing_file] with its
    slot taken: the UPDATE to [failed] of the catch block throws. *)
Lemma rejected_move_loses_the_film :
  let s := step (R := Posix.posix) (Resume 0 (Moved (Rejected (External "EIO: i/o error, rename") Removed)))
                Examples.moving in
  files Examples.moving !! "/lib/Movie.mkv" = Some Examples.movie_bytes
  /\ files s !! "/lib/Movie.mkv" = None
  /\ List.map (fun j => (j_id j, status j)) (tbl_encoding_jobs (store s))
     = [(1, replacing_file)]
  /\ activeJobs s = activeJobs Examples.moving.
Proof. vm_compute. repeat split. Qed.

(** In that state the move replaces the film, marks the media encoded,
    completes the job and releases the slot. *)
Lemma move_completes_the_job :
  let s := step (R := Posix.posix) (Resume 0 (Moved (Resolved Examples.encoded_bytes)))
                Examples.moving in
  files s !! "/lib/Movie.mkv" = Some Examples.encoded_bytes
  /\ List.map (fun j => (j_id j, status j, completed_at j)) (tbl_encoding_jobs (store s))
     = [(1, completed, Some 40)]
  /\ List.map (fun m => (encoding_type m, needs_encoding m, encoded_previously m))
              (tbl_media (store s)) = [("hevc", false, true)]
  /\ activeJobs s = 0
  /\ activeJobsMap s !! 1 = None
  /\ tasks s = [].
Proof. vm_compute. repeat split. Qed.

(** [updateJobStatus] runs its UPDATE for the statuses [processing] and
    [completed] only; for [queued], [replacing_file] and [failed] the
    statement is refused and the store is not written. *)
Theorem updateJobStatus_outcome now jobId st data d :
  match st with
  | processing | completed =>
      fst (updateJobStatus now jobId st data d) = Ret tt
      /\ tbl_encoding_jobs (snd (updateJobStatus now jobId st data d))
         = List.map (fun j => if bool_decide (j_id j = jobId)
                              then update_job now st data j else j)
                    (tbl_encoding_jobs d)
  | queued | replacing_file | failed =>
      updateJobStatus now jobId st data d = (Throw (SqliteSyntaxError "WHERE"), d)
  end.
Proof.
  unfold updateJobStatus. rewrite prepare_update_stamp.
  destruct st; cbn; split; reflexivity.
Qed.

(** The encoder of job 1 exits with code 1: the listener throws at once. *)
Lemma on_close_failure_witness :
  on_close (mkJobView (mkJob 1 1 processing 9 None 1000000000 None None (Some 20) None None 0 11)
                      "Movie" None "/lib/Movie.mkv" "h264")
           "/lib/Movie.mkv" "/tmp/plex-encoder/Movie_hevc_temp.mkv" (Some 1) "" Examples.scanned
  = (Throw (SqliteSyntaxError "WHERE"), Examples.scanned).
Proof. apply on_close_failure. discriminate. Defined.

(** A directory with a film ffprobe cannot read, then the readable film. *)
Lemma scan_probe_failure_witness :
  scan_entries (R := Posix.posix) "/lib"
    (ECons "Broken.mkv" (File 10 (Throw (External "Invalid data")) 9)
       (ECons "Movie.mkv" (File 1000000000 Examples.h264 10) ENil))
    (no_results, empty_db)
  = scan_entries (R := Posix.posix) "/lib"
      (ECons "Movie.mkv" (File 1000000000 Examples.h264 10) ENil)
      (mkResults 1 0 1 0, empty_db).
Proof. apply (scan_probe_failure (R := Posix.posix)). reflexivity. Defined.

(** The rule for every day from 00:00 to 23:59 is inside its window on every
    day of the week at every time of day. *)
Theorem all_day_rule_is_always_active day h m s :
  0 <= day <= 6 -> (h < 24)%nat -> (m < 60)%nat ->
  let s' := snd (checkIfScheduleShouldBeActive (R := Posix.posix)
                   Examples.every_day (mkDate day h m) s) in
  isQueuePaused s' = false /\ maxParallelJobs s' = 3.
Proof.
  intros Hd Hh Hm.
  assert (Hday : includes_day (daysArray (R := Posix.posix) Examples.every_day) day = true).
  { assert (day = 0 \/ day = 1 \/ day = 2 \/ day = 3 \/ day = 4 \/ day = 5 \/ day = 6)
      as H by lia.
    destruct H as [-> | [-> | [-> | [-> | [-> | [-> | ->]]]]]]; reflexivity. }
  assert (Hall : forallb (fun h => forallb (fun m =>
            in_window Examples.every_day (mkDate 0 h m)) (seq 0 60)) (seq 0 24) = true)
    by (vm_compute; reflexivity).
  assert (Hwin : in_window Examples.every_day (mkDate day h m) = true).
  { rewrite forallb_forall in Hall.
    specialize (Hall h). rewrite forallb_forall in Hall.
    apply (Hall ltac:(apply in_seq; lia) m). apply in_seq. lia. }
  cbv zeta. rewrite checkIfScheduleShouldBeActive_state. cbn [getDay].
  rewrite Hday, Hwin. cbn [andb]. rewrite setMaxParallelJobs_after.
  split; [apply resumeQueue_control | reflexivity].
Qed.

(** Saturday, 23:59. *)
Lemma all_day_rule_witness :
  isQueuePaused (snd (checkIfScheduleShouldBeActive (R := Posix.posix)
                        Examples.every_day (mkDate 6 23 59) Examples.scanned)) = false
  /\ maxParallelJobs (snd (checkIfScheduleShouldBeActive (R := Posix.posix)
                        Examples.every_day (mkDate 6 23 59) Examples.scanned)) = 3.
Proof.
  apply (all_day_rule_is_always_active 6 23 59 Examples.scanned); lia.
Defined.

End FurtherFacts.

(** ** No job is ever recorded as finished *)

#[export] Instance no_new_outcome_kept : Properties.Kept Properties.no_new_outcome.
Proof.
  split.
  - intros s j' Hj' _. exists j'. auto.
  - intros a b c H1 H2 j' Hj' Ho.
    destruct (H2 j' Hj' Ho) as (j1 & Hj1 & I1 & S1).
    destruct (H1 j1 Hj1) as (j0 & Hj0 & I0 & S0); [rewrite S1; exact Ho|].
    exists j0. repeat split; [assumption | congruence | congruence].
  - intros s u j' Hj' _. exists j'. auto.
Qed.

Section Outcomes.
Import JS Database Scanner Encoder Scheduler System Properties.
Local Open Scope Z_scope.
Local Open Scope js_scope.

Lemma no_new_outcome_rows s s' :
  (forall j, In j (tbl_encoding_jobs (store s')) ->
             In j (tbl_encoding_jobs (store s)) \/ outcome_status (status j) = false) ->
  no_new_outcome s s'.
Proof.
  intros H j' Hj' Ho. destruct (H j' Hj') as [Hin | Hf]; [|congruence].
  exists j'. auto.
Qed.

Lemma no_new_outcome_same s s' : store s' = store s -> no_new_outcome s s'.
Proof. intros E. apply no_new_outcome_rows. rewrite E. auto. Qed.

Lemma update_job_status now st data j : status (update_job now st data j) = st.
Proof. reflexivity. Qed.

Lemma updateStatus_outcome jobId st data :
  st <> completed -> preserves no_new_outcome (updateStatus jobId st data).
Proof.
  intros Hst s. destruct st; try contradiction;
    try (rewrite updateStatus_throws by reflexivity; apply kept_refl).
  rewrite updateStatus_returns by discriminate.
  apply no_new_outcome_rows. cbn. intros j Hj.
  apply in_map_iff in Hj as (j0 & <- & Hj0).
  destruct (bool_decide (j_id j0 = jobId)); [right; reflexivity | left; exact Hj0].
Qed.

Lemma modify_outcome f :
  (forall s, store (f s) = store s) -> preserves no_new_outcome (modify f).
Proof. intros H s. apply no_new_outcome_rows. cbn. rewrite H. auto. Qed.

End Outcomes.

Ltac outcome_leaf :=
  first
    [ apply updateStatus_outcome; discriminate
    | apply modify_outcome; intros ?; reflexivity ].

Section OutcomesSteps.
Import JS Database Scanner Encoder Scheduler System Properties.
Context {R : runtime}.
Local Open Scope Z_scope.
Local Open Scope js_scope.

Lemma continuation_outcome t o k :
  before_replace t = true -> continuation t o = Some k -> preserves no_new_outcome k.
Proof.
  intros Ht Hk. destruct t; try discriminate Ht; destruct o; try discriminate Hk;
    injection Hk as <-.
  - unfold startEncodingJob_1, startEncodingJob_catch. preserving outcome_leaf.
  - unfold startEncodingJob_2, startFFmpegEncoding, startEncodingJob_catch.
    preserving outcome_leaf.
  - unfold on_error. preserving outcome_leaf.
  - unfold on_close, close_catch. preserving outcome_leaf.
  - unfold on_close_1, close_catch.
    apply (preserves_try_catch no_new_outcome); [|intros ?; preserving outcome_leaf].
    destruct r; [|preserving outcome_leaf]. cbv zeta.
    apply (preserves_bind_throws no_new_outcome);
      [apply updateStatus_outcome; discriminate|].
    intros s. eexists. rewrite updateStatus_throws by reflexivity. reflexivity.
Qed.

Lemma processEncodingQueue_outcome : preserves no_new_outcome processEncodingQueue.
Proof.
  unfold processEncodingQueue, startEncodingJob, startEncodingJob_catch.
  preserving outcome_leaf.
Qed.

Lemma resumeQueue_outcome : preserves no_new_outcome resumeQueue.
Proof.
  unfold resumeQueue.
  preserving ltac:(first [apply processEncodingQueue_outcome | outcome_leaf]).
Qed.

Lemma addMedia_outcome now mi d j :
  In j (tbl_encoding_jobs (snd (addMedia now mi d))) -> In j (tbl_encoding_jobs d).
Proof. cbn. intros H. apply filter_In in H. tauto. Qed.

Lemma processMediaFile_outcome now filePath fileSize probe d j :
  In j (tbl_encoding_jobs (snd (processMediaFile now filePath fileSize probe d))) ->
  In j (tbl_encoding_jobs d).
Proof.
  unfold processMediaFile.
  destruct probe as [streams|e]; [|auto].
  destruct (List.find _ streams) as [videoStream|]; [|auto].
  destruct (extractMediaInfo filePath) as [[title episodeName] mediaType].
  destruct (codec_name videoStream) as [codec|]; [|auto].
  match goal with
  | |- context [addMedia now ?mi d] =>
      pose proof (addMedia_outcome now mi d j) as H; destruct (addMedia now mi d)
  end.
  exact H.
Qed.

Lemma create_jobs_outcome now l : forall d j,
  In j (tbl_encoding_jobs (snd (create_jobs now l d))) ->
  In j (tbl_encoding_jobs d) \/ status j = queued.
Proof.
  induction l as [|m l IH]; intros d j; cbn [create_jobs]; [auto|].
  unfold createEncodingJob. destruct (find_media (m_id m) d); [|auto].
  intros H. apply IH in H as [H | H]; [|auto].
  cbn in H. apply in_app_iff in H as [H | [<- | []]]; auto.
Qed.

Lemma step_outcome e s : no_replace_pending s -> no_new_outcome s (step e s).
Proof.
  intros H. destruct e; cbn [step].
  - apply no_new_outcome_same; reflexivity.
  - apply processEncodingQueue_outcome.
  - unfold resume.
    destruct (tasks s !! i) as [t|] eqn:Ei; [|apply kept_refl].
    destruct (continuation t o) as [k|] eqn:Ek; [|apply kept_refl].
    refine (preserves_detached no_new_outcome k _ (set_tasks (delete i (tasks s)) s)).
    eapply continuation_outcome; [|exact Ek].
    eapply no_replace_pending_tasks; [exact H|].
    apply list_elem_of_In. eapply list_elem_of_lookup_2. exact Ei.
  - assert (preserves no_new_outcome (restartJob jobId)) as Hp
      by (unfold restartJob; preserving outcome_leaf).
    apply Hp.
  - apply no_new_outcome_same; reflexivity.
  - apply resumeQueue_outcome.
  - apply no_new_outcome_same; reflexivity.
  - assert (preserves no_new_outcome (checkIfScheduleShouldBeActive item now)) as Hp
      by (unfold checkIfScheduleShouldBeActive, pauseQueue, setMaxParallelJobs;
          preserving ltac:(first [apply resumeQueue_outcome | outcome_leaf])).
    apply Hp.
  - assert (preserves no_new_outcome (startJob item)) as Hp
      by (unfold startJob, setMaxParallelJobs;
          preserving ltac:(first [apply resumeQueue_outcome | outcome_leaf])).
    apply Hp.
  - apply no_new_outcome_same; reflexivity.
  - apply no_new_outcome_rows. cbn. intros j Hj. left.
    eapply processMediaFile_outcome, Hj.
  - apply no_new_outcome_rows. cbn. intros j Hj.
    unfold queueEncodingJobs in Hj.
    pose proof (create_jobs_outcome (clock s) (getMediaNeedingEncoding 100 0 (store s))
                  (store s) j) as Hc.
    destruct (create_jobs _ _ _) as [[[]|e] d']; cbn [snd] in *;
      (destruct (Hc Hj) as [Hin | Hq]; [left; exact Hin | right; rewrite Hq; reflexivity]).
Qed.

(** From the start of the process on, no job enters [replacing_file],
    [completed] or [failed]: a job that has one of these statuses in a state
    the process reaches had it in the store the process started with. *)
Theorem no_job_is_ever_recorded_as_finished d fs now es j' :
  In j' (tbl_encoding_jobs (store (run es (initial d fs now)))) ->
  outcome_status (status j') = true ->
  exists j, In j (tbl_encoding_jobs d) /\ j_id j = j_id j' /\ status j = status j'.
Proof.
  assert (Hrun : forall es s, no_replace_pending s -> no_new_outcome s (run es s)).
  { clear. induction es as [|e es IH]; intros s H; cbn [run fold_left]; [apply kept_refl|].
    eapply (kept_trans (P := no_new_outcome)); [apply step_outcome, H|].
    apply IH. eapply keeps_files_pending; [exact H | apply step_files, H]. }
  intros Hj Ho. apply (Hrun es (initial d fs now) eq_refl j' Hj Ho).
Qed.

End OutcomesSteps.

(** A store that holds a failed job and nothing to start: after a polling
    pass and a retry the job is failed as before. *)
Lemma no_job_finished_witness :
  exists j, In j (Database.tbl_encoding_jobs Examples.db_failed)
            /\ Database.j_id j = 1%Z /\ Database.status j = Database.failed.
Proof.
  apply (no_job_is_ever_recorded_as_finished (R := Posix.posix)
           Examples.db_failed ∅ 30%Z
           [System.ProcessQueue; System.RestartJob 1]
           (Database.mkJob 1 1 Database.failed 9 (Some "/tmp/plex-encoder/Movie_hevc_temp.mkv")
              1000000000 None None (Some 20%Z) None
              (Some "FFmpeg encoding failed with code 1: ") 0 11)).
  - left. reflexivity.
  - reflexivity.
Defined.

(** ** Integrity of the store *)

Section StoreInvariant.
Import JS Database Scanner Encoder Scheduler System Properties.
Local Open Scope Z_scope.

Lemma NoDup_map_filter {A B} (f : A -> B) (p : A -> bool) l :
  NoDup (List.map f l) -> NoDup (List.map f (List.filter p l)).
Proof.
  rewrite !map_is_fmap. intros H.
  eapply sublist_NoDup; [exact H | apply fmap_sublist, filter_sublist].
Qed.

Lemma NoDup_map_snoc {A B} (f : A -> B) l x :
  NoDup (List.map f l) -> (forall y, In y l -> f y <> f x) ->
  NoDup (List.map f (l ++ [x])).
Proof.
  intros H Hx. rewrite List.map_app. apply NoDup_app.
  split; [exact H|]. split; [|apply NoDup_singleton].
  intros b Hb Hb'. apply list_elem_of_In in Hb, Hb'.
  apply in_map_iff in Hb as (y & <- & Hy).
  destruct Hb' as [E | []]. apply (Hx y Hy). symmetry. exact E.
Qed.

Lemma addMedia_well_formed now mi d :
  well_formed d -> well_formed (snd (addMedia now mi d)).
Proof.
  intros (Hi & Hp & Hs & Hj & Hjs & Hfk).
  unfold well_formed. rewrite addMedia_media. cbn [snd addMedia seq_media tbl_encoding_jobs seq_encoding_jobs].
  repeat split.
  - apply NoDup_map_snoc; [apply NoDup_map_filter, Hi|].
    intros y Hy. apply filter_In in Hy as [Hy _]. specialize (Hs y Hy). cbn. lia.
  - apply NoDup_map_snoc; [apply NoDup_map_filter, Hp|].
    intros y Hy E. apply filter_In in Hy as [_ Hy].
    apply negb_true_iff in Hy. cbn in E.
    apply has_path_true in E. congruence.
  - intros m Hm. apply in_app_iff in Hm as [Hm | [<- | []]]; [|cbn; lia].
    apply filter_In in Hm as [Hm _]. specialize (Hs m Hm). lia.
  - apply NoDup_map_filter, Hj.
  - intros j Hin. apply filter_In in Hin as [Hin _]. apply Hjs, Hin.
  - intros j Hin. apply filter_In in Hin as [Hin Hr].
    destruct (Hfk j Hin) as (m & Hm & Em).
    exists m. split; [|exact Em].
    apply in_app_iff. left. apply filter_In. split; [exact Hm|].
    apply negb_true_iff. destruct (has_path (mi_file_path mi) m) eqn:E; [|reflexivity].
    exfalso. apply negb_true_iff in Hr.
    assert (refers_to (List.map m_id (List.filter (has_path (mi_file_path mi)) (tbl_media d))) j
            = true); [|congruence].
    apply existsb_exists. exists (m_id m).
    split; [apply in_map, filter_In; auto | apply bool_decide_eq_true; congruence].
Qed.

Lemma createEncodingJob_well_formed now mediaId priority d :
  well_formed d -> well_formed (snd (createEncodingJob now mediaId priority d)).
Proof.
  intros (Hi & Hp & Hs & Hj & Hjs & Hfk).
  unfold createEncodingJob, find_media.
  destruct (List.find _ (tbl_media d)) as [media|] eqn:E;
    [|repeat split; assumption].
  apply find_some in E as [Hm Em]. apply bool_decide_eq_true in Em.
  unfold well_formed. cbn [snd tbl_media seq_media tbl_encoding_jobs seq_encoding_jobs].
  repeat split; try assumption.
  - apply NoDup_map_snoc; [exact Hj|].
    intros y Hy. specialize (Hjs y Hy). cbn. lia.
  - intros j Hin. apply in_app_iff in Hin as [Hin | [<- | []]]; [|cbn; lia].
    specialize (Hjs j Hin). lia.
  - intros j Hin. apply in_app_iff in Hin as [Hin | [<- | []]]; [apply Hfk, Hin|].
    exists media. split; [exact Hm | exact Em].
Qed.

Lemma map_update_ids {A B} (f : A -> B) (p : A -> bool) (g : A -> A) l :
  (forall x, f (g x) = f x) ->
  List.map f (List.map (fun x => if p x then g x else x) l) = List.map f l.
Proof.
  intros H. rewrite List.map_map. apply List.map_ext.
  intros x. destruct (p x); [apply H | reflexivity].
Qed.

Lemma updateJobStatus_well_formed now jobId st data d :
  well_formed d -> well_formed (snd (updateJobStatus now jobId st data d)).
Proof.
  intros (Hi & Hp & Hs & Hj & Hjs & Hfk).
  unfold updateJobStatus. destruct (prepare_update _); [|repeat split; assumption].
  unfold well_formed. cbn [snd tbl_media seq_media tbl_encoding_jobs seq_encoding_jobs].
  repeat split; try assumption.
  - rewrite (map_update_ids j_id); [exact Hj|]. intros j. apply update_job_ids.
  - intros j Hin. apply in_map_iff in Hin as (j0 & <- & Hin).
    specialize (Hjs j0 Hin).
    destruct (bool_decide _); [rewrite (proj1 (update_job_ids _ _ _ _)) | ]; exact Hjs.
  - intros j Hin. apply in_map_iff in Hin as (j0 & <- & Hin).
    destruct (Hfk j0 Hin) as (m & Hm & Em). exists m. split; [exact Hm|].
    destruct (bool_decide _); [rewrite (proj2 (update_job_ids _ _ _ _)) | ]; exact Em.
Qed.

Lemma markMediaAsEncoded_well_formed now mediaId codec size d :
  well_formed d -> well_formed (markMediaAsEncoded now mediaId codec size d).
Proof.
  intros (Hi & Hp & Hs & Hj & Hjs & Hfk).
  unfold well_formed, markMediaAsEncoded.
  cbn [tbl_media seq_media tbl_encoding_jobs seq_encoding_jobs].
  repeat split; try assumption.
  - rewrite (map_update_ids m_id); [exact Hi | reflexivity].
  - rewrite (map_update_ids file_path); [exact Hp | reflexivity].
  - intros m Hm. apply in_map_iff in Hm as (m0 & <- & Hm).
    specialize (Hs m0 Hm). destruct (bool_decide _); exact Hs.
  - intros j Hin. destruct (Hfk j Hin) as (m & Hm & Em).
    exists (if bool_decide (m_id m = mediaId) then mark_encoded now codec size m else m).
    split; [apply in_map_iff; exists m; auto|].
    destruct (bool_decide _); exact Em.
Qed.

End StoreInvariant.

#[export] Instance keeps_well_formed_kept : Properties.Kept Properties.keeps_well_formed.
Proof.
  split.
  - intros s H. exact H.
  - intros a b c H1 H2 H. apply H2, H1, H.
  - intros s u H. exact H.
Qed.

Section StoreInvariantEngine.
Import JS Database Scanner Encoder Scheduler System Properties.
Context {R : runtime}.
Local Open Scope Z_scope.
Local Open Scope js_scope.

Lemma updateStatus_wf jobId st data : preserves keeps_well_formed (updateStatus jobId st data).
Proof.
  intros s H. unfold updateStatus.
  pose proof (updateJobStatus_well_formed (clock s) jobId st data (store s) H) as H'.
  destruct (updateJobStatus _ _ _ _ _). exact H'.
Qed.

Lemma modify_wf f : (forall s, store (f s) = store s) -> preserves keeps_well_formed (modify f).
Proof. intros H s Hs. cbn. rewrite H. exact Hs. Qed.

Lemma mark_wf mediaId codec size :
  preserves keeps_well_formed
    (modify (fun s => set_store (markMediaAsEncoded (clock s) mediaId codec size (store s)) s)).
Proof. intros s H. apply markMediaAsEncoded_well_formed, H. Qed.

End StoreInvariantEngine.

Ltac wf_leaf :=
  first
    [ apply updateStatus_wf
    | apply mark_wf
    | apply modify_wf; intros ?; reflexivity ].

Section StoreInvariantSteps.
Import JS Database Scanner Encoder Scheduler System Properties.
Context {R : runtime}.
Local Open Scope Z_scope.
Local Open Scope js_scope.

Lemma in_replace_wf job jobId body :
  preserves keeps_well_formed body -> preserves keeps_well_formed (in_replace job jobId body).
Proof.
  intros H. unfold in_replace, replace_catch, close_catch.
  preserving ltac:(first [exact H | wf_leaf]).
Qed.

Lemma continuation_wf t o k : continuation t o = Some k -> preserves keeps_well_formed k.
Proof.
  intros Hk. destruct t, o; try discriminate Hk; injection Hk as <-.
  - unfold startEncodingJob_1, startEncodingJob_catch. preserving wf_leaf.
  - unfold startEncodingJob_2, startFFmpegEncoding, startEncodingJob_catch.
    preserving wf_leaf.
  - unfold on_error. preserving wf_leaf.
  - unfold on_close, close_catch. preserving wf_leaf.
  - unfold on_close_1, replaceOriginalFile, close_catch.
    preserving ltac:(first [apply in_replace_wf | wf_leaf]).
  - unfold replaceOriginalFile_1. apply in_replace_wf. preserving wf_leaf.
  - unfold replaceOriginalFile_2. apply in_replace_wf. preserving wf_leaf.
  - unfold replaceOriginalFile_3. apply in_replace_wf. preserving wf_leaf.
  - unfold replaceOriginalFile_4, after_move. apply in_replace_wf. preserving wf_leaf.
Qed.

Lemma processEncodingQueue_wf : preserves keeps_well_formed processEncodingQueue.
Proof.
  unfold processEncodingQueue, startEncodingJob, startEncodingJob_catch.
  preserving wf_leaf.
Qed.

Lemma resumeQueue_wf : preserves keeps_well_formed resumeQueue.
Proof.
  unfold resumeQueue. preserving ltac:(first [apply processEncodingQueue_wf | wf_leaf]).
Qed.

Lemma processMediaFile_well_formed now filePath fileSize probe d :
  well_formed d -> well_formed (snd (processMediaFile now filePath fileSize probe d)).
Proof.
  intros H. unfold processMediaFile.
  destruct probe as [streams|e]; [|exact H].
  destruct (List.find _ streams) as [videoStream|]; [|exact H].
  destruct (extractMediaInfo filePath) as [[title episodeName] mediaType].
  destruct (codec_name videoStream) as [codec|]; [|exact H].
  match goal with
  | |- context [addMedia now ?mi d] =>
      pose proof (addMedia_well_formed now mi d H) as H'; destruct (addMedia now mi d)
  end.
  exact H'.
Qed.

Lemma create_jobs_well_formed now l : forall d,
  well_formed d -> well_formed (snd (create_jobs now l d)).
Proof.
  induction l as [|m l IH]; intros d H; cbn [create_jobs]; [exact H|].
  pose proof (createEncodingJob_well_formed now (m_id m)
                (file_size_bytes m / (1024 * 1024 * 100)) d H) as H'.
  destruct (createEncodingJob _ _ _ _) as [[id|e] d']; cbn [snd] in *; [|exact H'].
  apply IH, H'.
Qed.

Lemma queueEncodingJobs_well_formed now d :
  well_formed d -> well_formed (snd (queueEncodingJobs now d)).
Proof.
  intros H. unfold queueEncodingJobs.
  pose proof (create_jobs_well_formed now (getMediaNeedingEncoding 100 0 d) d H) as H'.
  destruct (create_jobs _ _ _) as [[[]|e] d']; exact H'.
Qed.

Lemma step_well_formed e s : well_formed (store s) -> well_formed (store (step e s)).
Proof.
  intros H. destruct e; cbn [step].
  - exact H.
  - apply processEncodingQueue_wf, H.
  - unfold resume.
    destruct (tasks s !! i) as [t|]; [|exact H].
    destruct (continuation t o) as [k|] eqn:Ek; [|exact H].
    exact (preserves_detached keeps_well_formed k (continuation_wf _ _ _ Ek)
             (set_tasks (delete i (tasks s)) s) H).
  - assert (preserves keeps_well_formed (restartJob jobId)) as Hp
      by (unfold restartJob; preserving wf_leaf).
    apply Hp, H.
  - exact H.
  - apply resumeQueue_wf, H.
  - exact H.
  - assert (preserves keeps_well_formed (checkIfScheduleShouldBeActive item now)) as Hp
      by (unfold checkIfScheduleShouldBeActive, pauseQueue, setMaxParallelJobs;
          preserving ltac:(first [apply resumeQueue_wf | wf_leaf])).
    apply Hp, H.
  - assert (preserves keeps_well_formed (startJob item)) as Hp
      by (unfold startJob, setMaxParallelJobs;
          preserving ltac:(first [apply resumeQueue_wf | wf_leaf])).
    apply Hp, H.
  - exact H.
  - apply processMediaFile_well_formed, H.
  - apply queueEncodingJobs_well_formed, H.
Qed.

(** The walk of [scanDirectory] keeps what every recorded file, every
    counter update and every failure keeps. *)
Lemma scan_invariant (P : results * db -> Prop) :
  (forall st, P st -> P (count_error (fst st), snd st)) ->
  (forall st now fullPath size probe, P st ->
     P (match processMediaFile now fullPath size probe (snd st) with
        | (Ret (Some (_, needs)), d') => (count_added needs (count_scanned (fst st)), d')
        | (Ret None, d') => (count_scanned (fst st), d')
        | (Throw _, d') => (count_error (count_scanned (fst st)), d')
        end)) ->
  (forall l dirPath st, P st -> P (scanDirectory dirPath l st))
  /\ (forall es dirPath st, P st -> P (snd (scan_entries dirPath es st))).
Proof.
  intros Herr Hfile.
  assert (H : forall l : listing, forall dirPath st, P st -> P (scanDirectory dirPath l st)).
  { fix IHl 1.
    assert (IHes : forall es : entries, forall dirPath st, P st ->
                     P (snd (scan_entries dirPath es st))).
    { fix IHes 1. intros [|file n rest] dirPath st Hst; [exact Hst|].
      destruct n as [e | size probe now | sub].
      - exact Hst.
      - cbn [scan_entries]. destruct (isMediaFile file); [|apply IHes, Hst].
        specialize (Hfile st now (path_join dirPath file) size probe Hst).
        destruct (processMediaFile _ _ _ _ _) as [[[[id needs]|]|e] d'];
          apply IHes, Hfile.
      - cbn [scan_entries]. apply IHes, IHl, Hst. }
    intros [e|es] dirPath st Hst; cbn [scanDirectory]; [apply Herr, Hst|].
    specialize (IHes es dirPath st Hst).
    destruct (scan_entries dirPath es st) as [[[]|e] st']; [exact IHes | apply Herr, IHes]. }
  split; [exact H|].
  fix IHes 1. intros [|file n rest] dirPath st Hst; [exact Hst|].
  destruct n as [e | size probe now | sub].
  - exact Hst.
  - cbn [scan_entries]. destruct (isMediaFile file); [|apply IHes, Hst].
    specialize (Hfile st now (path_join dirPath file) size probe Hst).
    destruct (processMediaFile _ _ _ _ _) as [[[[id needs]|]|e] d'];
      apply IHes, Hfile.
  - cbn [scan_entries]. apply IHes, H, Hst.
Qed.

End StoreInvariantSteps.

Section StoreInvariantClaim.
Import JS Database Scanner Encoder Scheduler System Properties.
Local Open Scope Z_scope.

Lemma empty_db_well_formed : well_formed empty_db.
Proof. repeat split; try apply NoDup_nil_2; intros ? []. Qed.

Lemma run_well_formed {R : runtime} es : forall s,
  well_formed (store s) -> well_formed (store (run es s)).
Proof.
  induction es as [|e es IH]; intros s H; cbn [run fold_left]; [exact H|].
  apply IH, step_well_formed, H.
Qed.

Lemma scanLibrary_well_formed {R : runtime} now libraryPath root d :
  well_formed d -> well_formed (snd (scanLibrary now libraryPath root d)).
Proof.
  intros H. unfold scanLibrary.
  assert (Hs : well_formed (snd (scanDirectory libraryPath root (no_results, d)))).
  { destruct (scan_invariant (fun st => well_formed (snd st))) as [Hdir _].
    - intros st Hst. exact Hst.
    - intros st now' fullPath size probe Hst.
      pose proof (processMediaFile_well_formed now' fullPath size probe (snd st) Hst) as H'.
      destruct (processMediaFile _ _ _ _ _) as [[[[id needs]|]|e] d']; exact H'.
    - apply Hdir, H. }
  destruct (scanDirectory _ _ _) as [r d1]. cbn [snd] in Hs.
  pose proof (queueEncodingJobs_well_formed now d1 Hs) as Hq.
  destruct (queueEncodingJobs now d1) as [[n|e] d2]; exact Hq.
Qed.

Lemma watch_add_well_formed {R : runtime} now filePath stat probe d :
  well_formed d -> well_formed (watch_add now filePath stat probe d).
Proof.
  intros H. unfold watch_add.
  destruct (isMediaFile filePath); [|exact H].
  destruct stat as [size|e]; [|exact H].
  pose proof (processMediaFile_well_formed now filePath size probe d H) as H'.
  destruct (processMediaFile _ _ _ _ _) as [[r|e] d1]; cbn [snd] in H'; [|exact H'].
  apply queueEncodingJobs_well_formed, H'.
Qed.

Lemma watch_change_well_formed {R : runtime} now filePath stat probe d :
  well_formed d -> well_formed (watch_change now filePath stat probe d).
Proof.
  intros H. unfold watch_change.
  destruct (isMediaFile filePath); [|exact H].
  destruct stat as [size|e]; [|exact H].
  apply processMediaFile_well_formed, H.
Qed.

(** Integrity of the store.  Every event of the process, every scan and
    every run of a watcher handler keeps the store well formed: media ids and
    job ids stay unique and below their sequences, no two media rows share a
    file path, and every job refers to a media row that exists. *)
Theorem store_stays_well_formed {R : runtime} d :
  well_formed d ->
  (forall fs now es, well_formed (store (run es (initial d fs now))))
  /\ (forall s es, store s = d -> well_formed (store (run es s)))
  /\ (forall now libraryPath root, well_formed (snd (scanLibrary now libraryPath root d)))
  /\ (forall now filePath stat probe,
        well_formed (watch_add now filePath stat probe d)
        /\ well_formed (watch_change now filePath stat probe d)).
Proof.
  intros H. split; [|split; [|split]].
  - intros fs now es. apply run_well_formed. exact H.
  - intros s es <-. apply run_well_formed. exact H.
  - intros. apply scanLibrary_well_formed, H.
  - intros. split; [apply watch_add_well_formed | apply watch_change_well_formed]; exact H.
Qed.

(** From the empty store: the store after a scan of the example library and
    the start of its job. *)
Lemma store_stays_well_formed_witness :
  well_formed (store (run (R := Posix.posix) Examples.start_job_1 Examples.scanned)).
Proof.
  assert (H0 : well_formed empty_db)
    by (repeat split; try apply NoDup_nil_2; intros ? []).
  assert (H : well_formed Examples.db_scanned).
  { exact (proj1 (proj2 (proj2 (store_stays_well_formed (R := Posix.posix) empty_db H0)))
             11 "/lib" Examples.lib). }
  exact (proj1 (store_stays_well_formed (R := Posix.posix) Examples.db_scanned H)
           {[ "/lib/Movie.mkv" := Examples.movie_bytes ]} 20 Examples.start_job_1).
Defined.

End StoreInvariantClaim.

(** ** Lookups and round trips *)

Section Lookups.
Import JS Database Scanner Encoder Scheduler System Properties.
Local Open Scope Z_scope.

(** In a table with unique ids, the rows with the id of a row are that row. *)
Lemma filter_unique {A} (f : A -> Z) (l : list A) (x : A) :
  NoDup (List.map f l) -> In x l ->
  List.filter (fun y => bool_decide (f y = f x)) l = [x].
Proof.
  induction l as [|y l IH]; simpl; [contradiction|].
  intros Hnd Hin. apply NoDup_cons in Hnd as [Hy Hnd].
  destruct (bool_decide (f y = f x)) eqn:E.
  - apply bool_decide_eq_true in E.
    assert (y = x) as ->.
    { destruct Hin as [-> | Hin]; [reflexivity|]. exfalso. apply Hy.
      rewrite E. apply list_elem_of_In, in_map, Hin. }
    f_equal. apply filter_none. intros z Hz. apply bool_decide_eq_false. intros E'.
    apply Hy. rewrite <- E'. apply list_elem_of_In, in_map, Hz.
  - apply bool_decide_eq_false in E.
    destruct Hin as [-> | Hin]; [contradiction E; reflexivity|].
    apply IH; assumption.
Qed.

Lemma join_media_unique d j m :
  NoDup (List.map m_id (tbl_media d)) -> In m (tbl_media d) -> m_id m = media_id j ->
  join_media d j = [view_of j m].
Proof.
  intros Hnd Hm E. unfold join_media. rewrite <- E.
  rewrite (filter_unique m_id _ m Hnd Hm). reflexivity.
Qed.

Lemma find_app_none {A} (p : A -> bool) l k :
  List.find p l = None -> List.find p (l ++ k) = List.find p k.
Proof.
  induction l as [|x l IH]; simpl; [reflexivity|].
  destruct (p x); [discriminate | exact IH].
Qed.

Lemma find_app_some {A} (p : A -> bool) l k x :
  List.find p l = Some x -> List.find p (l ++ k) = Some x.
Proof.
  induction l as [|y l IH]; simpl; [discriminate|].
  destruct (p y); [auto | exact IH].
Qed.

Lemma joined_jobs d v : In v (joined d) -> In (v_job v) (tbl_encoding_jobs d).
Proof.
  unfold joined. rewrite in_flat_map. intros (j & Hj & Hv).
  unfold join_media in Hv. apply in_map_iff in Hv as (m & <- & _). exact Hj.
Qed.

(** Every job of a well-formed store is seen through the join exactly once,
    in the order of the table. *)
Lemma joined_well_formed d :
  well_formed d -> List.map v_job (joined d) = tbl_encoding_jobs d.
Proof.
  intros (Hi & _ & _ & _ & _ & Hfk). unfold joined.
  induction (tbl_encoding_jobs d) as [|j l IH]; [reflexivity|].
  cbn [flat_map]. rewrite List.map_app, IH by (intros; apply Hfk; right; assumption).
  destruct (Hfk j) as (m & Hm & Em); [left; reflexivity|].
  rewrite (join_media_unique d j m Hi Hm Em). reflexivity.
Qed.

End Lookups.

Section LookupClaims.
Import JS Database Scanner Encoder Scheduler System Properties.
Local Open Scope Z_scope.

Lemma getJobById_none d jobId :
  well_formed d -> getJobById jobId d = None ->
  forall j, In j (tbl_encoding_jobs d) -> j_id j <> jobId.
Proof.
  intros Hwf Hn j Hj E. unfold getJobById in Hn.
  rewrite <- (joined_well_formed d Hwf) in Hj.
  apply in_map_iff in Hj as (v & <- & Hv).
  eapply find_none in Hn; [|exact Hv]. apply bool_decide_eq_false in Hn. contradiction.
Qed.

Lemma joined_view d v :
  In v (joined d) ->
  exists m, In m (tbl_media d) /\ m_id m = media_id (v_job v) /\ v = view_of (v_job v) m.
Proof.
  unfold joined. rewrite in_flat_map. intros (j & Hj & Hv).
  unfold join_media in Hv. apply in_map_iff in Hv as (m & <- & Hm).
  apply filter_In in Hm as [Hm E]. apply bool_decide_eq_true in E.
  exists m. repeat split; assumption.
Qed.

(** [getJobById] in a well-formed store: the row it returns is a job of the
    table with that id, seen with the title, episode name, path and codec of
    the media row it refers to; it returns nothing only when no job has the
    id. *)
Theorem getJobById_finds_every_job d jobId :
  well_formed d ->
  match getJobById jobId d with
  | Some v =>
      In (v_job v) (tbl_encoding_jobs d) /\ j_id (v_job v) = jobId
      /\ exists m, In m (tbl_media d) /\ m_id m = media_id (v_job v)
                   /\ v = view_of (v_job v) m
  | None => forall j, In j (tbl_encoding_jobs d) -> j_id j <> jobId
  end.
Proof.
  intros Hwf. destruct (getJobById jobId d) as [v|] eqn:E.
  - unfold getJobById in E. apply find_some in E as [Hv Ev].
    apply bool_decide_eq_true in Ev.
    split; [apply joined_jobs, Hv|]. split; [exact Ev | apply joined_view, Hv].
  - apply getJobById_none; assumption.
Qed.

Lemma joined_app d l k :
  List.flat_map (join_media d) (l ++ k)
  = List.flat_map (join_media d) l ++ List.flat_map (join_media d) k.
Proof. apply flat_map_app. Qed.

Lemma find_media_in d mediaId m :
  find_media mediaId d = Some m -> In m (tbl_media d) /\ m_id m = mediaId.
Proof.
  unfold find_media. intros H. apply find_some in H as [H E].
  apply bool_decide_eq_true in E. auto.
Qed.

(** [createEncodingJob] and [getJobById]: for a media id that no row has the
    call throws and writes nothing; otherwise it returns the next job id,
    under which no job was found before and the new job is found afterwards:
    queued, with the given priority, the size of the media row as
    [original_size_bytes], no retry, and the media row's title and path.  The
    lookup of every other id is what it was. *)
Theorem createEncodingJob_then_getJobById now mediaId priority d :
  well_formed d ->
  match find_media mediaId d with
  | None => createEncodingJob now mediaId priority d = (Throw (MediaNotFound mediaId), d)
  | Some m =>
      let id := seq_encoding_jobs d + 1 in
      let d' := snd (createEncodingJob now mediaId priority d) in
      fst (createEncodingJob now mediaId priority d) = Ret id
      /\ getJobById id d = None
      /\ getJobById id d'
         = Some (view_of (mkJob id mediaId queued priority None (file_size_bytes m)
                                None None None None None 0 now) m)
      /\ forall i, i <> id -> getJobById i d' = getJobById i d
  end.
Proof.
  intros Hwf. destruct (find_media mediaId d) as [m|] eqn:E.
  2: { unfold createEncodingJob. rewrite E. reflexivity. }
  cbv zeta. rewrite (createEncodingJob_found _ _ _ _ _ E). cbn [fst snd].
  destruct (find_media_in _ _ _ E) as [Hm Em].
  destruct Hwf as (Hi & _ & _ & _ & Hjs & _).
  assert (Hnone : getJobById (seq_encoding_jobs d + 1) d = None).
  { unfold getJobById. destruct (List.find _ (joined d)) as [v|] eqn:Ev; [|reflexivity].
    apply find_some in Ev as [Hv Ev]. apply bool_decide_eq_true in Ev.
    apply joined_jobs, Hjs in Hv. lia. }
  set (row := mkJob _ _ _ _ _ _ _ _ _ _ _ _ _).
  assert (Hj : joined (mkDb (tbl_media d) (seq_media d) (tbl_encoding_jobs d ++ [row])
                            (seq_encoding_jobs d + 1))
               = joined d ++ [view_of row m]).
  { unfold joined. cbn [tbl_encoding_jobs]. rewrite flat_map_app. cbn [flat_map].
    rewrite app_nil_r. f_equal.
    unfold join_media. cbn [tbl_media]. subst row. cbn [media_id].
    rewrite <- Em. rewrite (filter_unique m_id _ m Hi Hm). reflexivity. }
  split; [reflexivity|]. split; [exact Hnone|]. split.
  - unfold getJobById in *. rewrite Hj, (find_app_none _ _ _ Hnone). cbn.
    rewrite bool_decide_eq_true_2 by reflexivity. reflexivity.
  - intros i Hi'. unfold getJobById. rewrite Hj.
    destruct (List.find _ (joined d)) as [v|] eqn:Ev.
    + apply (find_app_some _ _ [view_of row m]) in Ev. exact Ev.
    + rewrite (find_app_none _ _ _ Ev). cbn.
      rewrite bool_decide_eq_false_2 by (intros E'; apply Hi'; symmetry; exact E').
      reflexivity.
Qed.

(** The film of the example store: its first job is job 1; and job 1 of the
    scanned library is found. *)
Lemma createEncodingJob_then_getJobById_witness :
  getJobById 1 (snd (createEncodingJob 11 1 9 Examples.db_movie))
  = Some (view_of (mkJob 1 1 queued 9 None 1000000000 None None None None None 0 11)
                  (upserted 10 Examples.movie empty_db)).
Proof.
  assert (H : well_formed Examples.db_movie).
  { repeat split; try apply NoDup_nil_2; try apply NoDup_singleton.
    - intros m [<- | []]. vm_compute. discriminate.
    - intros j [].
    - intros j []. }
  exact (proj1 (proj2 (proj2 (createEncodingJob_then_getJobById 11 1 9 Examples.db_movie H)))).
Defined.

Lemma getJobById_witness :
  match getJobById 1 Examples.db_scanned with
  | Some v =>
      In (v_job v) (tbl_encoding_jobs Examples.db_scanned) /\ j_id (v_job v) = 1
      /\ exists m, In m (tbl_media Examples.db_scanned) /\ m_id m = media_id (v_job v)
                   /\ v = view_of (v_job v) m
  | None => forall j, In j (tbl_encoding_jobs Examples.db_scanned) -> j_id j <> 1
  end.
Proof.
  assert (H : well_formed Examples.db_scanned).
  { repeat split; try apply NoDup_nil_2; try apply NoDup_singleton.
    - intros m [<- | []]. vm_compute. discriminate.
    - intros j [<- | []]. vm_compute. discriminate.
    - intros j [<- | []]. eexists. split; [left; reflexivity | reflexivity]. }
  exact (getJobById_finds_every_job Examples.db_scanned 1 H).
Defined.

(** Once [markMediaAsEncoded] has run for a media id, the rows with that id
    are not selected by [getMediaNeedingEncoding] any more, and a run of
    admission creates no job for it: the id has as many open jobs after the
    run as before the mark. *)
Theorem marked_media_is_not_admitted now now' mediaId codec size d :
  let d1 := markMediaAsEncoded now mediaId codec size d in
  (forall limit offset m, In m (getMediaNeedingEncoding limit offset d1) -> m_id m <> mediaId)
  /\ open_jobs_of mediaId (snd (queueEncodingJobs now' d1)) = open_jobs_of mediaId d.
Proof.
  intros d1.
  assert (Hsel : forall limit offset m,
            In m (getMediaNeedingEncoding limit offset d1) -> m_id m <> mediaId).
  { intros limit offset m Hm E. apply selected_in_table in Hm as [Hm Hn].
    apply markMediaAsEncoded_rows in Hm as (m0 & _ & ->).
    destruct (bool_decide (m_id m0 = mediaId)) eqn:E0; [discriminate Hn|].
    apply bool_decide_eq_false in E0. contradiction. }
  split; [exact Hsel|].
  destruct (queueEncodingJobs_spec now' d1) as (_ & _ & H). rewrite H.
  replace (count_id mediaId (getMediaNeedingEncoding 100 0 d1)) with 0%nat;
    [rewrite Nat.add_0_r; reflexivity|].
  unfold count_id. rewrite filter_none; [reflexivity|].
  intros m Hm. apply bool_decide_eq_false. apply (Hsel _ _ _ Hm).
Qed.

End LookupClaims.

(** ** The order of the queries and of dispatch *)

Section OrderBy.
Import JS Database Properties.
Context {A : Type} (before : A -> A -> bool).
Hypothesis before_asym : forall x y, before x y = true -> before y x = false.
Hypothesis before_trans :
  forall x y z, before y x = false -> before z y = false -> before z x = false.

Lemma insert_by_in x y l : In y (insert_by before x l) -> y = x \/ In y l.
Proof.
  intros H. apply list_elem_of_In in H. rewrite insert_by_perm in H.
  apply list_elem_of_In in H. destruct H as [<- | H]; auto.
Qed.

Lemma insert_by_sorted x l :
  StronglySorted (may_precede before) l -> StronglySorted (may_precede before) (insert_by before x l).
Proof.
  induction 1 as [|y l Hl IH Hy]; simpl; [repeat constructor|].
  destruct (before y x) eqn:E.
  - constructor; [exact IH|]. apply List.Forall_forall. intros z Hz.
    apply insert_by_in in Hz as [-> | Hz].
    + apply before_asym, E.
    + rewrite List.Forall_forall in Hy. apply Hy, Hz.
  - constructor; [constructor; assumption|].
    constructor; [exact E|]. apply List.Forall_forall. intros z Hz.
    rewrite List.Forall_forall in Hy. eapply before_trans; [exact E | apply Hy, Hz].
Qed.

Lemma order_by_sorted l : StronglySorted (may_precede before) (order_by before l).
Proof.
  induction l as [|x l IH]; simpl; [constructor | apply insert_by_sorted, IH].
Qed.

Lemma sorted_take n l :
  StronglySorted (may_precede before) l -> StronglySorted (may_precede before) (take n l).
Proof.
  intros H. revert n. induction H as [|x l Hl IH Hx]; intros [|n]; simpl; try constructor.
  - apply IH.
  - apply List.Forall_forall. intros y Hy. rewrite List.Forall_forall in Hx. apply Hx.
    apply list_elem_of_In. eapply elem_of_sublist; [apply list_elem_of_In, Hy | apply sublist_take].
Qed.

Lemma sorted_take_drop n l x y :
  StronglySorted (may_precede before) l -> In x (take n l) -> In y (drop n l) -> (may_precede before) x y.
Proof.
  intros H. revert n. induction H as [|z l Hl IH Hz]; intros [|n]; simpl; try contradiction.
  intros [<- | Hx] Hy.
  - rewrite List.Forall_forall in Hz. apply Hz.
    apply list_elem_of_In. eapply elem_of_sublist; [apply list_elem_of_In, Hy | apply sublist_drop].
  - eapply IH; eassumption.
Qed.

Lemma limit_offset_0 limit (l : list A) :
  limit_offset limit 0 l = if (limit <? 0)%Z then l else take (Z.to_nat limit) l.
Proof. reflexivity. Qed.

(** The first [limit] rows of the rows ordered: they are ordered, and a row
    that is left out may not stand before one that is taken. *)
Lemma limit_order_by limit l :
  let sel := limit_offset limit 0 (order_by before l) in
  StronglySorted (may_precede before) sel
  /\ (forall x y, In x sel -> In y l -> ~ In y sel -> (may_precede before) x y)
  /\ (forall x, In x sel -> In x l)
  /\ length sel = (if (limit <? 0)%Z then length l else Nat.min (Z.to_nat limit) (length l)).
Proof.
  cbv zeta. rewrite limit_offset_0.
  pose proof (order_by_sorted l) as Hs.
  pose proof (order_by_perm before l) as Hp.
  destruct (limit <? 0)%Z.
  - split; [exact Hs|]. split.
    + intros x y _ Hy Hn. exfalso. apply Hn.
      apply list_elem_of_In. rewrite Hp. apply list_elem_of_In, Hy.
    + split; [|apply Permutation_length, Hp].
      intros x Hx. apply list_elem_of_In. rewrite <- Hp. apply list_elem_of_In, Hx.
  - split; [apply sorted_take, Hs|]. split; [|split].
    + intros x y Hx Hy Hn. eapply sorted_take_drop; [exact Hs | exact Hx |].
      assert (Hy' : In y (order_by before l))
        by (apply list_elem_of_In; rewrite Hp; apply list_elem_of_In, Hy).
      rewrite <- (take_drop (Z.to_nat limit) (order_by before l)) in Hy'.
      apply in_app_iff in Hy' as [Hy' | Hy']; [contradiction | exact Hy'].
    + intros x Hx. apply list_elem_of_In. rewrite <- Hp.
      eapply elem_of_sublist; [apply list_elem_of_In, Hx | apply sublist_take].
    + rewrite length_take, (Permutation_length Hp). reflexivity.
Qed.

End OrderBy.

Section QueryOrder.
Import JS Database Scanner Encoder Scheduler System Properties.
Local Open Scope Z_scope.

Lemma sorted_impl {A} (P Q : A -> A -> Prop) l :
  (forall x y, P x y -> Q x y) -> StronglySorted P l -> StronglySorted Q l.
Proof.
  intros H. induction 1 as [|x l Hl IH Hx]; constructor; [exact IH|].
  eapply List.Forall_impl; [|exact Hx]. intros y. apply H.
Qed.

Lemma size_before_order x y :
  may_precede (fun y x : media => file_size_bytes x <? file_size_bytes y) x y
  <-> size_order x y.
Proof. unfold may_precede, size_order. rewrite Z.ltb_ge. reflexivity. Qed.

Lemma job_before_order x y : may_precede job_before x y <-> job_order x y.
Proof.
  unfold may_precede, job_before, job_order.
  rewrite orb_false_iff, andb_false_iff, Z.ltb_ge, Z.ltb_ge, Z.eqb_neq. lia.
Qed.

(** [getMediaNeedingEncoding limit 0]: the rows returned are flagged rows of
    the table, largest first; there are [limit] of them, or all flagged rows
    when these are fewer (or the limit is negative); and no flagged row that
    is left out is larger than a row that is returned. *)
Theorem getMediaNeedingEncoding_largest_first limit d :
  let sel := getMediaNeedingEncoding limit 0 d in
  let flagged := List.filter needs_encoding (tbl_media d) in
  (forall m, In m sel -> In m (tbl_media d) /\ needs_encoding m = true)
  /\ StronglySorted size_order sel
  /\ length sel = (if limit <? 0 then length flagged
                   else Nat.min (Z.to_nat limit) (length flagged))
  /\ (forall m m', In m sel -> In m' flagged -> ~ In m' sel ->
        file_size_bytes m' <= file_size_bytes m).
Proof.
  cbv zeta. unfold getMediaNeedingEncoding.
  set (before := fun y x : media => file_size_bytes x <? file_size_bytes y).
  destruct (limit_order_by before) with (limit := limit)
    (l := List.filter needs_encoding (tbl_media d)) as (Hs & Hout & Hin & Hlen).
  - subst before. cbn. intros x y H. apply Z.ltb_lt in H. apply Z.ltb_ge. lia.
  - subst before. cbn. intros x y z H1 H2. apply Z.ltb_ge in H1, H2. apply Z.ltb_ge. lia.
  - split; [|split; [|split]].
    + intros m Hm. apply Hin, filter_In in Hm. exact Hm.
    + eapply sorted_impl; [|exact Hs]. intros x y. apply size_before_order.
    + exact Hlen.
    + intros m m' Hm Hm' Hn. apply (size_before_order m m'). apply Hout; assumption.
Qed.

(** [getJobsByStatus]: the rows returned are jobs with that status, seen
    through the join; the higher priority stands first, and among jobs of
    one priority the one created earlier; there are [limit] of them, or all
    when these are fewer; and no job with that status that is left out
    outranks a job that is returned. *)
Theorem getJobsByStatus_by_priority st limit d :
  let sel := getJobsByStatus st limit d in
  let candidates := List.filter (fun v => bool_decide (status (v_job v) = st)) (joined d) in
  (forall v, In v sel -> In v (joined d) /\ status (v_job v) = st)
  /\ StronglySorted job_order sel
  /\ length sel = (if limit <? 0 then length candidates
                   else Nat.min (Z.to_nat limit) (length candidates))
  /\ (forall v v', In v sel -> In v' candidates -> ~ In v' sel -> job_order v v').
Proof.
  cbv zeta. unfold getJobsByStatus.
  destruct (limit_order_by job_before) with (limit := limit)
    (l := List.filter (fun v => bool_decide (status (v_job v) = st)) (joined d))
    as (Hs & Hout & Hin & Hlen).
  - intros x y H. apply job_before_order.
    unfold job_before in H. unfold job_order.
    rewrite orb_true_iff, andb_true_iff, Z.ltb_lt, Z.ltb_lt, Z.eqb_eq in H. lia.
  - intros x y z H1 H2. apply (job_before_order x z).
    apply (job_before_order x y) in H1. apply (job_before_order y z) in H2.
    unfold job_order in *. lia.
  - split; [|split; [|split]].
    + intros v Hv. apply Hin, filter_In in Hv as [Hv E].
      apply bool_decide_eq_true in E. auto.
    + eapply sorted_impl; [|exact Hs]. intros x y. apply job_before_order.
    + exact Hlen.
    + intros v v' Hv Hv' Hn. apply job_before_order. apply Hout; assumption.
Qed.

End QueryOrder.

Section Dispatch.
Import JS Database Scanner Encoder Scheduler System Properties.
Context {R : runtime}.
Local Open Scope Z_scope.
Local Open Scope js_scope.

Lemma start_all_store jobs : forall s,
  let s' := snd (for_each jobs (fun job => detached (startEncodingJob job)) s) in
  clock s' = clock s
  /\ store s'
     = fold_left (fun d job =>
                    snd (updateJobStatus (clock s) (j_id (v_job job)) processing [] d))
                 jobs (store s).
Proof.
  induction jobs as [|job jobs IH]; intros s; [split; reflexivity|].
  cbv zeta. cbn [for_each fold_left].
  set (s1 := set_tasks (tasks s ++ [AwaitEnsureTempDir job])
       (set_store (snd (updateJobStatus (clock s) (j_id (v_job job)) processing [] (store s)))
          (set_activeJobs (activeJobs s + 1) s))).
  assert (E : (detached (startEncodingJob job) ;;
               for_each jobs (fun job0 => detached (startEncodingJob job0))) s
              = for_each jobs (fun job0 => detached (startEncodingJob job0)) s1).
  { unfold bind at 1. unfold detached at 1. rewrite startEncodingJob_runs. reflexivity. }
  rewrite E. destruct (IH s1) as [Hc Hs]. cbv zeta in Hc, Hs.
  rewrite Hc, Hs. split; reflexivity.
Qed.

Lemma updateJobStatus_processing now jobId d :
  updateJobStatus now jobId processing [] d
  = (Ret tt,
     mkDb (tbl_media d) (seq_media d)
          (List.map (fun j => if bool_decide (j_id j = jobId)
                              then set_status now processing j else j)
                    (tbl_encoding_jobs d))
          (seq_encoding_jobs d)).
Proof. unfold updateJobStatus. rewrite prepare_update_stamp. reflexivity. Qed.

Lemma mark_started_fold now jobs : forall d,
  let d' := fold_left (fun d job =>
                         snd (updateJobStatus now (j_id (v_job job)) processing [] d))
                      jobs d in
  tbl_media d' = tbl_media d
  /\ tbl_encoding_jobs d' = List.map (mark_started now jobs) (tbl_encoding_jobs d).
Proof.
  induction jobs as [|job jobs IH]; intros d; cbn [fold_left].
  - split; [reflexivity|]. symmetry. erewrite List.map_ext; [apply List.map_id|].
    intros j. reflexivity.
  - destruct (IH (snd (updateJobStatus now (j_id (v_job job)) processing [] d))) as [Hm Hj].
    cbv zeta in Hm, Hj. cbv zeta. rewrite Hm, Hj.
    rewrite updateJobStatus_processing. split; [reflexivity|].
    cbn [snd tbl_encoding_jobs]. rewrite List.map_map.
    apply List.map_ext. intros j. unfold mark_started, is_started. cbn [existsb].
    destruct (bool_decide (j_id j = j_id (v_job job))) eqn:E.
    + rewrite (bool_decide_eq_true_2 (j_id (v_job job) = j_id j))
        by (apply bool_decide_eq_true in E; congruence).
      cbn [orb]. destruct (existsb _ jobs); reflexivity.
    + rewrite (bool_decide_eq_false_2 (j_id (v_job job) = j_id j))
        by (apply bool_decide_eq_false in E; congruence).
      reflexivity.
Qed.

Lemma processEncodingQueue_eq s :
  processEncodingQueue s
  = (Ret (to_start s),
     snd (for_each (to_start s) (fun job => detached (startEncodingJob job)) s)).
Proof.
  unfold to_start, processEncodingQueue, try_catch, bind at 1, gets at 1.
  cbn [fst snd]. destruct (isQueuePaused s) eqn:Ep; [reflexivity|].
  unfold bind at 1, gets at 1. cbn [fst snd].
  destruct (maxParallelJobs s - activeJobs s <=? 0) eqn:Es; [reflexivity|].
  unfold bind at 1, gets at 1. cbn [fst snd].
  destruct (getJobsByStatus queued (maxParallelJobs s - activeJobs s) (store s))
    as [|job jobs] eqn:Ej; [reflexivity|].
  destruct (start_all (job :: jobs) s) as (s' & E & _).
  unfold bind at 1. rewrite E. reflexivity.
Qed.

Lemma processEncodingQueue_started s :
  fst (processEncodingQueue s) = Ret (to_start s)
  /\ clock (snd (processEncodingQueue s)) = clock s
  /\ tbl_media (store (snd (processEncodingQueue s))) = tbl_media (store s)
  /\ tbl_encoding_jobs (store (snd (processEncodingQueue s)))
     = List.map (mark_started (clock s) (to_start s)) (tbl_encoding_jobs (store s)).
Proof.
  rewrite processEncodingQueue_eq. cbn [fst snd].
  destruct (start_all_store (to_start s) s) as [Hc Hs]. cbv zeta in Hc, Hs.
  destruct (mark_started_fold (clock s) (to_start s) (store s)) as [Hm Hj].
  cbv zeta in Hm, Hj. rewrite <- Hs in Hm, Hj.
  split; [reflexivity|]. split; [exact Hc|]. split; [exact Hm | exact Hj].
Qed.

Lemma mark_started_id now started j : j_id (mark_started now started j) = j_id j.
Proof. unfold mark_started. destruct (is_started started j); reflexivity. Qed.

(** A polling pass with the queue running and a free slot starts the first
    [maxParallelJobs - activeJobs] queued jobs in the order of
    [getJobsByStatus]: the higher priority first, among equal priorities the
    job created earlier, and no queued job that is left waiting outranks a
    job that is started.  The pass records every job it starts as
    [processing] since the time of the pass and leaves every other row as it
    is, so no later pass finds a started job among the queued ones. *)
Theorem polling_pass_starts_by_priority s :
  isQueuePaused s = false -> 0 < maxParallelJobs s - activeJobs s ->
  let started := getJobsByStatus queued (maxParallelJobs s - activeJobs s) (store s) in
  let s' := snd (processEncodingQueue s) in
  fst (processEncodingQueue s) = Ret started
  /\ (forall v, In v started -> In v (joined (store s)) /\ status (v_job v) = queued)
  /\ StronglySorted job_order started
  /\ (forall v v', In v started -> In v' (joined (store s)) ->
         status (v_job v') = queued -> ~ In v' started -> job_order v v')
  /\ tbl_encoding_jobs (store s')
     = List.map (mark_started (clock s) started) (tbl_encoding_jobs (store s))
  /\ (forall v limit v', In v started -> In v' (getJobsByStatus queued limit (store s')) ->
         j_id (v_job v') <> j_id (v_job v)).
Proof.
  intros Hp Hslots. cbv zeta.
  destruct (processEncodingQueue_started s) as (Hf & _ & _ & Hj).
  assert (Et : to_start s
               = getJobsByStatus queued (maxParallelJobs s - activeJobs s) (store s)).
  { unfold to_start. rewrite Hp. destruct (_ <=? 0) eqn:E; [|reflexivity].
    apply Z.leb_le in E. lia. }
  rewrite Et in Hf, Hj.
  destruct (getJobsByStatus_by_priority queued (maxParallelJobs s - activeJobs s) (store s))
    as (Hin & Hsorted & _ & Hout).
  split; [exact Hf|]. split; [exact Hin|]. split; [exact Hsorted|]. split; [|split].
  - intros v v' Hv Hv' Hq Hn. apply Hout; [exact Hv | | exact Hn].
    apply filter_In. split; [exact Hv' | apply bool_decide_eq_true, Hq].
  - exact Hj.
  - intros v limit v' Hv Hv' E.
    destruct (getJobsByStatus_by_priority queued limit (store (snd (processEncodingQueue s))))
      as (Hin' & _).
    destruct (Hin' v' Hv') as [Hjoin Hq].
    apply joined_jobs in Hjoin. rewrite Hj in Hjoin.
    apply in_map_iff in Hjoin as (j & Ej & _).
    assert (Hst : is_started (getJobsByStatus queued (maxParallelJobs s - activeJobs s) (store s))
                    j = true).
    { apply existsb_exists. exists v. split; [exact Hv|]. apply bool_decide_eq_true.
      rewrite <- E, <- Ej. apply mark_started_id. }
    unfold mark_started in Ej. rewrite Hst in Ej. rewrite <- Ej in Hq. discriminate Hq.
Qed.

End Dispatch.

(** The scanned library: the pass starts job 1 and records it. *)
Lemma polling_pass_witness :
  List.map (fun j => (Database.j_id j, Database.status j, Database.started_at j))
    (Database.tbl_encoding_jobs (Encoder.store (snd (Encoder.processEncodingQueue Examples.scanned))))
  = [(1%Z, Database.processing, Some 20%Z)].
Proof.
  destruct (polling_pass_starts_by_priority Examples.scanned) as (_ & _ & _ & _ & H & _);
    [reflexivity | reflexivity |].
  rewrite H. reflexivity.
Defined.


(** ** What admission writes, and the counters of a scan *)

Section Admission.
Import JS Database Scanner Encoder Scheduler System Properties.
Local Open Scope Z_scope.

Lemma find_media_unique d m :
  media_ids_unique d -> In m (tbl_media d) -> find_media (m_id m) d = Some m.
Proof.
  unfold media_ids_unique, find_media. intros Hnd Hin.
  induction (tbl_media d) as [|x l IH]; [contradiction|].
  cbn [List.find]. apply NoDup_cons in Hnd as [Hx Hnd].
  destruct (bool_decide (m_id x = m_id m)) eqn:E.
  - apply bool_decide_eq_true in E. destruct Hin as [-> | Hin]; [reflexivity|].
    exfalso. apply Hx. rewrite E. apply list_elem_of_In, in_map, Hin.
  - apply bool_decide_eq_false in E.
    destruct Hin as [-> | Hin]; [contradiction E; reflexivity | apply IH; assumption].
Qed.

Lemma create_jobs_rows now l : forall d,
  media_ids_unique d -> (forall m, In m l -> In m (tbl_media d)) ->
  create_jobs now l d
  = (Ret tt,
     mkDb (tbl_media d) (seq_media d)
          (tbl_encoding_jobs d ++ admitted_jobs now (seq_encoding_jobs d) l)
          (seq_encoding_jobs d + Z.of_nat (length l))).
Proof.
  induction l as [|m l IH]; intros d Hu Hin.
  - cbn. rewrite app_nil_r, Z.add_0_r. destruct d; reflexivity.
  - cbn [create_jobs].
    rewrite (createEncodingJob_found now (m_id m) _ d m)
      by (apply find_media_unique; [exact Hu | apply Hin; left; reflexivity]).
    rewrite IH; [|exact Hu | intros x Hx; apply Hin; right; exact Hx].
    cbn [tbl_media seq_media tbl_encoding_jobs seq_encoding_jobs admitted_jobs length].
    rewrite <- app_assoc. f_equal. f_equal. lia.
Qed.

(** What a run of admission writes: it appends, for the media rows that need
    encoding, largest first and at most 100, one job each, with consecutive
    ids, in [queued], with the row's size as [original_size_bytes] and that
    size in units of 100 MiB, rounded down, as priority; it returns their
    number and changes nothing else. *)
Theorem admission_appends_one_job_per_file now d :
  media_ids_unique d ->
  let selected := getMediaNeedingEncoding 100 0 d in
  queueEncodingJobs now d
  = (Ret (Z.of_nat (length selected)),
     mkDb (tbl_media d) (seq_media d)
          (tbl_encoding_jobs d ++ admitted_jobs now (seq_encoding_jobs d) selected)
          (seq_encoding_jobs d + Z.of_nat (length selected))).
Proof.
  intros Hu. cbv zeta. unfold queueEncodingJobs.
  rewrite create_jobs_rows; [reflexivity | exact Hu |].
  intros m Hm. apply selected_in_table in Hm. tauto.
Qed.

(** The film of 1 GB gets job 1 with priority 9. *)
Lemma admission_appends_witness :
  tbl_encoding_jobs (snd (queueEncodingJobs 11 Examples.db_movie))
  = [mkJob 1 1 queued 9 None 1000000000 None None None None None 0 11].
Proof.
  rewrite (admission_appends_one_job_per_file 11 Examples.db_movie).
  - reflexivity.
  - unfold media_ids_unique. apply NoDup_singleton.
Defined.

End Admission.

Section AdmissionSeq.
Import JS Database Scanner Encoder Scheduler System Properties.
Local Open Scope Z_scope.

Lemma create_jobs_seq_media now l : forall d,
  seq_media (snd (create_jobs now l d)) = seq_media d.
Proof.
  induction l as [|m l IH]; intros d; cbn [create_jobs]; [reflexivity|].
  unfold createEncodingJob. destruct (find_media (m_id m) d); [|reflexivity].
  rewrite IH. reflexivity.
Qed.

Lemma queueEncodingJobs_seq_media now d :
  seq_media (snd (queueEncodingJobs now d)) = seq_media d.
Proof.
  unfold queueEncodingJobs.
  pose proof (create_jobs_seq_media now (getMediaNeedingEncoding 100 0 d) d) as H.
  destruct (create_jobs _ _ _) as [[[]|e] d']; exact H.
Qed.

End AdmissionSeq.

Section ScanCounters.
Import JS Database Scanner Encoder Scheduler System Properties.
Context {R : runtime}.
Local Open Scope Z_scope.

(** [processMediaFile] consumes one media id exactly when it returns a
    record. *)
Lemma processMediaFile_seq now filePath fileSize probe d :
  match processMediaFile now filePath fileSize probe d with
  | (Ret (Some _), d') => seq_media d' = seq_media d + 1
  | (_, d') => d' = d
  end.
Proof.
  unfold processMediaFile.
  destruct probe as [streams|e]; [|reflexivity].
  destruct (List.find _ streams) as [videoStream|]; [|reflexivity].
  destruct (extractMediaInfo filePath) as [[title episodeName] mediaType].
  destruct (codec_name videoStream) as [codec|]; reflexivity.
Qed.

Lemma scan_counts dirPath root r d :
  counts_ok r ->
  let st := scanDirectory dirPath root (r, d) in
  counts_ok (fst st)
  /\ seq_media (snd st) - added (fst st) = seq_media d - added r.
Proof.
  intros Hr.
  destruct (scan_invariant
              (fun st => counts_ok (fst st)
                         /\ seq_media (snd st) - added (fst st) = seq_media d - added r))
    as [Hdir _].
  - intros st [(H1 & H2 & H3) H4]. split; [|exact H4].
    unfold counts_ok, count_error. cbn. repeat split; lia.
  - intros st now fullPath size probe [(H1 & H2 & H3) H4].
    pose proof (processMediaFile_seq now fullPath size probe (snd st)) as Hs.
    destruct (processMediaFile _ _ _ _ _) as [[[[id needs]|]|e] d'].
    + unfold counts_ok, count_added, count_scanned. cbn.
      destruct needs; repeat split; lia.
    + subst d'. unfold counts_ok, count_scanned. cbn. repeat split; lia.
    + subst d'. unfold counts_ok, count_error, count_scanned. cbn. repeat split; lia.
  - apply Hdir. split; [exact Hr | reflexivity].
Qed.

(** The counters a scan returns are consistent, and [added] is the number of
    media ids the scan consumed: every file counted as added was written as
    one new row of the media table. *)
Theorem scan_counters_are_consistent now libraryPath root d :
  exists r,
    fst (scanLibrary now libraryPath root d) = Ret r
    /\ 0 <= needsEncoding r <= added r
    /\ added r <= scanned r
    /\ 0 <= errors r
    /\ seq_media (snd (scanLibrary now libraryPath root d)) = seq_media d + added r.
Proof.
  destruct (scan_counts libraryPath root no_results d) as [(H1 & H2 & H3) H4].
  { unfold counts_ok. cbn. lia. }
  cbv zeta in *.
  exists (fst (scanDirectory libraryPath root (no_results, d))).
  split; [apply scanLibrary_returns|].
  split; [exact H1|]. split; [exact H2|]. split; [exact H3|].
  unfold scanLibrary. destruct (scanDirectory _ _ _) as [r d1]. cbn [fst snd] in *.
  destruct (queueEncodingJobs_spec now d1) as (_ & Hm & _).
  pose proof (queueEncodingJobs_seq_media now d1) as Hq.
  destruct (queueEncodingJobs now d1) as [[n|e] d2]; cbn [snd] in *; rewrite Hq; cbn in H4; lia.
Qed.

End ScanCounters.

Section PathsKept.
Import JS Database Scanner Encoder Scheduler System Properties.
Local Open Scope Z_scope.

Lemma paths_kept_refl d : paths_kept d d.
Proof. intros m Hm. exists m. auto. Qed.

Lemma paths_kept_trans a b c : paths_kept a b -> paths_kept b c -> paths_kept a c.
Proof.
  intros H1 H2 m Hm. destruct (H1 m Hm) as (m1 & Hm1 & E1).
  destruct (H2 m1 Hm1) as (m2 & Hm2 & E2). exists m2. split; [exact Hm2 | congruence].
Qed.

Lemma paths_kept_media d d' : tbl_media d' = tbl_media d -> paths_kept d d'.
Proof. intros E m Hm. exists m. rewrite E. auto. Qed.

Lemma addMedia_paths_kept now mi d : paths_kept d (snd (addMedia now mi d)).
Proof.
  intros m Hm. rewrite addMedia_media.
  destruct (has_path (mi_file_path mi) m) eqn:E.
  - exists (upserted now mi d). split; [apply in_app_iff; right; left; reflexivity|].
    apply has_path_true in E. rewrite E. reflexivity.
  - exists m. split; [|reflexivity]. apply in_app_iff. left.
    apply filter_In. split; [exact Hm | rewrite E; reflexivity].
Qed.

Lemma markMediaAsEncoded_paths_kept now mediaId codec size d :
  paths_kept d (markMediaAsEncoded now mediaId codec size d).
Proof.
  intros m Hm.
  exists (if bool_decide (m_id m = mediaId) then mark_encoded now codec size m else m).
  split; [apply in_map_iff; exists m; auto|].
  destruct (bool_decide _); reflexivity.
Qed.

Lemma processMediaFile_paths_kept {R : runtime} now filePath fileSize probe d :
  paths_kept d (snd (processMediaFile now filePath fileSize probe d)).
Proof.
  unfold processMediaFile.
  destruct probe as [streams|e]; [|apply paths_kept_refl].
  destruct (List.find _ streams) as [videoStream|]; [|apply paths_kept_refl].
  destruct (extractMediaInfo filePath) as [[title episodeName] mediaType].
  destruct (codec_name videoStream) as [codec|]; [|apply paths_kept_refl].
  match goal with
  | |- context [addMedia now ?mi d] =>
      pose proof (addMedia_paths_kept now mi d) as H; destruct (addMedia now mi d)
  end.
  exact H.
Qed.

Lemma queueEncodingJobs_paths_kept now d : paths_kept d (snd (queueEncodingJobs now d)).
Proof. apply paths_kept_media. apply queueEncodingJobs_spec. Qed.

End PathsKept.

#[export] Instance keeps_paths_kept : Properties.Kept Properties.keeps_paths.
Proof.
  split.
  - intros s. apply paths_kept_refl.
  - intros a b c. apply paths_kept_trans.
  - intros s u. apply paths_kept_refl.
Qed.

Section PathsKeptEngine.
Import JS Database Scanner Encoder Scheduler System Properties.
Local Open Scope Z_scope.
Local Open Scope js_scope.

Lemma updateStatus_paths jobId st data : preserves keeps_paths (updateStatus jobId st data).
Proof.
  intros s. unfold updateStatus, keeps_paths.
  pose proof (updateJobStatus_media (clock s) jobId st data (store s)) as H.
  destruct (updateJobStatus _ _ _ _ _). apply paths_kept_media. exact H.
Qed.

Lemma modify_paths f : (forall s, store (f s) = store s) -> preserves keeps_paths (modify f).
Proof. intros H s. apply paths_kept_media. cbn. rewrite H. reflexivity. Qed.

Lemma mark_paths mediaId codec size :
  preserves keeps_paths
    (modify (fun s => set_store (markMediaAsEncoded (clock s) mediaId codec size (store s)) s)).
Proof. intros s. apply markMediaAsEncoded_paths_kept. Qed.

End PathsKeptEngine.

Ltac paths_leaf :=
  first
    [ apply updateStatus_paths
    | apply mark_paths
    | apply modify_paths; intros ?; reflexivity ].

Section PathsKeptSteps.
Import JS Database Scanner Encoder Scheduler System Properties.
Context {R : runtime}.
Local Open Scope Z_scope.
Local Open Scope js_scope.

Lemma continuation_paths t o k : continuation t o = Some k -> preserves keeps_paths k.
Proof.
  intros Hk. destruct t, o; try discriminate Hk; injection Hk as <-;
    unfold startEncodingJob_1, startEncodingJob_2, startFFmpegEncoding, startEncodingJob_catch,
           on_error, on_close, on_close_1, replaceOriginalFile, replaceOriginalFile_1,
           replaceOriginalFile_2, replaceOriginalFile_3, replaceOriginalFile_4, after_move,
           in_replace, replace_catch, close_catch;
    preserving paths_leaf.
Qed.

Lemma step_paths e s : keeps_paths s (step e s).
Proof.
  destruct e; cbn [step]; try apply paths_kept_refl.
  - assert (preserves keeps_paths processEncodingQueue) as H
      by (unfold processEncodingQueue, startEncodingJob, startEncodingJob_catch;
          preserving paths_leaf).
    apply H.
  - unfold resume.
    destruct (tasks s !! i) as [t|]; [|apply paths_kept_refl].
    destruct (continuation t o) as [k|] eqn:Ek; [|apply paths_kept_refl].
    exact (preserves_detached keeps_paths k (continuation_paths _ _ _ Ek)
             (set_tasks (delete i (tasks s)) s)).
  - assert (preserves keeps_paths (restartJob jobId)) as H
      by (unfold restartJob; preserving paths_leaf).
    apply H.
  - assert (preserves keeps_paths resumeQueue) as H
      by (unfold resumeQueue, processEncodingQueue, startEncodingJob, startEncodingJob_catch;
          preserving paths_leaf).
    apply H.
  - assert (preserves keeps_paths (checkIfScheduleShouldBeActive item now)) as H
      by (unfold checkIfScheduleShouldBeActive, resumeQueue, pauseQueue, setMaxParallelJobs,
                 processEncodingQueue, startEncodingJob, startEncodingJob_catch;
          preserving paths_leaf).
    apply H.
  - assert (preserves keeps_paths (startJob item)) as H
      by (unfold startJob, resumeQueue, setMaxParallelJobs,
                 processEncodingQueue, startEncodingJob, startEncodingJob_catch;
          preserving paths_leaf).
    apply H.
  - apply processMediaFile_paths_kept.
  - apply queueEncodingJobs_paths_kept.
Qed.

(** The process never forgets a file: whatever events, scans and watcher
    runs follow, a path that has a media row keeps having one (the row may
    be a newer one, with another id).  No code deletes a media row without
    replacing it, also not when the file is gone. *)
Theorem recorded_paths_stay_recorded s m :
  In m (tbl_media (store s)) ->
  (forall es, exists m', In m' (tbl_media (store (run es s))) /\ file_path m' = file_path m)
  /\ (forall now libraryPath root,
        exists m', In m' (tbl_media (snd (scanLibrary now libraryPath root (store s))))
                   /\ file_path m' = file_path m)
  /\ (forall now filePath stat probe,
        exists m', In m' (tbl_media (watch_add now filePath stat probe (store s)))
                   /\ file_path m' = file_path m).
Proof.
  intros Hm. split; [|split].
  - intros es.
    assert (H : forall es s, keeps_paths s (run es s)).
    { clear. induction es as [|e es IH]; intros s; cbn [run fold_left]; [apply paths_kept_refl|].
      eapply paths_kept_trans; [apply step_paths | apply IH]. }
    apply (H es s). exact Hm.
  - intros now libraryPath root. revert m Hm. change (paths_kept (store s)
      (snd (scanLibrary now libraryPath root (store s)))).
    unfold scanLibrary.
    assert (Hs : paths_kept (store s) (snd (scanDirectory libraryPath root (no_results, store s)))).
    { destruct (scan_invariant (fun st => paths_kept (store s) (snd st))) as [Hdir _].
      - intros st Hst. exact Hst.
      - intros st now' fullPath size probe Hst.
        pose proof (processMediaFile_paths_kept now' fullPath size probe (snd st)) as H'.
        destruct (processMediaFile _ _ _ _ _) as [[[[id needs]|]|e] d'];
          (eapply paths_kept_trans; [exact Hst | exact H']).
      - apply Hdir, paths_kept_refl. }
    destruct (scanDirectory _ _ _) as [r d1]. cbn [snd] in Hs.
    pose proof (queueEncodingJobs_paths_kept now d1) as Hq.
    destruct (queueEncodingJobs now d1) as [[n|e] d2];
      (eapply paths_kept_trans; [exact Hs | exact Hq]).
  - intros now filePath stat probe. revert m Hm.
    change (paths_kept (store s) (watch_add now filePath stat probe (store s))).
    unfold watch_add.
    destruct (isMediaFile filePath); [|apply paths_kept_refl].
    destruct stat as [size|e]; [|apply paths_kept_refl].
    pose proof (processMediaFile_paths_kept now filePath size probe (store s)) as H'.
    destruct (processMediaFile _ _ _ _ _) as [[r|e] d1]; cbn [snd] in H'; [|exact H'].
    eapply paths_kept_trans; [exact H' | apply queueEncodingJobs_paths_kept].
Qed.

End PathsKeptSteps.

(** The film stays recorded when the library, now empty, is scanned again. *)
Lemma recorded_paths_witness :
  exists m', In m' (Database.tbl_media
                      (snd (Scanner.scanLibrary (R := Posix.posix) 31 "/lib"
                              (Scanner.Entries Scanner.ENil) Examples.db_scanned)))
             /\ Database.file_path m' = "/lib/Movie.mkv".
Proof.
  exact (proj1 (proj2 (recorded_paths_stay_recorded (R := Posix.posix) Examples.scanned
                         (Properties.upserted 10 Examples.movie Database.empty_db)
                         (or_introl eq_refl)))
               31%Z "/lib" (Scanner.Entries Scanner.ENil)).
Defined.

(** ** The search *)

Section Like.
Import JS Database Properties.

Lemma append_nil (s : string) : "" +:+ s = s.
Proof. reflexivity. Qed.

Lemma append_cons c (a b : string) : String c a +:+ b = String c (a +:+ b).
Proof. reflexivity. Qed.

Lemma like_percent_eq p s :
  like (String "%" p) s
  = like p s || match s with String _ s' => like (String "%" p) s' | EmptyString => false end.
Proof. destruct s; reflexivity. Qed.

Lemma like_char_eq p pattern s :
  p <> "%"%char -> p <> "_"%char ->
  like (String p pattern) s
  = match s with
    | String c s' => bool_decide (lower_ascii c = lower_ascii p) && like pattern s'
    | EmptyString => false
    end.
Proof.
  intros H1 H2. cbn [like].
  rewrite (bool_decide_eq_false_2 _ H1), (bool_decide_eq_false_2 _ H2). reflexivity.
Qed.

Lemma like_percent p s :
  like (String "%" p) s = true <-> exists pre post, s = pre +:+ post /\ like p post = true.
Proof.
  induction s as [|c s IH]; rewrite like_percent_eq.
  - rewrite orb_false_r. split.
    + intros H. exists "", "". auto.
    + intros (pre & post & E & H). destruct pre; [|discriminate E].
      rewrite append_nil in E. subst post. exact H.
  - rewrite orb_true_iff, IH. split.
    + intros [H | (pre & post & -> & H)].
      * exists "", (String c s). auto.
      * exists (String c pre), post. auto.
    + intros (pre & post & E & H). destruct pre as [|c' pre].
      * rewrite append_nil in E. subst post. left. exact H.
      * rewrite append_cons in E. injection E as -> ->. right. eauto.
Qed.

Lemma like_any s : like "%" s = true.
Proof.
  apply like_percent. exists s, "". split; [|reflexivity].
  induction s as [|c s IH]; [reflexivity|]. rewrite append_cons, <- IH. reflexivity.
Qed.

(** A pattern without wildcards consumes a piece of the string that is the
    pattern up to case. *)
Lemma like_literal q r : forall s,
  no_wildcard q = true ->
  (like (q +:+ r) s = true
   <-> exists mid post, s = mid +:+ post /\ toLowerCase mid = toLowerCase q
                        /\ like r post = true).
Proof.
  induction q as [|p q IH]; intros s Hq.
  - rewrite append_nil. split.
    + intros H. exists "", s. auto.
    + intros (mid & post & -> & Hm & H). destruct mid; [exact H | discriminate Hm].
  - cbn [no_wildcard] in Hq. apply andb_true_iff in Hq as [Hq Hq'].
    apply andb_true_iff in Hq as [H1 H2].
    apply negb_true_iff in H1, H2. apply bool_decide_eq_false in H1, H2.
    rewrite append_cons, (like_char_eq _ _ _ H1 H2).
    destruct s as [|c s].
    + split; [discriminate|]. intros (mid & post & E & Hm & _).
      destruct mid; [discriminate Hm | discriminate E].
    + rewrite andb_true_iff, bool_decide_eq_true, (IH s Hq'). split.
      * intros [Ec (mid & post & -> & Hm & H)].
        exists (String c mid), post. cbn [toLowerCase]. rewrite Ec, Hm. auto.
      * intros (mid & post & E & Hm & H).
        destruct mid as [|c' mid]; [discriminate Hm|].
        rewrite append_cons in E. cbn [toLowerCase] in Hm.
        injection E as -> ->. injection Hm as Ec Hm.
        split; [exact Ec|]. eauto.
Qed.

(** The search term of a query without wildcards matches the strings in
    which the query occurs. *)
Lemma like_contains q s :
  no_wildcard q = true ->
  (like ("%" +:+ q +:+ "%") s = true <-> contains_nocase q s).
Proof.
  intros Hq. rewrite append_cons, append_nil, like_percent. unfold contains_nocase. split.
  - intros (pre & post & -> & H). apply (like_literal q "%" post Hq) in H.
    destruct H as (mid & post' & -> & Hm & _). eauto.
  - intros (pre & mid & post & -> & Hm). exists pre, (mid +:+ post). split; [reflexivity|].
    apply (like_literal q "%" _ Hq). exists mid, post. split; [reflexivity|].
    split; [exact Hm | apply like_any].
Qed.

End Like.

(** The matcher on some patterns. *)
Example like_examples :
  Database.like "%OVI%" "Movie" = true
  /\ Database.like "%x%" "Movie" = false
  /\ Database.like "%a_c%" "xxabcxx" = true
  /\ Database.like "%a%c%" "xxa12cxx" = true
  /\ Database.like "%b" "abc" = false
  /\ Database.like "__" "ab" = true
  /\ Database.like "%_%" "" = false.
Proof. repeat split. Qed.

Section Search.
Import JS Database Properties.
Local Open Scope Z_scope.

Lemma search_where_found q v :
  no_wildcard q = true ->
  (search_where ("%" +:+ q +:+ "%") v = true <-> found_in q v).
Proof.
  intros Hq. unfold search_where, found_in.
  rewrite !orb_true_iff, !(like_contains q _ Hq).
  assert (He : like_null ("%" +:+ q +:+ "%") (v_episode_name v) = true
               <-> exists e, v_episode_name v = Some e /\ contains_nocase q e).
  { destruct (v_episode_name v) as [e|]; cbn [like_null].
    - rewrite (like_contains q e Hq). split; [eauto|]. intros (e' & [= <-] & H). exact H.
    - split; [discriminate|]. intros (e' & E & _). discriminate E. }
  rewrite He. tauto.
Qed.

Lemma newest_before_order x y :
  may_precede (fun y x : job_view => j_created_at (v_job x) <? j_created_at (v_job y)) x y
  <-> newest_first x y.
Proof. unfold may_precede, newest_first. rewrite Z.ltb_ge. reflexivity. Qed.

(** [searchJobs] with a query that holds no [%] and no [_]: the rows returned
    are jobs in whose title, episode name, file path or status the query
    occurs (ASCII case ignored); they are the newest such jobs, newest
    first: [limit] of them, or all when these are fewer, and no job that
    matches and is left out was created later than a job that is
    returned. *)
Theorem searchJobs_finds_the_newest_matches query limit d :
  no_wildcard query = true ->
  let found := searchJobs query limit d in
  let matches := List.filter (search_where ("%" +:+ query +:+ "%")) (joined d) in
  (forall v, In v found -> In v (joined d) /\ found_in query v)
  /\ (forall v, In v (joined d) -> found_in query v -> In v matches)
  /\ StronglySorted newest_first found
  /\ length found = (if limit <? 0 then length matches
                     else Nat.min (Z.to_nat limit) (length matches))
  /\ (forall v v', In v found -> In v' matches -> ~ In v' found -> newest_first v v').
Proof.
  intros Hq. cbv zeta. unfold searchJobs.
  set (before := fun y x : job_view => j_created_at (v_job x) <? j_created_at (v_job y)).
  destruct (limit_order_by before) with (limit := limit)
    (l := List.filter (search_where ("%" +:+ query +:+ "%")) (joined d))
    as (Hs & Hout & Hin & Hlen).
  - subst before. cbn. intros x y H. apply Z.ltb_lt in H. apply Z.ltb_ge. lia.
  - subst before. cbn. intros x y z H1 H2. apply Z.ltb_ge in H1, H2. apply Z.ltb_ge. lia.
  - split; [|split; [|split; [|split]]].
    + intros v Hv. apply Hin, filter_In in Hv as [Hv Hw].
      split; [exact Hv | apply search_where_found; assumption].
    + intros v Hv Hf. apply filter_In. split; [exact Hv | apply search_where_found; assumption].
    + eapply sorted_impl; [|exact Hs]. intros x y. apply newest_before_order.
    + exact Hlen.
    + intros v v' Hv Hv' Hn. apply (newest_before_order v v'). apply Hout; assumption.
Qed.

Lemma status_text_nonempty st : status_text st <> "".
Proof. destruct st; discriminate. Qed.

Lemma like_one s : like "%_%" s = negb (bool_decide (s = "")).
Proof.
  destruct s as [|c s]; [reflexivity|].
  rewrite like_percent_eq. cbn [like].
  rewrite bool_decide_eq_false_2 by discriminate.
  rewrite bool_decide_eq_true_2 by reflexivity.
  change (like "%" s || like "%_%" s = negb (bool_decide (String c s = ""))).
  rewrite like_any. rewrite bool_decide_eq_false_2 by discriminate. reflexivity.
Qed.

Lemma filter_all {A} (f : A -> bool) l : (forall x, In x l -> f x = true) -> List.filter f l = l.
Proof.
  induction l as [|x l IH]; simpl; intros H; [reflexivity|].
  rewrite (H x) by (left; reflexivity). f_equal. apply IH. intros y Hy. apply H. right. exact Hy.
Qed.

(** The characters [%] and [_] of a query are wildcards of LIKE: the
    queries [%] and [_], like the empty query, select every job, so each of
    them returns the newest [limit] jobs of the store whatever their titles,
    paths and statuses. *)
Theorem searchJobs_wildcard_queries limit d :
  let all := limit_offset limit 0
               (order_by (fun y x => j_created_at (v_job x) <? j_created_at (v_job y))
                         (joined d)) in
  searchJobs "" limit d = all
  /\ searchJobs "%" limit d = all
  /\ searchJobs "_" limit d = all.
Proof.
  cbv zeta. unfold searchJobs. repeat split; f_equal; f_equal; apply filter_all; intros v _;
    unfold search_where.
  - change ("%" +:+ "" +:+ "%") with "%%".
    assert (H : forall s, like "%%" s = true).
    { intros s. apply like_percent. exists "", s. split; [reflexivity | apply like_any]. }
    rewrite H. reflexivity.
  - change ("%" +:+ "%" +:+ "%") with "%%%".
    assert (H : forall s, like "%%%" s = true).
    { intros s. apply like_percent. exists "", s. split; [reflexivity|].
      apply like_percent. exists "", s. split; [reflexivity | apply like_any]. }
    rewrite H. reflexivity.
  - change ("%" +:+ "_" +:+ "%") with "%_%".
    rewrite !like_one.
    rewrite (bool_decide_eq_false_2 _ (status_text_nonempty (status (v_job v)))).
    cbn [negb]. apply orb_true_r.
Qed.

End Search.

(** The query "MOVIE" on the scanned library: what is found is newest
    first (it is the job of the film). *)
Lemma searchJobs_witness :
  StronglySorted Properties.newest_first (Database.searchJobs "MOVIE" 50 Examples.db_scanned).
Proof.
  exact (proj1 (proj2 (proj2
           (searchJobs_finds_the_newest_matches "MOVIE" 50 Examples.db_scanned eq_refl)))).
Defined.

(** ** Windows and times of day *)

Section TimeStrings.
Import JS Database Scanner Encoder Scheduler System Properties.

Lemma compare_trans_le (a b c : string) :
  String.leb a b = true -> String.leb b c = true -> String.leb a c = true.
Proof.
  unfold String.leb. revert b c.
  induction a as [|x a IH]; intros [|y b] [|z c]; cbn; try congruence.
  unfold Ascii.compare.
  destruct (N.compare_spec (N_of_ascii x) (N_of_ascii y)) as [E1|L1|G1];
    destruct (N.compare_spec (N_of_ascii y) (N_of_ascii z)) as [E2|L2|G2];
    try congruence.
  - rewrite E1, E2, N.compare_refl. apply IH.
  - rewrite E1. apply N.compare_lt_iff in L2. rewrite L2. reflexivity.
  - rewrite <- E2. apply N.compare_lt_iff in L1. rewrite L1. reflexivity.
  - assert (H : (N_of_ascii x < N_of_ascii z)%N) by lia.
    apply N.compare_lt_iff in H. rewrite H. reflexivity.
Qed.

Lemma two_digits_below_100 : forallb two_digits (seq 0 100) = true.
Proof. vm_compute. reflexivity. Qed.

Lemma padStart2_two_digits n :
  (n < 100)%nat ->
  exists c1 c2, padStart2 (toString n) = String c1 (String c2 EmptyString)
                /\ N_of_ascii c1 = (48 + N.of_nat (n / 10))%N
                /\ N_of_ascii c2 = (48 + N.of_nat (n mod 10))%N.
Proof.
  intros H. pose proof two_digits_below_100 as Hall.
  rewrite forallb_forall in Hall. specialize (Hall n ltac:(apply in_seq; lia)).
  unfold two_digits in Hall.
  destruct (padStart2 (toString n)) as [|c1 [|c2 [|]]]; try discriminate Hall.
  apply andb_true_iff in Hall as [H1 H2]. apply N.eqb_eq in H1, H2. eauto.
Qed.

(** Zero-padded times of day compare as strings the way they compare as
    times. *)
Lemma hhmm_leb h1 m1 h2 m2 :
  (h1 < 100)%nat -> (m1 < 100)%nat -> (h2 < 100)%nat -> (m2 < 100)%nat ->
  String.leb (hhmm h1 m1) (hhmm h2 m2)
  = (h1 <? h2)%nat || ((h1 =? h2)%nat && (m1 <=? m2)%nat).
Proof.
  intros Hh1 Hm1 Hh2 Hm2. unfold hhmm, currentTime. cbn [getHours getMinutes].
  destruct (padStart2_two_digits h1 Hh1) as (a1 & b1 & -> & Ea1 & Eb1).
  destruct (padStart2_two_digits m1 Hm1) as (c1 & d1 & -> & Ec1 & Ed1).
  destruct (padStart2_two_digits h2 Hh2) as (a2 & b2 & -> & Ea2 & Eb2).
  destruct (padStart2_two_digits m2 Hm2) as (c2 & d2 & -> & Ec2 & Ed2).
  change (String.leb (String a1 (String b1 (String ":" (String c1 (String d1 "")))))
                     (String a2 (String b2 (String ":" (String c2 (String d2 "")))))
          = (h1 <? h2)%nat || ((h1 =? h2)%nat && (m1 <=? m2)%nat)).
  unfold String.leb. cbn [String.compare]. unfold Ascii.compare.
  rewrite Ea1, Eb1, Ec1, Ed1, Ea2, Eb2, Ec2, Ed2. cbn [N_of_ascii N_of_digits].
  pose proof (Nat.div_mod_eq h1 10) as D1. pose proof (Nat.mod_upper_bound h1 10 ltac:(lia)) as U1.
  pose proof (Nat.div_mod_eq h2 10) as D2. pose proof (Nat.mod_upper_bound h2 10 ltac:(lia)) as U2.
  pose proof (Nat.div_mod_eq m1 10) as D3. pose proof (Nat.mod_upper_bound m1 10 ltac:(lia)) as U3.
  pose proof (Nat.div_mod_eq m2 10) as D4. pose proof (Nat.mod_upper_bound m2 10 ltac:(lia)) as U4.
  generalize dependent (h1 / 10)%nat. generalize dependent (h1 mod 10)%nat.
  generalize dependent (h2 / 10)%nat. generalize dependent (h2 mod 10)%nat.
  generalize dependent (m1 / 10)%nat. generalize dependent (m1 mod 10)%nat.
  generalize dependent (m2 / 10)%nat. generalize dependent (m2 mod 10)%nat.
  intros.
  repeat match goal with
  | |- context [N.compare ?x ?y] => destruct (N.compare_spec x y)
  end;
  symmetry;
  repeat match goal with
  | |- context [(?x <? ?y)%nat] => destruct (Nat.ltb_spec x y)
  | |- context [(?x =? ?y)%nat] => destruct (Nat.eqb_spec x y)
  | |- context [(?x <=? ?y)%nat] => destruct (Nat.leb_spec x y)
  end; cbn; try reflexivity; exfalso; lia.
Qed.

End TimeStrings.

Section Windows.
Import JS Database Scanner Encoder Scheduler System Properties.
Context {R : runtime}.
Local Open Scope js_scope.

Lemma checkIfScheduleShouldBeActive_paused item now s :
  isQueuePaused (snd (checkIfScheduleShouldBeActive item now s))
  = negb (includes_day (daysArray item) (getDay now) && in_window item now).
Proof.
  rewrite checkIfScheduleShouldBeActive_state.
  destruct (includes_day _ _ && in_window item now); [|reflexivity].
  rewrite setMaxParallelJobs_after. cbn. apply resumeQueue_control.
Qed.

(** A rule whose times of day are zero-padded [HH:MM], as the time inputs of
    the settings page produce them, is evaluated chronologically: on a day
    of the rule the queue runs exactly when the time of the evaluation is
    not before the start and not after the end of the window, to the
    minute. *)
Theorem schedule_window_is_chronological item day h m hs ms he me s :
  start_time item = hhmm hs ms -> end_time item = hhmm he me ->
  (h < 24)%nat -> (m < 60)%nat ->
  (hs < 24)%nat -> (ms < 60)%nat -> (he < 24)%nat -> (me < 60)%nat ->
  includes_day (daysArray item) day = true ->
  let s' := snd (checkIfScheduleShouldBeActive item (mkDate day h m) s) in
  isQueuePaused s' = false
  <-> (minutes hs ms <= minutes h m /\ minutes h m <= minutes he me)%nat.
Proof.
  intros Es Ee Hh Hm Hhs Hms Hhe Hme Hday. cbv zeta.
  rewrite checkIfScheduleShouldBeActive_paused. cbn [getDay]. rewrite Hday. cbn [andb].
  rewrite negb_false_iff. unfold in_window, str_ge, str_le. rewrite Es, Ee.
  change (currentTime (mkDate day h m)) with (hhmm h m).
  rewrite !hhmm_leb by lia. unfold minutes.
  rewrite andb_true_iff, !orb_true_iff, !andb_true_iff.
  rewrite !Nat.ltb_lt, !Nat.eqb_eq, !Nat.leb_le. lia.
Qed.

(** A rule whose start is later in the day than its end, a window over
    midnight such as 22:00 to 06:00, is never found active: evaluated at any
    time of any day it pauses the queue. *)
Theorem window_over_midnight_is_never_active item now s :
  String.leb (start_time item) (end_time item) = false ->
  checkIfScheduleShouldBeActive item now s = pauseQueue s.
Proof.
  intros H. unfold checkIfScheduleShouldBeActive.
  destruct (includes_day _ _); [|reflexivity].
  replace (in_window item now) with false; [reflexivity|].
  symmetry. unfold in_window, str_ge, str_le.
  destruct (String.leb (start_time item) (currentTime now)) eqn:E1; [|reflexivity].
  destruct (String.leb (currentTime now) (end_time item)) eqn:E2; [|reflexivity].
  rewrite (compare_trans_le _ _ _ E1 E2) in H. discriminate H.
Qed.

End Windows.

(** The rule of the settings page, every day from 22:00 to 06:00, at 23:30
    on a Monday. *)
Lemma window_over_midnight_witness :
  Encoder.isQueuePaused
    (snd (Scheduler.checkIfScheduleShouldBeActive (R := Posix.posix)
            (Scheduler.mkScheduleItem 1 "0,1,2,3,4,5,6" "22:00" "06:00" 3 true)
            (Scheduler.mkDate 1 23 30) Examples.scanned)) = true.
Proof.
  rewrite (window_over_midnight_is_never_active (R := Posix.posix)); reflexivity.
Defined.

(** A rule for every day from 08:30 to 17:00, at 17:00 on a Monday. *)
Lemma schedule_window_witness :
  Encoder.isQueuePaused
    (snd (Scheduler.checkIfScheduleShouldBeActive (R := Posix.posix)
            (Scheduler.mkScheduleItem 1 "0,1,2,3,4,5,6" "08:30" "17:00" 3 true)
            (Scheduler.mkDate 1 17 0) Examples.scanned)) = false.
Proof.
  apply (schedule_window_is_chronological (R := Posix.posix)
           (Scheduler.mkScheduleItem 1 "0,1,2,3,4,5,6" "08:30" "17:00" 3 true)
           1%Z 17 0 8 30 17 0 Examples.scanned);
    try reflexivity; try lia.
  unfold Properties.minutes. lia.
Defined.

(** ** The names of files: extractMediaInfo *)

Section EpisodeMatch.
Import JS Database Scanner Encoder Scheduler System Properties.

Lemma append_assoc (a b c : string) : (a +:+ b) +:+ c = a +:+ b +:+ c.
Proof. induction a as [|x a IH]; [reflexivity|]. rewrite !append_cons, IH. reflexivity. Qed.

Lemma append_nil_r (a : string) : a +:+ "" = a.
Proof. induction a as [|x a IH]; [reflexivity|]. rewrite append_cons, IH. reflexivity. Qed.

Lemma letter_not_digit l c :
  is_letter l c = true -> is_digit l = false -> is_digit c = false.
Proof.
  unfold is_letter. intros H Hl. apply bool_decide_eq_true in H.
  destruct (is_digit c) eqn:E; [|reflexivity].
  assert (lower_ascii c = c).
  { unfold lower_ascii. unfold is_digit in E. cbv zeta in *.
    destruct (65 <=? nat_of_ascii c)%nat eqn:E1; [|reflexivity].
    apply andb_true_iff in E as [_ E]. apply Nat.leb_le in E1, E. lia. }
  congruence.
Qed.

(** [skip_digits] removes the digits the string begins with. *)
Lemma skip_digits_app n r :
  all_digits n = true ->
  (forall c r', r = String c r' -> is_digit c = false) ->
  skip_digits (n +:+ r) = r.
Proof.
  intros Hn Hr. induction n as [|c n IH].
  - rewrite append_nil. destruct r as [|c r']; [reflexivity|].
    cbn [skip_digits]. rewrite (Hr c r' eq_refl). reflexivity.
  - cbn [all_digits] in Hn. apply andb_true_iff in Hn as [Hc Hn].
    rewrite append_cons. cbn [skip_digits]. rewrite Hc. apply IH, Hn.
Qed.

Lemma skip_digits_split r :
  exists n, all_digits n = true /\ r = n +:+ skip_digits r.
Proof.
  induction r as [|c r IH].
  - exists "". split; reflexivity.
  - cbn [skip_digits]. destruct (is_digit c) eqn:E.
    + destruct IH as (n & Hn & Er). exists (String c n). split.
      * cbn [all_digits]. rewrite E, Hn. reflexivity.
      * rewrite append_cons, <- Er. reflexivity.
    + exists "". split; reflexivity.
Qed.

Lemma starts_SE_spec s :
  starts_SE s = true
  <-> exists a n1 b n2 post,
        s = String a n1 +:+ String b n2 +:+ post
        /\ is_letter "s" a = true /\ digit_run n1 /\ is_letter "e" b = true /\ digit_run n2.
Proof.
  split.
  - destruct s as [|c [|d r]]; try discriminate. cbn [starts_SE].
    rewrite !andb_true_iff. intros [[Hc Hd] H].
    destruct (skip_digits_split r) as (n & Hn & Er).
    destruct (skip_digits r) as [|e [|d2 rest]]; try discriminate H.
    apply andb_true_iff in H as [He Hd2].
    exists c, (String d n), e, (String d2 ""), rest.
    split; [rewrite Er, !append_cons, append_nil; reflexivity|].
    split; [exact Hc|]. split; [split; [discriminate | cbn; rewrite Hd, Hn; reflexivity]|].
    split; [exact He|]. split; [discriminate | cbn; rewrite Hd2; reflexivity].
  - intros (a & n1 & b & n2 & post & -> & Ha & [N1 D1] & Hb & [N2 D2]).
    destruct n1 as [|d n1]; [contradiction N1; reflexivity|].
    destruct n2 as [|d2 n2]; [contradiction N2; reflexivity|].
    cbn [all_digits] in D1, D2.
    apply andb_true_iff in D1 as [Hd D1]. apply andb_true_iff in D2 as [Hd2 D2].
    rewrite !append_cons. cbn [starts_SE]. rewrite Ha, Hd. cbn [andb].
    rewrite skip_digits_app; [rewrite Hb, Hd2; reflexivity | exact D1 |].
    intros c r' [= <- _]. eapply letter_not_digit; [exact Hb | reflexivity].
Qed.

Lemma starts_NxN_spec s :
  starts_NxN s = true
  <-> exists d x d2 rest,
        s = String d (String x (String d2 rest))
        /\ is_digit d = true /\ is_letter "x" x = true /\ is_digit d2 = true.
Proof.
  split.
  - destruct s as [|d [|x [|d2 rest]]]; try discriminate. cbn [starts_NxN].
    rewrite !andb_true_iff. intros [[H1 H2] H3]. exists d, x, d2, rest. auto.
  - intros (d & x & d2 & rest & -> & H1 & H2 & H3). cbn [starts_NxN].
    rewrite H1, H2, H3. reflexivity.
Qed.

(** [episodeMatch] looks for a match at every position. *)
Lemma episodeMatch_somewhere s :
  episodeMatch s = true
  <-> exists pre suf, s = pre +:+ suf /\ (starts_SE suf = true \/ starts_NxN suf = true).
Proof.
  induction s as [|c s IH].
  - cbn. split; [discriminate|]. intros (pre & suf & E & H).
    destruct pre; [|discriminate E]. rewrite append_nil in E. subst suf.
    destruct H as [H | H]; discriminate H.
  - cbn [episodeMatch]. rewrite !orb_true_iff, IH. split.
    + intros [[H | H] | (pre & suf & -> & H)].
      * exists "", (String c s). auto.
      * exists "", (String c s). auto.
      * exists (String c pre), suf. auto.
    + intros (pre & suf & E & H). destruct pre as [|c' pre].
      * rewrite append_nil in E. subst suf. left. destruct H; auto.
      * rewrite append_cons in E. injection E as -> ->. right. eauto.
Qed.

(** A run of digits that is not empty ends with a digit. *)
Lemma digits_last n :
  digit_run n -> exists n' d, n = n' +:+ String d "" /\ is_digit d = true.
Proof.
  intros [N D]. induction n as [|c n IH]; [contradiction N; reflexivity|].
  cbn [all_digits] in D. apply andb_true_iff in D as [Hc D].
  destruct n as [|c' n].
  - exists "", c. auto.
  - destruct IH as (n' & d & E & Hd); [discriminate | exact D|].
    exists (String c n'), d. rewrite append_cons, <- E. auto.
Qed.

(** The model of the regular expression: [episodeMatch] finds what
    [/S(\d+)E(\d+)|(\d+)x(\d+)/i] matches somewhere in the string. *)
Lemma episodeMatch_spec s : episodeMatch s = true <-> episode_marker s.
Proof.
  rewrite episodeMatch_somewhere. unfold episode_marker. split.
  - intros (pre & suf & -> & [H | H]).
    + left. apply starts_SE_spec in H as (a & n1 & b & n2 & post & -> & H).
      exists pre, a, n1, b, n2, post. split; [reflexivity | exact H].
    + right. apply starts_NxN_spec in H as (d & x & d2 & rest & -> & H1 & H2 & H3).
      exists pre, (String d ""), x, (String d2 ""), rest.
      split; [reflexivity|].
      split; [split; [discriminate | cbn; rewrite H1; reflexivity]|].
      split; [exact H2|]. split; [discriminate | cbn; rewrite H3; reflexivity].
  - intros [(pre & a & n1 & b & n2 & post & -> & H) | (pre & n1 & x & n2 & post & -> & H1 & H2 & H3)].
    + exists pre, (String a n1 +:+ String b n2 +:+ post). split; [reflexivity|].
      left. apply starts_SE_spec. exists a, n1, b, n2, post. auto.
    + destruct (digits_last n1 H1) as (n1' & d & -> & Hd).
      destruct H3 as [N2 D2]. destruct n2 as [|d2 n2]; [contradiction N2; reflexivity|].
      cbn [all_digits] in D2. apply andb_true_iff in D2 as [Hd2 _].
      exists (pre +:+ n1'), (String d (String x (String d2 (n2 +:+ post)))). split.
      * rewrite !append_assoc, !append_cons, append_nil. reflexivity.
      * right. apply starts_NxN_spec. exists d, x, d2, (n2 +:+ post). auto.
Qed.

End EpisodeMatch.

Section MediaInfoClaim.
Import JS Database Scanner Encoder Scheduler System Properties.

(** [extractMediaInfo] classifies by the file name without its extension: a
    name in which [S<digits>E<digits>] or [<digits>x<digits>] occurs, in
    either case of the letters, is an episode, titled by the name of its
    directory; every other name is a film titled by the name itself.  A
    film whose name carries a resolution such as 1920x1080 is therefore
    recorded as an episode. *)
Theorem extractMediaInfo_follows_the_marker {R : runtime} filePath :
  let fileName := path_basename_ext filePath (path_extname filePath) in
  (episode_marker fileName ->
     extractMediaInfo filePath
     = (path_basename (path_dirname filePath), Some fileName, "tv"))
  /\ (~ episode_marker fileName -> extractMediaInfo filePath = (fileName, None, "movie"))
  /\ (forall pre w h post,
        fileName = pre +:+ w +:+ String "x" h +:+ post -> digit_run w -> digit_run h ->
        snd (extractMediaInfo filePath) = "tv").
Proof.
  cbv zeta. unfold extractMediaInfo.
  pose proof (episodeMatch_spec (path_basename_ext filePath (path_extname filePath))) as H.
  destruct (episodeMatch _) eqn:E.
  - split; [reflexivity|]. split; [|reflexivity].
    intros Hn. exfalso. apply Hn, H. reflexivity.
  - split; [|split; [reflexivity|]].
    + intros Hm. apply H in Hm. discriminate Hm.
    + intros pre w h post Ef Hw Hh. exfalso.
      assert (Hm : episode_marker (path_basename_ext filePath (path_extname filePath))).
      { right. exists pre, w, "x"%char, h, post. auto. }
      apply H in Hm. discriminate Hm.
Qed.

(** A film in /lib/films whose name carries its resolution. *)
Example extractMediaInfo_resolution :
  extractMediaInfo (R := Posix.posix) "/lib/films/Blade Runner 1920x1080.mkv"
  = ("films", Some "Blade Runner 1920x1080", "tv").
Proof. reflexivity. Qed.

End MediaInfoClaim.

(** ** The slots of the engine *)

#[export] Instance nothing_released_kept : Properties.Kept Properties.nothing_released.
Proof.
  split.
  - intros s. split; [lia | auto].
  - intros a b c [A1 M1] [A2 M2]. split; [lia | auto].
  - intros s u. split; [cbn; lia | auto].
Qed.

Section Released.
Import JS Database Scanner Encoder Scheduler System Properties.
Local Open Scope Z_scope.
Local Open Scope js_scope.







End Released.


Section ReleasedSteps.
Import JS Database Scanner Encoder Scheduler System Properties.
Context {R : runtime}.
Local Open Scope Z_scope.
Local Open Scope js_scope.







End ReleasedSteps.

(** ** The scheduler and node-schedule *)

Section SchedulerRuns.
Import JS Database Scanner Encoder Scheduler System Properties.
Context {R : runtime} {NS : node_schedule}.
Local Open Scope Z_scope.
Local Open Scope sched_scope.

Lemma set_sched_same w : set_sched (sched w) w = w.
Proof. destruct w; reflexivity. Qed.

(** [cancelJobs] on an entry with its two jobs, and on no entry. *)
Lemma cancelJobs_unregister id w :
  (forall a b, scheduleJobs (sched w) !! id = Some (a, b) -> exists x y, a = Some x /\ b = Some y) ->
  cancelJobs id w = (Ret tt, set_sched (unregister id (sched w)) w).
Proof.
  intros H. unfold cancelJobs, unregister, wbind at 1, wgets. cbn [fst snd].
  destruct (scheduleJobs (sched w) !! id) as [[a b]|] eqn:E.
  - destruct (H a b eq_refl) as (x & y & -> & ->).
    destruct w as [s c]. destruct c. reflexivity.
  - unfold wret. rewrite set_sched_same. reflexivity.
Qed.

(** [cancelJobs] on an entry whose start job is [null]. *)
Lemma cancelJobs_null id w b :
  scheduleJobs (sched w) !! id = Some (None, b) ->
  cancelJobs id w
  = (Throw (TypeError "Cannot read properties of null (reading 'cancel')"), w).
Proof.
  intros E. unfold cancelJobs, wbind at 1, wgets. cbn [fst snd]. rewrite E. reflexivity.
Qed.

Lemma lift_checkIf item now w :
  lift (checkIfScheduleShouldBeActive item now) w
  = (Ret tt, set_engine (snd (checkIfScheduleShouldBeActive item now (engine w))) w).
Proof.
  unfold lift.
  assert (H : fst (checkIfScheduleShouldBeActive item now (engine w)) = Ret tt).
  { unfold checkIfScheduleShouldBeActive.
    destruct (includes_day _ _); [|reflexivity].
    destruct (in_window item now); [|reflexivity].
    unfold Encoder.bind at 1. pose proof (resumeQueue_returns (engine w)) as Hr.
    destruct (resumeQueue (engine w)) as [[[]|e] s1]; [reflexivity | discriminate Hr]. }
  destruct (checkIfScheduleShouldBeActive item now (engine w)) as [[[]|e] s];
    [reflexivity | discriminate H].
Qed.

(** [setUpSchedule] of a row when node-schedule accepts its two rules. *)
Lemma setUpSchedule_register item now w :
  (forall a b, scheduleJobs (sched w) !! s_id item = Some (a, b) ->
               exists x y, a = Some x /\ b = Some y) ->
  schedulable (startRule item) = true -> schedulable (endRule item) = true ->
  setUpSchedule (Some item) now w
  = (Ret true,
     mkWorld (snd (checkIfScheduleShouldBeActive item now (engine w)))
             (register item (unregister (s_id item) (sched w)))).
Proof.
  intros H Hs He. unfold setUpSchedule. unfold wbind at 1.
  rewrite (cancelJobs_unregister _ _ H).
  unfold scheduleJob. rewrite Hs, He.
  unfold wbind, wgets, wmodify, wret. cbn [fst snd sched set_sched].
  rewrite lift_checkIf. cbn [fst snd engine sched set_engine set_sched].
  unfold register. cbn. reflexivity.
Qed.

End SchedulerRuns.

Section SchedulerInvariant.
Import JS Database Scanner Encoder Scheduler System Properties.
Context {R : runtime}.
Local Open Scope Z_scope.

Lemma start_end_differ item item' : startJob_of item <> endJob_of item'.
Proof. unfold startJob_of, endJob_of. intros H. discriminate H. Qed.

Lemma owner_start item : owner (startJob_of item) = s_id item.
Proof. reflexivity. Qed.

Lemma owner_end item : owner (endJob_of item) = s_id item.
Proof. reflexivity. Qed.

Lemma synced_but_weaken (todo todo' : Z -> Prop) c :
  (forall id, todo id -> todo' id) -> synced_but todo c -> synced_but todo' c.
Proof.
  intros Hsub [H1 H2 H3 H4 H5]. split; try assumption.
  intros item Hin Ha Hn. apply H5; auto.
Qed.

Lemma synced_but_done (todo : Z -> Prop) id0 c :
  (forall item, In item (tbl_schedule c) -> s_id item = id0 -> active item = false) ->
  synced_but (fun id => todo id \/ id = id0) c -> synced_but todo c.
Proof.
  intros Hin [H1 H2 H3 H4 H5]. split; try assumption.
  intros item Hi Ha Hn. apply H5; [assumption | assumption |].
  intros [Ht | E]; [contradiction|]. rewrite (Hin item Hi E) in Ha. discriminate Ha.
Qed.

(** After the table has changed in the rows of [id0] only, cancelling the
    jobs of [id0] leaves a scheduler that agrees with the new table but for
    [id0]. *)
Lemma unregister_synced (todo : Z -> Prop) id0 c tbl' seq' :
  synced_but todo c ->
  NoDup (List.map s_id tbl') -> (forall item, In item tbl' -> s_id item <= seq') ->
  (forall item, s_id item <> id0 -> (In item tbl' <-> In item (tbl_schedule c))) ->
  let c' := unregister id0 (with_table tbl' seq' c) in
  synced_but (fun id => todo id \/ id = id0) c'
  /\ scheduleJobs c' !! id0 = None
  /\ tbl_schedule c' = tbl' /\ seq_schedule c' = seq'.
Proof.
  intros [H1 H2 H3 H4 H5] Hnd Hbelow Hsame. cbv zeta.
  unfold unregister, with_table. cbn [scheduleJobs pending tbl_schedule seq_schedule next_job].
  destruct (scheduleJobs c !! id0) as [[a b]|] eqn:E.
  - destruct (H3 id0 a b E) as (x0 & y0 & item0 & -> & -> & Hin0 & Eid0 & Hact0 & Px0 & Py0).
    split; [|split; [apply lookup_delete_eq | split; reflexivity]].
    split; cbn [scheduleJobs pending tbl_schedule seq_schedule next_job].
    + exact Hnd.
    + exact Hbelow.
    + intros id a b Hab.
      destruct (decide (id = id0)) as [->|Hne]; [rewrite lookup_delete_eq in Hab; discriminate|].
      rewrite lookup_delete_ne in Hab by congruence.
      destruct (H3 id a b Hab) as (x & y & item & -> & -> & Hin & Eid & Hact & Px & Py).
      exists x, y, item. repeat split; try assumption.
      * apply Hsame; [congruence | exact Hin].
      * assert (x <> x0) by (intros ->; rewrite Px in Px0; injection Px0 as _ H0; congruence).
        assert (x <> y0) by (intros ->; rewrite Px in Py0; discriminate Py0).
        rewrite !lookup_delete_ne by congruence. exact Px.
      * assert (y <> x0) by (intros ->; rewrite Py in Px0; discriminate Px0).
        assert (y <> y0) by (intros ->; rewrite Py in Py0; injection Py0 as _ H0; congruence).
        rewrite !lookup_delete_ne by congruence. exact Py.
    + intros n j Hn.
      destruct (decide (n = y0)) as [->|Hy]; [rewrite lookup_delete_eq in Hn; discriminate|].
      rewrite lookup_delete_ne in Hn by congruence.
      destruct (decide (n = x0)) as [->|Hx]; [rewrite lookup_delete_eq in Hn; discriminate|].
      rewrite lookup_delete_ne in Hn by congruence.
      destruct (H4 n j Hn) as (Hlt & a & b & Hab & Hor). split; [exact Hlt|].
      exists a, b. split; [|exact Hor].
      destruct (decide (owner j = id0)) as [Eo|Hne].
      * exfalso. rewrite Eo, E in Hab. injection Hab as <- <-.
        destruct Hor as [[= ->] | [= ->]]; congruence.
      * rewrite lookup_delete_ne by congruence. exact Hab.
    + intros item Hin Hact Hn.
      assert (Hne : s_id item <> id0) by (intros Eq; apply Hn; right; exact Eq).
      rewrite lookup_delete_ne by congruence.
      apply H5; [apply Hsame; assumption | exact Hact | intros Ht; apply Hn; left; exact Ht].
  - split; [|split; [exact E | split; reflexivity]].
    split; cbn [scheduleJobs pending tbl_schedule seq_schedule next_job].
    + exact Hnd.
    + exact Hbelow.
    + intros id a b Hab.
      destruct (H3 id a b Hab) as (x & y & item & -> & -> & Hin & Eid & Hact & Px & Py).
      exists x, y, item. repeat split; try assumption.
      apply Hsame; [|exact Hin]. intros Eq. rewrite Eid in Eq. subst id. congruence.
    + exact H4.
    + intros item Hin Hact Hn.
      assert (Hne : s_id item <> id0) by (intros Eq; apply Hn; right; exact Eq).
      apply H5; [apply Hsame; assumption | exact Hact | intros Ht; apply Hn; left; exact Ht].
Qed.

(** Scheduling and storing the two jobs of an active row that has no entry
    completes the row. *)
Lemma register_synced (todo : Z -> Prop) item0 c :
  synced_but todo c ->
  scheduleJobs c !! s_id item0 = None -> In item0 (tbl_schedule c) -> active item0 = true ->
  synced_but (fun id => todo id /\ id <> s_id item0) (register item0 c).
Proof.
  intros [H1 H2 H3 H4 H5] Hnone Hin0 Hact0. unfold register.
  split; cbn [scheduleJobs pending tbl_schedule seq_schedule next_job].
  - exact H1.
  - exact H2.
  - intros id a b Hab.
    destruct (decide (id = s_id item0)) as [->|Hne].
    + rewrite lookup_insert_eq in Hab. injection Hab as <- <-.
      exists (next_job c), (S (next_job c)), item0. repeat split; try assumption.
      * rewrite lookup_insert_ne by lia. apply lookup_insert_eq.
      * apply lookup_insert_eq.
    + rewrite lookup_insert_ne in Hab by congruence.
      destruct (H3 id a b Hab) as (x & y & item & -> & -> & Hin & Eid & Hact & Px & Py).
      exists x, y, item. repeat split; try assumption.
      * destruct (H4 x _ Px) as [Hlt _]. rewrite !lookup_insert_ne by lia. exact Px.
      * destruct (H4 y _ Py) as [Hlt _]. rewrite !lookup_insert_ne by lia. exact Py.
  - intros n j Hn.
    destruct (decide (n = S (next_job c))) as [->|Hn1].
    { rewrite lookup_insert_eq in Hn. injection Hn as <-. split; [lia|].
      rewrite owner_end, lookup_insert_eq. eauto. }
    rewrite lookup_insert_ne in Hn by congruence.
    destruct (decide (n = next_job c)) as [->|Hn0].
    { rewrite lookup_insert_eq in Hn. injection Hn as <-. split; [lia|].
      rewrite owner_start, lookup_insert_eq. eauto. }
    rewrite lookup_insert_ne in Hn by congruence.
    destruct (H4 n j Hn) as (Hlt & a & b & Hab & Hor). split; [lia|].
    exists a, b. split; [|exact Hor].
    rewrite lookup_insert_ne; [exact Hab|]. intros Eq. rewrite <- Eq, Hnone in Hab. discriminate.
  - intros item Hin Hact Hn.
    destruct (decide (s_id item = s_id item0)) as [Eq|Hne].
    + rewrite Eq, lookup_insert_eq. eauto.
    + rewrite lookup_insert_ne by congruence. apply H5; [assumption | assumption |].
      intros Ht. apply Hn. split; assumption.
Qed.

(** An agreement without exceptions is what the user sees. *)
Lemma synced_mirrors c : synced c -> mirrors c.
Proof.
  intros [H1 H2 H3 H4 H5]. split; [|split].
  - intros n j Hn. destruct (H4 n j Hn) as (_ & a & b & Hab & Hor).
    destruct (H3 _ a b Hab) as (x & y & item & -> & -> & Hin & Eid & Hact & Px & Py).
    exists item. split; [exact Hin|]. split; [exact Hact|].
    destruct Hor as [[= ->] | [= ->]]; [left | right]; congruence.
  - intros item Hin Hact. destruct (H5 item Hin Hact) as [[a b] Hab]; [tauto|].
    destruct (H3 _ a b Hab) as (x & y & item' & -> & -> & Hin' & Eid & Hact' & Px & Py).
    assert (item' = item) as ->.
    { clear -H1 Hin Hin' Eid.
      induction (tbl_schedule c) as [|i l IH]; [contradiction|].
      cbn in H1. apply NoDup_cons in H1 as [Hi Hl].
      destruct Hin as [-> | Hin], Hin' as [-> | Hin']; try reflexivity.
      - exfalso. apply Hi. rewrite <- Eid. apply list_elem_of_In, in_map, Hin'.
      - exfalso. apply Hi. rewrite Eid. apply list_elem_of_In, in_map, Hin.
      - apply IH; assumption. }
    eauto.
  - intros n m j Hn Hm.
    destruct (H4 n j Hn) as (_ & a & b & Hab & Hor).
    destruct (H4 m j Hm) as (_ & a' & b' & Hab' & Hor').
    rewrite Hab in Hab'. injection Hab' as <- <-.
    destruct (H3 _ a b Hab) as (x & y & item & -> & -> & _ & _ & _ & Px & Py).
    destruct Hor as [[= ->] | [= ->]], Hor' as [[= ->] | [= ->]]; try reflexivity.
    + rewrite Px in Hn. rewrite Py in Hm. exfalso.
      apply (start_end_differ item item). congruence.
    + rewrite Py in Hn. rewrite Px in Hm. exfalso.
      apply (start_end_differ item item). congruence.
Qed.

End SchedulerInvariant.

Section SchedulerRequests.
Import JS Database Scanner Encoder Scheduler System Properties.
Context {R : runtime} {NS : node_schedule}.
Local Open Scope Z_scope.
Local Open Scope sched_scope.

Lemma wbind_wgets {A B} (f : scheduler -> A) (k : A -> W B) w :
  wbind (wgets f) k w = k (f (sched w)) w.
Proof. reflexivity. Qed.

Lemma wbind_wmodify {B} (f : scheduler -> scheduler) (k : unit -> W B) w :
  wbind (wmodify f) k w = k tt (set_sched (f (sched w)) w).
Proof. reflexivity. Qed.

Lemma set_sched_mk x s c : set_sched x (mkWorld s c) = mkWorld s x.
Proof. reflexivity. Qed.

Lemma wbind_wbind {A B C} (m : W A) (k : A -> W B) (h : B -> W C) w :
  wbind (wbind m k) h w = wbind m (fun a => wbind (k a) h) w.
Proof. unfold wbind. destruct (m w) as [[a|e] w']; reflexivity. Qed.

Lemma unregister_with_table id t q c :
  unregister id (with_table t q c) = with_table t q (unregister id c).
Proof.
  unfold unregister, with_table. cbn.
  destruct (scheduleJobs c !! id) as [[[x|] [y|]]|]; reflexivity.
Qed.

Lemma with_table_same c : with_table (tbl_schedule c) (seq_schedule c) c = c.
Proof. destruct c; reflexivity. Qed.

Lemma synced_entry todo c id a b :
  synced_but todo c -> scheduleJobs c !! id = Some (a, b) ->
  exists x y, a = Some x /\ b = Some y.
Proof.
  intros H E. destruct (entry_jobs _ _ H id a b E) as (x & y & _ & -> & -> & _). eauto.
Qed.

Lemma find_schedule_Some id c item :
  find_schedule id c = Some item -> In item (tbl_schedule c) /\ s_id item = id.
Proof.
  unfold find_schedule. intros H. apply find_some in H as [Hin Hb].
  apply bool_decide_eq_true in Hb. auto.
Qed.

Lemma find_schedule_None id c :
  find_schedule id c = None -> forall item, In item (tbl_schedule c) -> s_id item <> id.
Proof.
  unfold find_schedule. intros H item Hin E.
  pose proof (find_none _ _ H item Hin) as Hb. cbn in Hb.
  apply bool_decide_eq_false in Hb. contradiction.
Qed.

Lemma find_schedule_is_Some id c item :
  In item (tbl_schedule c) -> s_id item = id -> is_Some (find_schedule id c).
Proof.
  intros Hin E. destruct (find_schedule id c) eqn:F; [eauto|].
  exfalso. exact (find_schedule_None _ _ F item Hin E).
Qed.

(** The rows of the table after the UPDATE of the row [id]. *)
Lemma map_row_id (f : scheduleItem -> scheduleItem) id (tbl : list scheduleItem) :
  (forall item, s_id (f item) = s_id item) ->
  List.map s_id (List.map (fun item => if bool_decide (s_id item = id) then f item else item) tbl)
  = List.map s_id tbl.
Proof.
  intros Hf. induction tbl as [|i l IH]; [reflexivity|]. cbn. rewrite IH. f_equal.
  destruct (bool_decide _); [apply Hf | reflexivity].
Qed.

Lemma map_row_in (f : scheduleItem -> scheduleItem) id (tbl : list scheduleItem) item :
  (forall item, s_id (f item) = s_id item) ->
  In item (List.map (fun item => if bool_decide (s_id item = id) then f item else item) tbl) ->
  (s_id item <> id /\ In item tbl)
  \/ (s_id item = id /\ exists old, In old tbl /\ s_id old = id /\ item = f old).
Proof.
  intros Hf Hin. apply in_map_iff in Hin as (old & E & Hold).
  destruct (bool_decide (s_id old = id)) eqn:Hb.
  - apply bool_decide_eq_true in Hb. right. subst item. rewrite Hf. eauto.
  - apply bool_decide_eq_false in Hb. left. subst item. auto.
Qed.

Lemma map_row_other (f : scheduleItem -> scheduleItem) id (tbl : list scheduleItem) item :
  (forall item, s_id (f item) = s_id item) -> s_id item <> id ->
  In item (List.map (fun item => if bool_decide (s_id item = id) then f item else item) tbl)
  <-> In item tbl.
Proof.
  intros Hf Hne. split.
  - intros Hin. destruct (map_row_in f id tbl item Hf Hin) as [[_ H] | [E _]];
      [exact H | contradiction].
  - intros Hin. apply in_map_iff. exists item. split; [|exact Hin].
    rewrite bool_decide_eq_false_2 by exact Hne. reflexivity.
Qed.

Lemma map_row_unknown (f : scheduleItem -> scheduleItem) id (tbl : list scheduleItem) :
  (forall item, In item tbl -> s_id item <> id) ->
  List.map (fun item => if bool_decide (s_id item = id) then f item else item) tbl = tbl.
Proof.
  intros H. induction tbl as [|i l IH]; [reflexivity|]. cbn.
  rewrite bool_decide_eq_false_2 by (apply H; left; reflexivity).
  rewrite IH; [reflexivity|]. intros item Hin. apply H. right. exact Hin.
Qed.

(** Setting up a row of the table keeps the agreement, and completes it for
    the id of the row. *)
Lemma setUpSchedule_synced (Hall : forall r, schedulable r = true) (todo : Z -> Prop)
    item now s c tbl' seq' :
  synced_but todo c ->
  NoDup (List.map s_id tbl') -> (forall i, In i tbl' -> s_id i <= seq') ->
  (forall i, s_id i <> s_id item -> (In i tbl' <-> In i (tbl_schedule c))) ->
  In item tbl' -> active item = true ->
  exists s',
    setUpSchedule (Some item) now (mkWorld s (with_table tbl' seq' c))
    = (Ret true, mkWorld s' (register item (unregister (s_id item) (with_table tbl' seq' c))))
    /\ synced_but (fun id => todo id /\ id <> s_id item)
                  (register item (unregister (s_id item) (with_table tbl' seq' c))).
Proof.
  intros Hs Hnd Hbelow Hsame Hin Hact.
  destruct (unregister_synced todo (s_id item) c tbl' seq' Hs Hnd Hbelow Hsame)
    as (Hs' & Hnone & Et & Eq).
  eexists. split.
  - rewrite setUpSchedule_register; [reflexivity | | apply Hall | apply Hall].
    cbn [sched]. intros a b E. unfold with_table in E. cbn in E.
    exact (synced_entry _ _ _ _ _ Hs E).
  - eapply synced_but_weaken; [|apply register_synced; [exact Hs' | exact Hnone | | exact Hact]].
    + cbn. intros id [[H | H] Hne]; [auto | contradiction].
    + rewrite Et. exact Hin.
Qed.

(** Cancelling the jobs of an id that has no active row left. *)
Lemma cancelJobs_synced (todo : Z -> Prop) id s c tbl' seq' :
  synced_but todo c ->
  NoDup (List.map s_id tbl') -> (forall i, In i tbl' -> s_id i <= seq') ->
  (forall i, s_id i <> id -> (In i tbl' <-> In i (tbl_schedule c))) ->
  (forall i, In i tbl' -> s_id i = id -> active i = false) ->
  cancelJobs id (mkWorld s (with_table tbl' seq' c))
  = (Ret tt, mkWorld s (unregister id (with_table tbl' seq' c)))
  /\ synced_but todo (unregister id (with_table tbl' seq' c)).
Proof.
  intros Hs Hnd Hbelow Hsame Hoff.
  destruct (unregister_synced todo id c tbl' seq' Hs Hnd Hbelow Hsame)
    as (Hs' & Hnone & Et & Eq).
  split.
  - rewrite cancelJobs_unregister; [reflexivity|].
    cbn [sched]. intros a b E. unfold with_table in E. cbn in E.
    exact (synced_entry _ _ _ _ _ Hs E).
  - eapply synced_but_done; [|exact Hs']. rewrite Et. exact Hoff.
Qed.

Lemma tbl_unregister id c : tbl_schedule (unregister id c) = tbl_schedule c.
Proof. unfold unregister. destruct (scheduleJobs c !! id) as [[[x|] [y|]]|]; reflexivity. Qed.

Lemma seq_unregister id c : seq_schedule (unregister id c) = seq_schedule c.
Proof. unfold unregister. destruct (scheduleJobs c !! id) as [[[x|] [y|]]|]; reflexivity. Qed.

Lemma find_app_new (c : scheduler) new :
  (forall i, In i (tbl_schedule c) -> s_id i <> s_id new) ->
  List.find (fun item => bool_decide (s_id item = s_id new)) (tbl_schedule c ++ [new])
  = Some new.
Proof.
  intros H. induction (tbl_schedule c) as [|i l IH]; cbn.
  - rewrite bool_decide_eq_true_2 by reflexivity. reflexivity.
  - rewrite bool_decide_eq_false_2 by (apply H; left; reflexivity).
    apply IH. intros j Hj. apply H. right. exact Hj.
Qed.

Lemma createSchedule_synced (Hall : forall r, schedulable r = true) scheduleData now s c :
  synced c ->
  let new := created_row scheduleData c in
  let c' := register new (unregister (s_id new)
              (with_table (tbl_schedule c ++ [new]) (s_id new) c)) in
  exists s',
    createSchedule scheduleData now (mkWorld s c) = (Ret (Some new), mkWorld s' c')
    /\ synced c'.
Proof.
  intros Hs new c'.
  assert (Hfresh : forall i, In i (tbl_schedule c) -> s_id i <> s_id new).
  { intros i Hi. pose proof (ids_below _ _ Hs i Hi). cbn. lia. }
  destruct (setUpSchedule_synced Hall _ new now s c (tbl_schedule c ++ [new]) (s_id new) Hs)
    as (s' & Erun & Hs').
  - rewrite map_app. apply NoDup_app. split; [exact (ids_unique _ _ Hs)|]. split.
    + intros x Hx [E | []]%list_elem_of_In. apply list_elem_of_In, in_map_iff in Hx as (i & Ei & Hi).
      apply (Hfresh i Hi). cbn in E. cbn. lia.
    + apply NoDup_singleton.
  - intros i [Hi | [<- | []]]%in_app_or; [|lia].
    pose proof (ids_below _ _ Hs i Hi). cbn. lia.
  - intros i Hne. rewrite in_app_iff. cbn. split; [|auto].
    intros [H | [<- | []]]; [exact H | contradiction].
  - apply in_or_app. right. left. reflexivity.
  - reflexivity.
  - exists s'. split.
    + unfold createSchedule. rewrite wbind_wgets, wbind_wmodify, wbind_wgets.
      cbn [sched set_sched engine].
      change (mkScheduler _ _ _ _ _) with (with_table (tbl_schedule c ++ [new]) (s_id new) c).
      assert (F : find_schedule (seq_schedule c + 1)
                    (with_table (tbl_schedule c ++ [new]) (s_id new) c) = Some new)
        by (exact (find_app_new c new Hfresh)).
      rewrite F. unfold wbind at 1. rewrite set_sched_mk, Erun. reflexivity.
    + eapply synced_but_weaken; [|exact Hs']. cbn. tauto.
Qed.

(** What [updateSchedule] and [setScheduleStatus] have in common: the row
    [id] is rewritten by [f], which keeps its id, and the new row is set up
    or its jobs are cancelled. *)
Lemma rewrite_row_synced (Hall : forall r, schedulable r = true)
    (f : scheduleItem -> scheduleItem) on id now s c item :
  (forall i, s_id (f i) = s_id i) -> (forall i, active (f i) = on) ->
  synced c ->
  find_schedule id (with_table (rewrite_row f id (tbl_schedule c)) (seq_schedule c) c)
  = Some item ->
  exists s' c',
    (if on then wbind (setUpSchedule (Some item) now) (fun _ => wret tt)
     else cancelJobs id)
      (mkWorld s (with_table (rewrite_row f id (tbl_schedule c)) (seq_schedule c) c))
    = (Ret tt, mkWorld s' c')
    /\ synced c' /\ tbl_schedule c' = rewrite_row f id (tbl_schedule c).
Proof.
  intros Hid Hon Hs F.
  apply find_schedule_Some in F as [Hin Eid]. cbn [tbl_schedule with_table] in Hin.
  set (tbl' := rewrite_row f id (tbl_schedule c)) in *.
  assert (Hnd : NoDup (List.map s_id tbl')).
  { unfold tbl', rewrite_row. rewrite map_row_id by exact Hid. exact (ids_unique _ _ Hs). }
  assert (Hbelow : forall i, In i tbl' -> s_id i <= seq_schedule c).
  { intros i Hi. destruct (map_row_in f id _ i Hid Hi) as [[_ H] | [_ (old & H & _ & ->)]].
    - exact (ids_below _ _ Hs i H).
    - rewrite Hid. exact (ids_below _ _ Hs old H). }
  assert (Hsame : forall i, s_id i <> id -> (In i tbl' <-> In i (tbl_schedule c))).
  { intros i Hne. apply map_row_other; assumption. }
  assert (Hact : forall i, In i tbl' -> s_id i = id -> active i = on).
  { intros i Hi E. destruct (map_row_in f id _ i Hid Hi) as [[Hne _] | [_ (old & _ & _ & ->)]].
    - contradiction.
    - apply Hon. }
  destruct on.
  - destruct (setUpSchedule_synced Hall _ item now s c tbl' (seq_schedule c) Hs Hnd Hbelow)
      as (s' & Erun & Hs').
    + rewrite Eid. exact Hsame.
    + exact Hin.
    + apply Hact; assumption.
    + exists s'. eexists. split; [unfold wbind; rewrite Erun; reflexivity|]. split.
      * eapply synced_but_weaken; [|exact Hs']. cbn. tauto.
      * cbn [register tbl_schedule]. rewrite tbl_unregister. reflexivity.
  - destruct (cancelJobs_synced _ id s c tbl' (seq_schedule c) Hs Hnd Hbelow Hsame Hact)
      as (Erun & Hs').
    exists s. eexists. split; [exact Erun|]. split; [exact Hs'|].
    rewrite tbl_unregister. reflexivity.
Qed.

Lemma rewrite_row_unknown (f : scheduleItem -> scheduleItem) id c :
  find_schedule id (with_table (rewrite_row f id (tbl_schedule c)) (seq_schedule c) c) = None ->
  (forall i, s_id (f i) = s_id i) ->
  rewrite_row f id (tbl_schedule c) = tbl_schedule c
  /\ forall i, In i (tbl_schedule c) -> s_id i <> id.
Proof.
  intros F Hid.
  assert (H : forall i, In i (tbl_schedule c) -> s_id i <> id).
  { intros i Hi E. apply (find_schedule_None _ _ F (if bool_decide (s_id i = id) then f i else i)).
    - cbn. unfold rewrite_row. apply in_map_iff. exists i. auto.
    - destruct (bool_decide _); [rewrite Hid|]; exact E. }
  split; [|exact H]. apply map_row_unknown. exact H.
Qed.

Lemma updateSchedule_eq id scheduleData now s c :
  updateSchedule id scheduleData now (mkWorld s c)
  = let w' := mkWorld s (with_table (rewrite_row (updated_row scheduleData) id (tbl_schedule c))
                                    (seq_schedule c) c) in
    match find_schedule id (sched w') with
    | None => (Throw (TypeError "Cannot read properties of undefined (reading 'active')"), w')
    | Some item =>
        wbind (if active item then wbind (setUpSchedule (Some item) now) (fun _ => wret tt)
               else cancelJobs id) (fun _ => wret (Some item)) w'
    end.
Proof.
  unfold updateSchedule. rewrite wbind_wmodify, wbind_wgets. cbv zeta.
  cbn [sched set_sched engine].
  change (set_tbl_schedule _ c)
    with (with_table (rewrite_row (updated_row scheduleData) id (tbl_schedule c)) (seq_schedule c) c).
  destruct (find_schedule id _) as [item|]; reflexivity.
Qed.

Lemma setScheduleStatus_eq id on now s c :
  setScheduleStatus id on now (mkWorld s c)
  = let w' := mkWorld s (with_table (rewrite_row (switched_row on) id (tbl_schedule c))
                                    (seq_schedule c) c) in
    wbind (if on then wbind (setUpSchedule (find_schedule id (sched w')) now) (fun _ => wret tt)
           else cancelJobs id) (fun _ => wret (find_schedule id (sched w'))) w'.
Proof.
  unfold setScheduleStatus. rewrite wbind_wmodify, wbind_wgets. cbv zeta.
  cbn [sched set_sched engine]. reflexivity.
Qed.

Lemma updateSchedule_synced (Hall : forall r, schedulable r = true) id scheduleData now s c :
  synced c -> synced (sched (snd (updateSchedule id scheduleData now (mkWorld s c)))).
Proof.
  intros Hs. rewrite updateSchedule_eq. cbv zeta. cbn [sched].
  destruct (find_schedule id _) as [item|] eqn:F.
  - assert (Ea : active item = sd_active scheduleData).
    { apply find_schedule_Some in F as [Hin Eid]. cbn in Hin.
      destruct (map_row_in (updated_row scheduleData) id _ item (fun _ => eq_refl) Hin)
        as [[Hne _] | [_ (old & _ & _ & ->)]]; [contradiction | reflexivity]. }
    rewrite Ea.
    destruct (rewrite_row_synced Hall (updated_row scheduleData) (sd_active scheduleData)
                id now s c item (fun _ => eq_refl) (fun _ => eq_refl) Hs F)
      as (s' & c' & Erun & Hs' & _).
    unfold wbind at 1. rewrite Erun. exact Hs'.
  - destruct (rewrite_row_unknown _ id c F (fun _ => eq_refl)) as [E _].
    cbn [snd sched]. rewrite E, with_table_same. exact Hs.
Qed.

Lemma setScheduleStatus_synced (Hall : forall r, schedulable r = true) id on now s c :
  synced c -> synced (sched (snd (setScheduleStatus id on now (mkWorld s c)))).
Proof.
  intros Hs. rewrite setScheduleStatus_eq. cbv zeta. cbn [sched].
  destruct (find_schedule id _) as [item|] eqn:F.
  - destruct (rewrite_row_synced Hall (switched_row on) on id now s c item
                (fun _ => eq_refl) (fun _ => eq_refl) Hs F)
      as (s' & c' & Erun & Hs' & _).
    unfold wbind at 1. rewrite Erun. exact Hs'.
  - destruct (rewrite_row_unknown _ id c F (fun _ => eq_refl)) as [E Hno].
    rewrite E, with_table_same. destruct on.
    + cbn. exact Hs.
    + unfold wbind at 1. rewrite cancelJobs_unregister.
      * cbn [snd sched set_sched]. unfold unregister.
        destruct (scheduleJobs c !! id) as [[a b]|] eqn:Ec; [|exact Hs].
        destruct (entry_jobs _ _ Hs id a b Ec) as (x & y & i & _ & _ & Hi & Ei & _).
        exfalso. exact (Hno i Hi Ei).
      * cbn [sched]. intros a b Ec. exact (synced_entry _ _ _ _ _ Hs Ec).
Qed.

Lemma deleteSchedule_synced id s c :
  synced c ->
  deleteSchedule id (mkWorld s c)
  = (Ret id, mkWorld s (unregister id
       (with_table (List.filter (fun item => negb (bool_decide (s_id item = id)))
                                (tbl_schedule c)) (seq_schedule c) c)))
  /\ synced (unregister id
       (with_table (List.filter (fun item => negb (bool_decide (s_id item = id)))
                                (tbl_schedule c)) (seq_schedule c) c)).
Proof.
  intros Hs.
  set (tbl' := List.filter (fun item => negb (bool_decide (s_id item = id))) (tbl_schedule c)).
  assert (Hin : forall i, In i tbl' <-> In i (tbl_schedule c) /\ s_id i <> id).
  { intros i. unfold tbl'. rewrite filter_In, negb_true_iff, bool_decide_eq_false. tauto. }
  split.
  - unfold deleteSchedule. unfold wbind at 1. rewrite cancelJobs_unregister.
    + rewrite wbind_wmodify. cbn [sched set_sched engine wret].
      rewrite unregister_with_table. f_equal. f_equal.
      unfold set_tbl_schedule, with_table. rewrite tbl_unregister, seq_unregister. reflexivity.
    + cbn [sched]. intros a b Ec. exact (synced_entry _ _ _ _ _ Hs Ec).
  - destruct (unregister_synced (fun _ => False) id c tbl' (seq_schedule c) Hs)
      as (Hs' & _ & Et & _).
    + unfold tbl'. eapply sublist_NoDup; [exact (ids_unique _ _ Hs)|clear].
      apply (fmap_sublist s_id). induction (tbl_schedule c) as [|i l IH]; cbn; [constructor|].
      destruct (negb _); [apply sublist_skip | apply sublist_cons]; exact IH.
    + intros i Hi. apply Hin in Hi as [Hi _]. exact (ids_below _ _ Hs i Hi).
    + intros i Hne. rewrite Hin. tauto.
    + eapply synced_but_done; [|exact Hs']. rewrite Et. intros i Hi E.
      apply Hin in Hi as [_ Hne]. contradiction.
Qed.

Lemma fire_sched n w : sched (snd (fire n w)) = sched w.
Proof.
  unfold fire. rewrite wbind_wgets.
  destruct (pending (sched w) !! n) as [[r [item|item]]|]; [| |reflexivity]; unfold lift.
  - destruct (startJob item (engine w)); reflexivity.
  - destruct (endJob item (engine w)); reflexivity.
Qed.

(** [loadSchedules] at the start of the process: nothing is scheduled yet,
    and the active rows are set up one after the other. *)
Lemma load_loop_synced (Hall : forall r, schedulable r = true) now rest : forall s c,
  synced_but (fun id => In id (List.map s_id rest)) c ->
  (forall i, In i rest -> In i (tbl_schedule c) /\ active i = true) ->
  exists s' c',
    wfor_each rest (fun item => wbind (setUpSchedule (Some item) now) (fun _ => wret tt))
              (mkWorld s c)
    = (Ret tt, mkWorld s' c')
    /\ synced c'.
Proof.
  induction rest as [|item rest IH]; intros s c Hs Hrows.
  - exists s, c. split; [reflexivity|]. eapply synced_but_weaken; [|exact Hs]. cbn. tauto.
  - destruct (Hrows item (or_introl eq_refl)) as [Hin Hact].
    destruct (setUpSchedule_synced Hall _ item now s c (tbl_schedule c) (seq_schedule c) Hs)
      as (s1 & Erun & Hs1).
    + exact (ids_unique _ _ Hs).
    + exact (ids_below _ _ Hs).
    + tauto.
    + exact Hin.
    + exact Hact.
    + rewrite with_table_same in Erun, Hs1.
      destruct (IH s1 (register item (unregister (s_id item) c))) as (s' & c' & Erest & Hs').
      * eapply synced_but_weaken; [|exact Hs1]. cbn. intros id [[E | H] Hne]; [congruence | exact H].
      * intros i Hi. destruct (Hrows i (or_intror Hi)) as [Hi' Ha]. split; [|exact Ha].
        cbn [register tbl_schedule]. rewrite tbl_unregister. exact Hi'.
      * exists s', c'. split; [|exact Hs'].
        cbn [wfor_each]. rewrite wbind_wbind. unfold wbind at 1. rewrite Erun.
        unfold wbind at 1. cbn [wret]. exact Erest.
Qed.

Lemma initializeScheduler_eq now w :
  initializeScheduler now w
  = match wfor_each (List.filter active (tbl_schedule (sched w)))
            (fun item => wbind (setUpSchedule (Some item) now) (fun _ => wret tt)) w with
    | (Ret _, w') => (Ret true, w')
    | (Throw e, w') => (Throw e, w')
    end.
Proof.
  unfold initializeScheduler, loadSchedules.
  unfold wbind at 1 2 3. unfold wgets at 1. cbn beta iota.
  destruct (wfor_each _ _ w) as [[[]|e] w']; reflexivity.
Qed.

Lemma initializeScheduler_synced (Hall : forall r, schedulable r = true) now s tbl seq :
  NoDup (List.map s_id tbl) -> (forall item, In item tbl -> s_id item <= seq) ->
  synced (sched (snd (initializeScheduler now (mkWorld s (mkScheduler tbl seq ∅ ∅ 0))))).
Proof.
  intros Hnd Hbelow. rewrite initializeScheduler_eq. cbn [sched tbl_schedule].
  destruct (load_loop_synced Hall now (List.filter active tbl) s (mkScheduler tbl seq ∅ ∅ 0))
    as (s' & c' & Erun & Hs').
  - split; cbn [tbl_schedule seq_schedule scheduleJobs pending next_job].
    + exact Hnd.
    + exact Hbelow.
    + intros id a b E. rewrite lookup_empty in E. discriminate E.
    + intros n j E. rewrite lookup_empty in E. discriminate E.
    + intros item Hin Hact Hn. exfalso. apply Hn. apply in_map, filter_In. auto.
  - intros i Hi. apply filter_In in Hi. exact Hi.
  - rewrite Erun. cbn. exact Hs'.
Qed.

Lemma serve_synced (Hall : forall r, schedulable r = true) r w :
  synced (sched w) -> synced (sched (serve r w)).
Proof.
  intros Hs. destruct w as [s c]. cbn [sched] in Hs.
  destruct r as [scheduleData now | id | id on now | n]; cbn [serve].
  - unfold setSchedule.
    assert (Hc : synced (sched (snd (createSchedule scheduleData now (mkWorld s c))))).
    { destruct (createSchedule_synced Hall scheduleData now s c Hs) as (s' & E & H).
      rewrite E. exact H. }
    destruct (sd_id scheduleData) as [id|]; [|exact Hc].
    destruct (bool_decide (id = 0)); [exact Hc|].
    apply updateSchedule_synced; assumption.
  - destruct (deleteSchedule_synced id s c Hs) as [E H]. rewrite E. exact H.
  - apply setScheduleStatus_synced; assumption.
  - rewrite fire_sched. exact Hs.
Qed.

Lemma serve_all_synced (Hall : forall r, schedulable r = true) rs : forall w,
  synced (sched w) -> synced (sched (serve_all rs w)).
Proof.
  induction rs as [|r rs IH]; intros w Hs; [exact Hs|].
  cbn [serve_all fold_left]. apply IH. apply serve_synced; assumption.
Qed.

End SchedulerRequests.

Section SchedulerFrames.
Import JS Database Scanner Encoder Scheduler System Properties.
Context {R : runtime} {NS : node_schedule}.
Local Open Scope Z_scope.
Local Open Scope sched_scope.

(** What [cancelJobs] leaves alone, whether it throws or not. *)
Lemma cancelJobs_frame id' w :
  tbl_schedule (sched (snd (cancelJobs id' w))) = tbl_schedule (sched w)
  /\ seq_schedule (sched (snd (cancelJobs id' w))) = seq_schedule (sched w)
  /\ engine (snd (cancelJobs id' w)) = engine w
  /\ (forall id, id <> id' ->
        scheduleJobs (sched (snd (cancelJobs id' w))) !! id = scheduleJobs (sched w) !! id).
Proof.
  unfold cancelJobs. rewrite wbind_wgets.
  destruct (scheduleJobs (sched w) !! id') as [[[x|] [y|]]|]; cbn;
    repeat split; try reflexivity.
  intros id Hne. apply lookup_delete_ne. congruence.
Qed.

Lemma cancelJobs_none id w :
  scheduleJobs (sched w) !! id = None -> cancelJobs id w = (Ret tt, w).
Proof. intros E. unfold cancelJobs. rewrite wbind_wgets, E. reflexivity. Qed.

Lemma setUpSchedule_eq item now w :
  setUpSchedule (Some item) now w
  = match cancelJobs (s_id item) w with
    | (Ret _, w1) =>
        (Ret true, mkWorld (snd (checkIfScheduleShouldBeActive item now (engine w1)))
                           (scheduled item (sched w1)))
    | (Throw e, w1) => (Throw e, w1)
    end.
Proof.
  unfold setUpSchedule. unfold wbind at 1.
  destruct (cancelJobs (s_id item) w) as [[[]|e] [s1 c1]]; [|reflexivity].
  unfold scheduleJob, scheduled, startJob_of, endJob_of.
  destruct (schedulable (startRule item)), (schedulable (endRule item));
    unfold wbind, wgets, wmodify, wret; cbn [fst snd sched set_sched engine];
    rewrite lift_checkIf; destruct c1; reflexivity.
Qed.

Lemma setUpSchedule_frame item now w :
  tbl_schedule (sched (snd (setUpSchedule (Some item) now w))) = tbl_schedule (sched w)
  /\ seq_schedule (sched (snd (setUpSchedule (Some item) now w))) = seq_schedule (sched w)
  /\ (forall id, id <> s_id item ->
        scheduleJobs (sched (snd (setUpSchedule (Some item) now w))) !! id
        = scheduleJobs (sched w) !! id).
Proof.
  rewrite setUpSchedule_eq.
  destruct (cancelJobs_frame (s_id item) w) as (Ht & Hq & _ & Hj).
  destruct (cancelJobs (s_id item) w) as [[[]|e] w1]; cbn [snd] in *.
  - cbn [sched scheduled tbl_schedule seq_schedule scheduleJobs]. repeat split; try assumption.
    intros id Hne. rewrite lookup_insert_ne by congruence. apply Hj. exact Hne.
  - repeat split; assumption.
Qed.

(** A row that is set up while nothing is stored for its id. *)
Lemma setUpSchedule_fresh item now w :
  scheduleJobs (sched w) !! s_id item = None ->
  setUpSchedule (Some item) now w
  = (Ret true, mkWorld (snd (checkIfScheduleShouldBeActive item now (engine w)))
                       (scheduled item (sched w))).
Proof. intros E. rewrite setUpSchedule_eq, cancelJobs_none by exact E. reflexivity. Qed.

(** [createSchedule] when the ids of the table are not above its sequence
    and nothing is stored for the next id. *)
Lemma createSchedule_fresh scheduleData now s c :
  (forall item, In item (tbl_schedule c) -> s_id item <= seq_schedule c) ->
  scheduleJobs c !! (seq_schedule c + 1) = None ->
  let new := created_row scheduleData c in
  createSchedule scheduleData now (mkWorld s c)
  = (Ret (Some new),
     mkWorld (snd (checkIfScheduleShouldBeActive new now s))
       (scheduled new (with_table (tbl_schedule c ++ [new]) (s_id new) c))).
Proof.
  intros Hbelow Hnone new.
  assert (Hfresh : forall i, In i (tbl_schedule c) -> s_id i <> s_id new).
  { intros i Hi. pose proof (Hbelow i Hi). cbn. lia. }
  unfold createSchedule. rewrite wbind_wgets, wbind_wmodify, wbind_wgets.
  cbn [sched set_sched engine].
  change (mkScheduler _ _ _ _ _) with (with_table (tbl_schedule c ++ [new]) (s_id new) c).
  assert (F : find_schedule (seq_schedule c + 1)
                (with_table (tbl_schedule c ++ [new]) (s_id new) c) = Some new)
    by (exact (find_app_new c new Hfresh)).
  rewrite F. unfold wbind at 1. rewrite set_sched_mk.
  rewrite setUpSchedule_fresh by exact Hnone. reflexivity.
Qed.

(** [loadSchedules] at start-up: the active rows are evaluated in the order
    of the table, each on the engine the row before it has left. *)
Lemma load_loop_engine now rest : forall s c,
  NoDup (List.map s_id rest) ->
  (forall i, In i rest -> scheduleJobs c !! s_id i = None) ->
  exists c',
    wfor_each rest (fun item => wbind (setUpSchedule (Some item) now) (fun _ => wret tt))
              (mkWorld s c)
    = (Ret tt,
       mkWorld (fold_left (fun s item => snd (checkIfScheduleShouldBeActive item now s)) rest s)
               c').
Proof.
  induction rest as [|item rest IH]; intros s c Hnd Hnone.
  - exists c. reflexivity.
  - cbn in Hnd. apply NoDup_cons in Hnd as [Hfirst Hnd].
    destruct (IH (snd (checkIfScheduleShouldBeActive item now s)) (scheduled item c) Hnd)
      as (c' & Erest).
    + intros i Hi. cbn [scheduled scheduleJobs]. rewrite lookup_insert_ne.
      * apply Hnone. right. exact Hi.
      * intros E. apply Hfirst. rewrite E. apply list_elem_of_In, in_map, Hi.
    + exists c'. cbn [wfor_each fold_left]. rewrite wbind_wbind. unfold wbind at 1.
      rewrite setUpSchedule_fresh by (apply Hnone; left; reflexivity).
      unfold wbind at 1. cbn [wret engine sched]. exact Erest.
Qed.

Lemma filter_unknown id (tbl : list scheduleItem) :
  (forall i, In i tbl -> s_id i <> id) ->
  List.filter (fun item => negb (bool_decide (s_id item = id))) tbl = tbl.
Proof.
  intros H. induction tbl as [|i l IH]; [reflexivity|]. cbn.
  rewrite bool_decide_eq_false_2 by (apply H; left; reflexivity). cbn.
  rewrite IH; [reflexivity|]. intros j Hj. apply H. right. exact Hj.
Qed.

Lemma set_tbl_same c : set_tbl_schedule (tbl_schedule c) c = c.
Proof. destruct c; reflexivity. Qed.

End SchedulerFrames.

Section Stuck.
Import JS Database Scanner Encoder Scheduler System Properties.
Context {R : runtime} {NS : node_schedule}.
Local Open Scope Z_scope.
Local Open Scope sched_scope.

Lemma keeps_stuck_bind {A B} id (m : W A) (k : A -> W B) :
  keeps_stuck id m -> (forall a, keeps_stuck id (k a)) -> keeps_stuck id (wbind m k).
Proof.
  intros Hm Hk w Hw. unfold wbind. specialize (Hm w Hw).
  destruct (m w) as [[a|e] w']; [apply Hk; exact Hm | exact Hm].
Qed.

Lemma keeps_stuck_wret {A} id (a : A) : keeps_stuck id (wret a).
Proof. intros w Hw. exact Hw. Qed.

Lemma keeps_stuck_wthrow {A} id e : keeps_stuck id (wthrow (A := A) e).
Proof. intros w Hw. exact Hw. Qed.

Lemma keeps_stuck_wgets {A} id (f : scheduler -> A) : keeps_stuck id (wgets f).
Proof. intros w Hw. exact Hw. Qed.

Lemma keeps_stuck_wmodify id (f : scheduler -> scheduler) :
  (forall c, stuck id c -> stuck id (f c)) -> keeps_stuck id (wmodify f).
Proof. intros Hf w Hw. apply Hf. exact Hw. Qed.

Lemma keeps_stuck_lift {A} id (m : M A) : keeps_stuck id (lift m).
Proof. intros w Hw. unfold lift. destruct (m (engine w)). exact Hw. Qed.

Lemma cancelJobs_stuck id id' : keeps_stuck id (cancelJobs id').
Proof.
  intros w [[b Hb] (item & Hin & Eid)].
  destruct (decide (id' = id)) as [->|Hne].
  - rewrite (cancelJobs_null id w b Hb). split; eauto.
  - destruct (cancelJobs_frame id' w) as (Ht & _ & _ & Hj). split.
    + exists b. rewrite Hj by congruence. exact Hb.
    + exists item. rewrite Ht. auto.
Qed.

Lemma setUpSchedule_stuck id o now : keeps_stuck id (setUpSchedule o now).
Proof.
  intros w Hw. destruct o as [item|]; [|exact Hw].
  destruct Hw as [[b Hb] (row & Hin & Eid)].
  destruct (decide (s_id item = id)) as [E|Hne].
  - rewrite setUpSchedule_eq, E, (cancelJobs_null id w b Hb). split; eauto.
  - destruct (setUpSchedule_frame item now w) as (Ht & _ & Hj). split.
    + exists b. rewrite Hj by congruence. exact Hb.
    + exists row. rewrite Ht. auto.
Qed.

Lemma rewrite_row_stuck (f : scheduleItem -> scheduleItem) id id' c :
  (forall i, s_id (f i) = s_id i) ->
  stuck id c -> stuck id (set_tbl_schedule (rewrite_row f id' (tbl_schedule c)) c).
Proof.
  intros Hf [Hb (item & Hin & Eid)]. split; [exact Hb|].
  exists (if bool_decide (s_id item = id') then f item else item). split.
  - cbn. unfold rewrite_row. apply in_map_iff. exists item. auto.
  - destruct (bool_decide _); [rewrite Hf|]; exact Eid.
Qed.

Lemma createSchedule_stuck id scheduleData now : keeps_stuck id (createSchedule scheduleData now).
Proof.
  unfold createSchedule.
  apply keeps_stuck_bind; [apply keeps_stuck_wgets | intros id'].
  apply keeps_stuck_bind.
  { apply keeps_stuck_wmodify. intros c [Hb (item & Hin & Eid)]. split; [exact Hb|].
    exists item. cbn. split; [apply in_or_app; left; exact Hin | exact Eid]. }
  intros _. apply keeps_stuck_bind; [apply keeps_stuck_wgets | intros new].
  apply keeps_stuck_bind; [apply setUpSchedule_stuck | intros _; apply keeps_stuck_wret].
Qed.

Lemma updateSchedule_stuck id id' scheduleData now :
  keeps_stuck id (updateSchedule id' scheduleData now).
Proof.
  unfold updateSchedule.
  apply keeps_stuck_bind.
  { apply keeps_stuck_wmodify. intros c Hc.
    exact (rewrite_row_stuck (updated_row scheduleData) id id' c (fun _ => eq_refl) Hc). }
  intros _. apply keeps_stuck_bind; [apply keeps_stuck_wgets | intros [item|]].
  - apply keeps_stuck_bind; [|intros _; apply keeps_stuck_wret].
    destruct (active item).
    + apply keeps_stuck_bind; [apply setUpSchedule_stuck | intros _; apply keeps_stuck_wret].
    + apply cancelJobs_stuck.
  - apply keeps_stuck_wthrow.
Qed.

Lemma setScheduleStatus_stuck id id' on now : keeps_stuck id (setScheduleStatus id' on now).
Proof.
  unfold setScheduleStatus.
  apply keeps_stuck_bind.
  { apply keeps_stuck_wmodify. intros c Hc.
    exact (rewrite_row_stuck (switched_row on) id id' c (fun _ => eq_refl) Hc). }
  intros _. apply keeps_stuck_bind; [apply keeps_stuck_wgets | intros schedule].
  apply keeps_stuck_bind; [|intros _; apply keeps_stuck_wret].
  destruct on.
  - apply keeps_stuck_bind; [apply setUpSchedule_stuck | intros _; apply keeps_stuck_wret].
  - apply cancelJobs_stuck.
Qed.

(** [deleteSchedule] of the row itself throws before its DELETE. *)
Lemma deleteSchedule_null id w :
  stuck id (sched w) ->
  deleteSchedule id w
  = (Throw (TypeError "Cannot read properties of null (reading 'cancel')"), w).
Proof.
  intros [[b Hb] _]. unfold deleteSchedule. unfold wbind at 1.
  rewrite (cancelJobs_null id w b Hb). reflexivity.
Qed.

Lemma deleteSchedule_stuck id id' : keeps_stuck id (deleteSchedule id').
Proof.
  intros w Hw. destruct (decide (id' = id)) as [->|Hne].
  - rewrite deleteSchedule_null by exact Hw. exact Hw.
  - revert w Hw. unfold deleteSchedule.
    apply keeps_stuck_bind; [apply cancelJobs_stuck | intros _].
    apply keeps_stuck_bind; [|intros _; apply keeps_stuck_wret].
    apply keeps_stuck_wmodify. intros c [Hb (item & Hin & Eid)]. split; [exact Hb|].
    exists item. split; [|exact Eid]. cbn. apply filter_In. split; [exact Hin|].
    rewrite bool_decide_eq_false_2 by congruence. reflexivity.
Qed.

Lemma serve_stuck id r w : stuck id (sched w) -> stuck id (sched (serve r w)).
Proof.
  intros Hw. destruct r as [scheduleData now | id' | id' on now | n]; cbn [serve].
  - unfold setSchedule. destruct (sd_id scheduleData) as [id'|].
    + destruct (bool_decide (id' = 0)).
      * apply createSchedule_stuck. exact Hw.
      * apply updateSchedule_stuck. exact Hw.
    + apply createSchedule_stuck. exact Hw.
  - apply deleteSchedule_stuck. exact Hw.
  - apply setScheduleStatus_stuck. exact Hw.
  - rewrite fire_sched. exact Hw.
Qed.

Lemma serve_all_stuck id rs : forall w, stuck id (sched w) -> stuck id (sched (serve_all rs w)).
Proof.
  induction rs as [|r rs IH]; intros w Hw; [exact Hw|].
  cbn [serve_all fold_left]. apply IH, serve_stuck, Hw.
Qed.

End Stuck.

Section SchedulerTheorems.
Import JS Database Scanner Encoder Scheduler System Properties.
Context {R : runtime} {NS : node_schedule}.
Local Open Scope Z_scope.
Local Open Scope sched_scope.

(** When node-schedule accepts every rule it is given, the jobs it holds
    mirror the schedule table after start-up and after every sequence of
    requests and firings: each pending job belongs to an active row as the
    row is now, each active row has its start job and its end job pending,
    and no job is pending twice. *)
Theorem scheduler_mirrors_the_table tbl seq s now rs :
  (forall r, schedulable r = true) ->
  NoDup (List.map s_id tbl) -> (forall item, In item tbl -> s_id item <= seq) ->
  mirrors (sched (serve_all rs
            (snd (initializeScheduler now (mkWorld s (mkScheduler tbl seq ∅ ∅ 0)))))).
Proof.
  intros Hall Hnd Hbelow. apply synced_mirrors, serve_all_synced; [exact Hall|].
  apply initializeScheduler_synced; assumption.
Qed.

(** At start-up the rules do not combine: with several active rows the
    queue is left as the last of them in the table decides, paused exactly
    when the time of the start is outside the window of that row, whatever
    the rows before it say. *)
Theorem startup_obeys_the_last_active_rule tbl seq s now rows last :
  NoDup (List.map s_id tbl) ->
  List.filter active tbl = rows ++ [last] ->
  let r := initializeScheduler now (mkWorld s (mkScheduler tbl seq ∅ ∅ 0)) in
  fst r = Ret true
  /\ isQueuePaused (engine (snd r))
     = negb (includes_day (daysArray last) (getDay now) && in_window last now).
Proof.
  intros Hnd Hrows. cbv zeta. rewrite initializeScheduler_eq. cbn [sched tbl_schedule].
  destruct (load_loop_engine now (List.filter active tbl) s (mkScheduler tbl seq ∅ ∅ 0))
    as (c' & Erun).
  - eapply sublist_NoDup; [exact Hnd|]. apply (fmap_sublist s_id).
    clear. induction tbl as [|i l IH]; cbn; [constructor|].
    destruct (active i); [apply sublist_skip | apply sublist_cons]; exact IH.
  - intros i _. apply lookup_empty.
  - rewrite Erun. cbn [fst snd engine]. split; [reflexivity|].
    rewrite Hrows, fold_left_app. cbn [fold_left].
    apply checkIfScheduleShouldBeActive_paused.
Qed.

(** Requests for an id that no row has.  [setSchedule] with such an id
    (not 0) and [setScheduleStatus] to active throw a TypeError, the first
    on [updatedSchedule.active] and the second in the catch block of
    [setUpSchedule]; [setScheduleStatus] to inactive returns [undefined]
    and [deleteSchedule] reports success.  None of them changes the table,
    the jobs or the engine. *)
Theorem requests_for_an_unknown_id id scheduleData now s c :
  (forall item, In item (tbl_schedule c) -> s_id item <> id) ->
  scheduleJobs c !! id = None ->
  sd_id scheduleData = Some id -> id <> 0 ->
  let w := mkWorld s c in
  setSchedule scheduleData now w
  = (Throw (TypeError "Cannot read properties of undefined (reading 'active')"), w)
  /\ setScheduleStatus id true now w
     = (Throw (TypeError "Cannot read properties of undefined (reading 'id')"), w)
  /\ setScheduleStatus id false now w = (Ret None, w)
  /\ deleteSchedule id w = (Ret id, w).
Proof.
  intros Hno Hnone Eid Hid. cbv zeta.
  assert (Hf : forall f, find_schedule id
                 (with_table (rewrite_row f id (tbl_schedule c)) (seq_schedule c) c) = None).
  { intros f. unfold find_schedule, rewrite_row. cbn [tbl_schedule with_table].
    rewrite map_row_unknown by exact Hno.
    destruct (List.find _ _) as [i|] eqn:F; [|reflexivity].
    apply find_some in F as [Hi Hb]. apply bool_decide_eq_true in Hb.
    exfalso. exact (Hno i Hi Hb). }
  assert (Ht : forall f, with_table (rewrite_row f id (tbl_schedule c)) (seq_schedule c) c = c).
  { intros f. unfold rewrite_row. rewrite map_row_unknown by exact Hno. apply with_table_same. }
  repeat split.
  - unfold setSchedule. rewrite Eid, bool_decide_eq_false_2 by exact Hid.
    rewrite updateSchedule_eq. cbv zeta. cbn [sched]. rewrite Hf, Ht. reflexivity.
  - rewrite setScheduleStatus_eq. cbv zeta. cbn [sched]. rewrite Hf, Ht. reflexivity.
  - rewrite setScheduleStatus_eq. cbv zeta. cbn [sched]. rewrite Hf, Ht.
    unfold wbind. rewrite cancelJobs_none by exact Hnone. reflexivity.
  - unfold deleteSchedule. unfold wbind at 1. rewrite cancelJobs_none by exact Hnone.
    rewrite wbind_wmodify. cbn [sched]. rewrite filter_unknown by exact Hno.
    rewrite set_tbl_same. reflexivity.
Qed.

(** [createSchedule] inserts the row under the next id, active whatever
    the data says and with the limit 2 in place of 0, returns it, and
    [getSchedules] lists it last.  The new row is evaluated at once, alone:
    the queue is paused exactly when the time of the request is outside its
    window. *)
Theorem createSchedule_then_getSchedules scheduleData now s c :
  (forall item, In item (tbl_schedule c) -> s_id item <= seq_schedule c) ->
  scheduleJobs c !! (seq_schedule c + 1) = None ->
  let new := mkScheduleItem (seq_schedule c + 1) (sd_days_of_week scheduleData)
               (sd_start_time scheduleData) (sd_end_time scheduleData)
               (if bool_decide (sd_max_parallel_jobs scheduleData = 0) then 2
                else sd_max_parallel_jobs scheduleData) true in
  let r := createSchedule scheduleData now (mkWorld s c) in
  fst r = Ret (Some new)
  /\ fst (getSchedules (snd r)) = Ret (tbl_schedule c ++ [new])
  /\ isQueuePaused (engine (snd r))
     = negb (includes_day (daysArray new) (getDay now) && in_window new now).
Proof.
  intros Hbelow Hnone new. cbv zeta.
  pose proof (createSchedule_fresh scheduleData now s c Hbelow Hnone) as E.
  change (created_row scheduleData c) with new in E.
  rewrite E. cbn [fst snd engine]. repeat split.
  apply checkIfScheduleShouldBeActive_paused.
Qed.

(** A schedule whose start rule node-schedule refuses ([scheduleJob]
    returns [null]) is created all the same, and [createSchedule] returns
    its row.  From then on the row cannot be removed: whatever requests are
    served afterwards, the table still has a row with its id, and
    [deleteSchedule] for the id throws a TypeError (on
    [scheduleJobs[id].start.cancel()]) before its DELETE, leaving
    everything as it was. *)
Theorem refused_rule_cannot_be_deleted scheduleData now s c rs :
  (forall item, In item (tbl_schedule c) -> s_id item <= seq_schedule c) ->
  scheduleJobs c !! (seq_schedule c + 1) = None ->
  let id := seq_schedule c + 1 in
  let new := mkScheduleItem id (sd_days_of_week scheduleData)
               (sd_start_time scheduleData) (sd_end_time scheduleData)
               (if bool_decide (sd_max_parallel_jobs scheduleData = 0) then 2
                else sd_max_parallel_jobs scheduleData) true in
  schedulable (startRule new) = false ->
  let r := createSchedule scheduleData now (mkWorld s c) in
  let w := serve_all rs (snd r) in
  fst r = Ret (Some new)
  /\ (exists item, In item (tbl_schedule (sched w)) /\ s_id item = id)
  /\ deleteSchedule id w
     = (Throw (TypeError "Cannot read properties of null (reading 'cancel')"), w).
Proof.
  intros Hbelow Hnone id new Hrefused. cbv zeta.
  pose proof (createSchedule_fresh scheduleData now s c Hbelow Hnone) as E.
  change (created_row scheduleData c) with new in E.
  rewrite E. cbn [fst snd]. split; [reflexivity|].
  assert (Hstuck : stuck id (sched (serve_all rs
            (mkWorld (snd (checkIfScheduleShouldBeActive new now s))
               (scheduled new (with_table (tbl_schedule c ++ [new]) (s_id new) c)))))).
  { apply serve_all_stuck. cbn [sched]. split.
    - unfold scheduled. rewrite Hrefused. cbn [scheduleJobs]. eexists.
      change (s_id new) with id. apply lookup_insert_eq.
    - exists new. split; [|reflexivity]. cbn. apply in_or_app. right. left. reflexivity. }
  split; [exact (proj2 Hstuck) | exact (deleteSchedule_null id _ Hstuck)].
Qed.

End SchedulerTheorems.

(** ** The temporary files *)

Section TempFiles.
Import JS Database Scanner Encoder Scheduler System Properties.

Lemma last_index_app c a b : forall i found,
  ~ In c (list_ascii_of_string b) ->
  Posix.last_index c (a +:+ String c b) i found = Some (i + String.length a)%nat.
Proof.
  induction a as [|x a IH]; intros i found Hb.
  - rewrite append_nil. cbn [Posix.last_index]. rewrite bool_decide_eq_true_2 by reflexivity.
    cbn [String.length]. rewrite Nat.add_0_r.
    generalize (S i). revert Hb. clear. induction b as [|y b IH]; intros Hb n; [reflexivity|].
    cbn [Posix.last_index]. rewrite bool_decide_eq_false_2.
    + apply IH. intros H. apply Hb. right. exact H.
    + intros ->. apply Hb. left. reflexivity.
  - rewrite append_cons. cbn [Posix.last_index String.length].
    rewrite IH by exact Hb. f_equal. lia.
Qed.

Lemma substring_all b : String.substring 0 (String.length b) b = b.
Proof. induction b as [|y b IH]; [reflexivity|]. cbn. rewrite IH. reflexivity. Qed.

Lemma substring_skip a b n :
  String.substring (String.length a) n (a +:+ b) = String.substring 0 n b.
Proof.
  induction a as [|x a IH]; [rewrite append_nil; reflexivity|].
  rewrite append_cons. cbn [String.length String.substring]. exact IH.
Qed.

Lemma length_append a b : String.length (a +:+ b) = (String.length a + String.length b)%nat.
Proof.
  induction a as [|x a IH]; [rewrite append_nil; reflexivity|].
  rewrite append_cons. cbn [String.length]. rewrite IH. reflexivity.
Qed.

(** [path.basename] of a file in a directory is the name of the file. *)
Lemma basename_in_directory d name :
  ~ In "/"%char (list_ascii_of_string name) ->
  Posix.basename (d +:+ "/" +:+ name) = name.
Proof.
  intros Hn. unfold Posix.basename.
  change ("/" +:+ name) with (String "/" name).
  rewrite last_index_app by exact Hn. cbn [Nat.add].
  rewrite length_append. cbn [String.length].
  replace (String.length d + S (String.length name) - S (String.length d))%nat
    with (String.length name) by lia.
  assert (Ep : d +:+ String "/" name = (d +:+ String "/" "") +:+ name).
  { clear. induction d as [|x d IH]; [reflexivity|]. rewrite !append_cons. f_equal. exact IH. }
  assert (El : S (String.length d) = String.length (d +:+ String "/" "")).
  { rewrite length_append. cbn. lia. }
  rewrite Ep, El, substring_skip. apply substring_all.
Qed.

(** The temporary file of a job is named after the base name of the source
    file alone. *)
Lemma tempFilePath_of_basename p1 p2 :
  Posix.basename p1 = Posix.basename p2 ->
  tempFilePath_of (R := Posix.posix) p1 = tempFilePath_of (R := Posix.posix) p2.
Proof.
  intros E. unfold tempFilePath_of. cbn [path_extname path_basename_ext Posix.posix].
  unfold Posix.extname, Posix.basename_ext. rewrite E. reflexivity.
Qed.

(** The temporary file an encoding job writes to is chosen by the name
    of the source file alone: two files of the same name in two directories
    of the library are encoded to the same temporary path. *)
Theorem temp_file_ignores_the_directory d1 d2 name :
  ~ In "/"%char (list_ascii_of_string name) ->
  tempFilePath_of (R := Posix.posix) (d1 +:+ "/" +:+ name)
  = tempFilePath_of (R := Posix.posix) (d2 +:+ "/" +:+ name).
Proof.
  intros Hn. apply tempFilePath_of_basename.
  rewrite !basename_in_directory by exact Hn. reflexivity.
Qed.

End TempFiles.

Lemma temp_file_witness :
  Encoder.tempFilePath_of (R := Posix.posix) ("/lib/Show A" +:+ "/" +:+ "S01E01.mkv")
  = Encoder.tempFilePath_of (R := Posix.posix) ("/lib/Show B" +:+ "/" +:+ "S01E01.mkv").
Proof.
  apply (temp_file_ignores_the_directory "/lib/Show A" "/lib/Show B" "S01E01.mkv").
  cbn. intros H. repeat (destruct H as [H | H]; [discriminate H|]). exact H.
Defined.

(** ** Schedules that are taken away *)

Section SwitchingOff.
Import JS Database Scanner Encoder Scheduler System Properties.
Context {R : runtime} {NS : node_schedule}.
Local Open Scope Z_scope.
Local Open Scope sched_scope.

Lemma wbind_engine {A B} (m : W A) (k : A -> W B) w :
  engine (snd (m w)) = engine w ->
  (forall a w', engine (snd (k a w')) = engine w') ->
  engine (snd (wbind m k w)) = engine w.
Proof.
  intros Hm Hk. unfold wbind. destruct (m w) as [[a|e] w']; cbn [snd] in *.
  - rewrite Hk. exact Hm.
  - exact Hm.
Qed.

Lemma cancelJobs_engine id w : engine (snd (cancelJobs id w)) = engine w.
Proof. exact (proj1 (proj2 (proj2 (cancelJobs_frame id w)))). Qed.

(** Taking a schedule away never reaches the engine: after
    [deleteSchedule], after [setScheduleStatus] to inactive and after an
    update that makes the row inactive, the queue is as it was, running or
    paused, with the limit it had, also when the schedule that is gone is
    the one that had resumed the queue and set the limit. *)
Theorem removing_a_schedule_leaves_the_queue id now w :
  engine (snd (deleteSchedule id w)) = engine w
  /\ engine (snd (setScheduleStatus id false now w)) = engine w
  /\ (forall scheduleData,
        sd_active scheduleData = false ->
        engine (snd (updateSchedule id scheduleData now w)) = engine w).
Proof.
  split; [|split].
  - unfold deleteSchedule. apply wbind_engine; [apply cancelJobs_engine|].
    intros _ w'. reflexivity.
  - unfold setScheduleStatus. apply wbind_engine; [reflexivity|]. intros _ w1.
    apply wbind_engine; [reflexivity|]. intros schedule w2.
    apply wbind_engine; [apply cancelJobs_engine | reflexivity].
  - intros scheduleData Hoff. destruct w as [s c]. rewrite updateSchedule_eq. cbv zeta.
    destruct (find_schedule id _) as [item|] eqn:F; [|reflexivity].
    assert (Ea : active item = false).
    { apply find_schedule_Some in F as [Hin Eid]. cbn in Hin.
      destruct (map_row_in (updated_row scheduleData) id _ item (fun _ => eq_refl) Hin)
        as [[Hne _] | [_ (old & _ & _ & ->)]]; [contradiction | exact Hoff]. }
    rewrite Ea. etransitivity; [apply wbind_engine; [apply cancelJobs_engine | reflexivity]|].
    reflexivity.
Qed.

End SwitchingOff.

(** ** The scheduler on examples *)

(** The default rule of a fresh table, then a request for a second schedule,
    the first one deleted, a job that fires and the second schedule set
    active once more. *)
Lemma scheduler_mirrors_witness :
  Properties.mirrors (R := Posix.posix)
    (Scheduler.sched
       (Scheduler.serve_all (R := Posix.posix) (NS := Examples.accepts_all) Examples.requests
          (snd (Scheduler.initializeScheduler (R := Posix.posix) (NS := Examples.accepts_all)
                  Examples.monday_morning
                  (Scheduler.mkWorld Examples.scanned
                     (Scheduler.mkScheduler [Examples.every_day] 1 ∅ ∅ 0)))))).
Proof.
  apply (scheduler_mirrors_the_table (R := Posix.posix) (NS := Examples.accepts_all)).
  - intros r. reflexivity.
  - apply NoDup_singleton.
  - intros item [<- | []]. cbn. lia.
Defined.

(** On a Monday at 09:05 the rule for every day is in its window, the rule
    for the evenings after it in the table is not: the queue is paused. *)
Lemma startup_witness :
  Encoder.isQueuePaused
    (Scheduler.engine
       (snd (Scheduler.initializeScheduler (R := Posix.posix) (NS := Examples.accepts_all)
               Examples.monday_morning
               (Scheduler.mkWorld Examples.scanned
                  (Scheduler.mkScheduler [Examples.every_day; Examples.evenings] 2 ∅ ∅ 0)))))
  = true.
Proof.
  refine (proj2 (startup_obeys_the_last_active_rule (R := Posix.posix)
                   (NS := Examples.accepts_all) [Examples.every_day; Examples.evenings] 2
                   Examples.scanned Examples.monday_morning [Examples.every_day]
                   Examples.evenings _ _)).
  - apply NoDup_cons. split; [|apply NoDup_singleton].
    intros H. apply list_elem_of_In in H. destruct H as [H | []]. discriminate H.
  - reflexivity.
Defined.

(** A request of the settings page for the schedule 7, which is not there. *)
Lemma unknown_id_witness :
  Scheduler.setSchedule (R := Posix.posix) (NS := Examples.accepts_all)
    (Scheduler.mkScheduleData (Some 7%Z) "1,2,3,4,5" "22:00" "23:30" 2 true)
    Examples.monday_morning
    (Scheduler.mkWorld Examples.scanned (Scheduler.mkScheduler [Examples.every_day] 1 ∅ ∅ 0))
  = (JS.Throw (JS.TypeError "Cannot read properties of undefined (reading 'active')"),
     Scheduler.mkWorld Examples.scanned (Scheduler.mkScheduler [Examples.every_day] 1 ∅ ∅ 0)).
Proof.
  refine (proj1 (requests_for_an_unknown_id (R := Posix.posix) (NS := Examples.accepts_all)
                   7%Z _ Examples.monday_morning Examples.scanned
                   (Scheduler.mkScheduler [Examples.every_day] 1 ∅ ∅ 0) _ _ _ _)).
  - intros item [<- | []]. discriminate.
  - reflexivity.
  - reflexivity.
  - discriminate.
Defined.

(** The request for the schedule [nights], which carries the limit 0 and is
    not active, on the table with the default rule. *)
Lemma createSchedule_witness :
  fst (Scheduler.getSchedules
         (snd (Scheduler.createSchedule (R := Posix.posix) (NS := Examples.accepts_all)
                 Examples.nights Examples.monday_morning
                 (Scheduler.mkWorld Examples.scanned
                    (Scheduler.mkScheduler [Examples.every_day] 1 ∅ ∅ 0)))))
  = JS.Ret [Examples.every_day;
            Scheduler.mkScheduleItem 2 "1,2,3,4,5" "22:00" "23:30" 2 true].
Proof.
  refine (proj1 (proj2 (createSchedule_then_getSchedules (R := Posix.posix)
                          (NS := Examples.accepts_all) Examples.nights Examples.monday_morning
                          Examples.scanned
                          (Scheduler.mkScheduler [Examples.every_day] 1 ∅ ∅ 0) _ _))).
  - intros item [<- | []]. cbn. lia.
  - reflexivity.
Defined.

(** A schedule that starts at 24:00, with a node-schedule that refuses an
    hour above 23: after a request to change it, it still cannot be
    deleted. *)
Lemma refused_rule_witness :
  Scheduler.deleteSchedule 2 Examples.refused_world
  = (JS.Throw (JS.TypeError "Cannot read properties of null (reading 'cancel')"),
     Examples.refused_world).
Proof.
  refine (proj2 (proj2 (refused_rule_cannot_be_deleted (R := Posix.posix)
                          (NS := Examples.checks_hour) Examples.late Examples.monday_morning
                          Examples.scanned
                          (Scheduler.mkScheduler [Examples.every_day] 1 ∅ ∅ 0)
                          [Scheduler.SetScheduleStatus 2 false Examples.monday_morning]
                          _ _ _))).
  - intros item [<- | []]. cbn. lia.
  - reflexivity.
  - reflexivity.
Defined.
